(** * NosCode server: action protocol parser, auto-repair loop, chat
      dispatcher and terminal endpoints

    A shallow embedding of the request handlers of the editor's server
    (the Express application holding [/api/ai/auto-fix], [/api/ai/chat] and
    the [/api/terminal/*] endpoints), with the properties of its
    specification stated and proved over the embedding.

    Conventions.
    - A JavaScript string is a [text]: the list of its characters.  Characters
      are those of the Latin-1 range (the first 256 UTF-16 code units), which
      is where the source's regular expressions, [trim] and [toLowerCase] are
      defined below.  The pictograms in the fixed messages of the source
      stand in the literals as the bytes of their UTF-8 form; no property
      depends on the length of a message.
    - A value used in a JavaScript condition is tested with its truthiness:
      for a string, being non-empty ([truthy]); an absent field of a request
      body is the empty text.
    - Calls that leave the process ([exec], the content store [db], the
      completion provider [callHF]) thread an explicit world state and append
      to a log of effects. *)

From Stdlib Require Import Ascii String.
From stdpp Require Import base list strings pretty.

Set Default Proof Using "Type".
Open Scope nat_scope.

(** ** Text *)

Module Text.

Abbreviation text := (list ascii).

(** A string literal of the source. *)
Definition T (s : string) : text := list_ascii_of_string s.
Arguments T s%_string.

Definition code (c : ascii) : nat := nat_of_ascii c.

Definition in_range (lo hi : nat) (c : ascii) : bool :=
  (lo <=? code c) && (code c <=? hi).

Definition ch (n : nat) : ascii := ascii_of_nat n.

Definition is_char (a c : ascii) : bool := Ascii.eqb a c.

(** JavaScript truthiness of a string. *)
Definition truthy (s : text) : bool :=
  match s with [] => false | _ => true end.

(** [a || b] on strings. *)
Definition or_else (a b : text) : text := if truthy a then a else b.

(** WhiteSpace and LineTerminator of ECMAScript within Latin-1: TAB, LF, VT,
    FF, CR, SP and NBSP.  This is the class [\s] and what [trim] removes. *)
Definition is_space (c : ascii) : bool :=
  in_range 9 13 c || (code c =? 32) || (code c =? 160).

Definition is_digit (c : ascii) : bool := in_range 48 57 c.
Definition is_upper (c : ascii) : bool := in_range 65 90 c.
Definition is_lower (c : ascii) : bool := in_range 97 122 c.
Definition is_alnum (c : ascii) : bool := is_lower c || is_upper c || is_digit c.

(** The class [\w]. *)
Definition is_word (c : ascii) : bool := is_alnum c || (code c =? 95).

(** [toLowerCase] of one character: A-Z, and the Latin-1 capitals
    U+00C0-U+00DE except the multiplication sign U+00D7. *)
Definition lower_char (c : ascii) : ascii :=
  if is_upper c || (in_range 192 222 c && negb (code c =? 215))
  then ch (code c + 32) else c.

(** The canonicalisation of a character under the [i] flag (the upper-case
    form when that is a single code unit of the same range). *)
Definition canon_char (c : ascii) : ascii :=
  if is_lower c || (in_range 224 254 c && negb (code c =? 247))
  then ch (code c - 32) else c.

Definition toLowerCase (s : text) : text := map lower_char s.

Fixpoint trimStart (s : text) : text :=
  match s with
  | c :: s' => if is_space c then trimStart s' else s
  | [] => []
  end.

Definition trimEnd (s : text) : text := reverse (trimStart (reverse s)).

Definition trim (s : text) : text := trimEnd (trimStart s).

(** [s.startsWith(p)]. *)
Fixpoint startsWith (p s : text) : bool :=
  match p, s with
  | [], _ => true
  | a :: p', c :: s' => is_char a c && startsWith p' s'
  | _ :: _, [] => false
  end.

Definition endsWith (p s : text) : bool := startsWith (reverse p) (reverse s).

(** The first position of [s] at which [test] holds of the rest of the
    text, the end of the text included. *)
Fixpoint find_first (test : text -> bool) (s : text) : option nat :=
  if test s then Some 0
  else match s with
       | [] => None
       | _ :: s' => S <$> find_first test s'
       end.

(** [s.indexOf(p)], with [None] for -1. *)
Definition indexOf (p s : text) : option nat := find_first (startsWith p) s.

(** [s.includes(p)]. *)
Definition includes (p s : text) : bool := bool_decide (is_Some (indexOf p s)).

(** [s.substring(0, n)] and [arr.slice(0, n)]. *)
Definition substring0 {A} (n : nat) (s : list A) : list A := take n s.

(** [arr.slice(-n)]. *)
Definition slice_last {A} (n : nat) (l : list A) : list A :=
  drop (length l - n) l.

(** [s.replace(p, '')] with a string pattern: the first occurrence only. *)
Definition remove_first (p s : text) : text :=
  match indexOf p s with
  | Some i => take i s ++ drop (i + length p) s
  | None => s
  end.

(** [arr.join(sep)]. *)
Fixpoint join (sep : text) (l : list text) : text :=
  match l with
  | [] => []
  | [x] => x
  | x :: l' => x ++ sep ++ join sep l'
  end.

(** A number in a template literal. *)
Definition show_nat (n : nat) : text := T (pretty n).

End Text.

Export Text.

(** ** Regular expressions

    The fragment of ECMAScript patterns the server uses, matched the way the
    language defines it: a backtracking matcher in continuation-passing
    style, alternatives tried left to right, greedy quantifiers longest
    first, lazy ones shortest first. *)

Module Regex.

Inductive re : Type :=
| Lit (a : ascii)                           (* a pattern character *)
| Cls (p : ascii -> bool)                   (* a class: \s, \w, [...] *)
| Bos                                       (* ^ *)
| Eos                                       (* $ *)
| Eps                                       (* the empty pattern *)
| Cat (r1 r2 : re)
| Alt (r1 r2 : re)                          (* r1|r2 *)
| Rep (greedy : bool) (least : nat) (p : ascii -> bool)
                                            (* class*, class+, class*? *)
| Grp (i : nat) (r : re)                    (* the i-th capturing group *)
| Ahead (r : re).                           (* (?=r) *)

(** [r?] *)
Definition Opt (r : re) : re := Alt r Eps.

(** A run of pattern characters. *)
Fixpoint Str (s : text) : re :=
  match s with
  | [] => Eps
  | [a] => Lit a
  | a :: s' => Cat (Lit a) (Str s')
  end.

Fixpoint Seq (rs : list re) : re :=
  match rs with
  | [] => Eps
  | [r] => r
  | r :: rs' => Cat r (Seq rs')
  end.

(** Captures: the text of each group that took part in the match. *)
Definition caps := list (nat * text).

Fixpoint capture (i : nat) (c : caps) : option text :=
  match c with
  | [] => None
  | (j, s) :: c' => if i =? j then Some s else capture i c'
  end.

(** A continuation receives the position reached, the text that remains
    and the captures made so far. *)
Definition cont (R : Type) := nat -> text -> caps -> option R.

Definition lit_eq (ci : bool) (a c : ascii) : bool :=
  if ci then is_char (canon_char a) (canon_char c) else is_char a c.

(** The text starts with the pattern characters [l]. *)
Fixpoint lits_match (ci : bool) (l s : text) : bool :=
  match l, s with
  | [], _ => true
  | a :: l', x :: s' => lit_eq ci a x && lits_match ci l' s'
  | _ :: _, [] => false
  end.

(** Greedy repetition of a class: as many characters as possible, then
    fewer; [least] characters are required. *)
Fixpoint rep_greedy {R} (p : ascii -> bool) (least : nat) (k : cont R)
    (pos : nat) (s : text) (c : caps) : option R :=
  match s with
  | x :: s' =>
      if p x then
        match rep_greedy p (pred least) k (S pos) s' c with
        | Some r => Some r
        | None => match least with O => k pos s c | S _ => None end
        end
      else match least with O => k pos s c | S _ => None end
  | [] => match least with O => k pos s c | S _ => None end
  end.

(** Lazy repetition of a class: as few characters as possible, then more. *)
Fixpoint rep_lazy {R} (p : ascii -> bool) (least : nat) (k : cont R)
    (pos : nat) (s : text) (c : caps) : option R :=
  match least with
  | O =>
      match k pos s c with
      | Some r => Some r
      | None =>
          match s with
          | x :: s' => if p x then rep_lazy p O k (S pos) s' c else None
          | [] => None
          end
      end
  | S n =>
      match s with
      | x :: s' => if p x then rep_lazy p n k (S pos) s' c else None
      | [] => None
      end
  end.

(** The matcher; [ci] is the [i] flag. *)
Fixpoint m (ci : bool) (r : re) {R} (k : cont R)
    (pos : nat) (s : text) (c : caps) {struct r} : option R :=
  match r with
  | Lit a =>
      match s with
      | x :: s' => if lit_eq ci a x then k (S pos) s' c else None
      | [] => None
      end
  | Cls p =>
      match s with
      | x :: s' => if p x then k (S pos) s' c else None
      | [] => None
      end
  | Bos => if pos =? 0 then k pos s c else None
  | Eos => match s with [] => k pos s c | _ :: _ => None end
  | Eps => k pos s c
  | Cat r1 r2 => m ci r1 (m ci r2 k) pos s c
  | Alt r1 r2 =>
      match m ci r1 k pos s c with
      | Some x => Some x
      | None => m ci r2 k pos s c
      end
  | Rep true least p => rep_greedy p least k pos s c
  | Rep false least p => rep_lazy p least k pos s c
  | Grp i r =>
      m ci r (fun pos' s' c' => k pos' s' ((i, take (pos' - pos) s) :: c'))
        pos s c
  | Ahead r =>
      match m ci r (fun _ _ c' => Some c') pos s c with
      | Some c' => k pos s c'
      | None => None
      end
  end.

(** A successful match: where it starts, where it ends, its captures. *)
Record result := Match { m_start : nat; m_end : nat; m_caps : caps }.

Definition match_at (ci : bool) (r : re) (pos : nat) (s : text) : option result :=
  m ci r (fun e _ c => Some (Match pos e c)) pos s [].

(** The search of [RegExp.prototype.exec]: the first position, from [pos]
    on, at which the pattern matches; [s] is the text from [pos]. *)
Fixpoint search (ci : bool) (r : re) (pos : nat) (s : text) : option result :=
  match match_at ci r pos s with
  | Some x => Some x
  | None =>
      match s with
      | [] => None
      | _ :: s' => search ci r (S pos) s'
      end
  end.

(** [re.exec(s)] with [re.lastIndex = last]. *)
Definition exec (ci : bool) (r : re) (s : text) (last : nat) : option result :=
  if last <=? length s then search ci r last (drop last s) else None.

(** [s.match(re)] for a pattern without the [g] flag. *)
Definition match_ (ci : bool) (r : re) (s : text) : option result := exec ci r s 0.

(** [match[0]]: the text matched. *)
Definition whole (s : text) (x : result) : text :=
  take (m_end x - m_start x) (drop (m_start x) s).

(** [match[i]] of a group that took part; the empty text when it did not. *)
Definition group (i : nat) (x : result) : text := default [] (capture i (m_caps x)).

(** The loop [while ((match = re.exec(s)) !== null) body] over a pattern
    with the [g] flag: [lastIndex] moves to the end of each match.  The
    collected matches are in the order found.  [None] when the fuel ran
    out, which an empty match would cause (the loop would not end). *)
Fixpoint exec_all (fuel : nat) (ci : bool) (r : re) (s : text) (last : nat)
    : option (list result) :=
  match fuel with
  | O => None
  | S fuel' =>
      match exec ci r s last with
      | None => Some []
      | Some x => (x ::.) <$> exec_all fuel' ci r s (m_end x)
      end
  end.

(** [s.replace(re, by)] for a pattern with the [g] flag: every match, found
    from left to right, is replaced.  [src] is the position up to which the
    source has been copied and [last] the position the next search starts
    from, which is moved past an empty match.  [last] grows in every round,
    so [length s + 2] rounds always reach the end of the text. *)
Fixpoint replace_all_from (fuel : nat) (ci : bool) (r : re) (by_ s : text)
    (src last : nat) : text :=
  match fuel with
  | O => drop src s
  | S fuel' =>
      match exec ci r s last with
      | None => drop src s
      | Some x =>
          take (m_start x - src) (drop src s) ++ by_ ++
          replace_all_from fuel' ci r by_ s (m_end x)
            (if m_end x =? m_start x then S (m_end x) else m_end x)
      end
  end.

Definition replace_all (ci : bool) (r : re) (by_ s : text) : text :=
  replace_all_from (length s + 2) ci r by_ s 0 0.

(** [s.replace(re, by)] for a pattern without the [g] flag: the first match
    only. *)
Definition replace_first (ci : bool) (r : re) (by_ s : text) : text :=
  match match_ ci r s with
  | None => s
  | Some x => take (m_start x) s ++ by_ ++ drop (m_end x) s
  end.

End Regex.

Export Regex.

(** ** The patterns of the server

    Each pattern is given with its source text, in which the double quote
    character is written [\x22].  The classes of these patterns contain
    both cases of every letter they list, so the [i] flag changes the
    meaning of pattern characters only. *)

Module Patterns.

Definition nl : ascii := ch 10.
Definition backtick : ascii := ch 96.
Definition dquote : ascii := ch 34.
Definition squote : ascii := ch 39.

Definition any_char (c : ascii) : bool := true.
Definition is_quote (c : ascii) : bool := is_char dquote c || is_char squote c.

(** [[^\n`]] *)
Definition not_nl_backtick (c : ascii) : bool :=
  negb (is_char nl c || is_char backtick c).

(** [[^\s\x22']] *)
Definition not_space_quote (c : ascii) : bool :=
  negb (is_space c || is_quote c).

(** [[a-zA-Z0-9_\-\/\.]] *)
Definition is_path_char (c : ascii) : bool :=
  is_alnum c || is_char "_" c || is_char "-" c || is_char "/" c || is_char "." c.

(** [[:\n]] *)
Definition is_colon_nl (c : ascii) : bool := is_char ":" c || is_char nl c.

Definition fence : text := [backtick; backtick; backtick].

Definition star (p : ascii -> bool) : re := Rep true 0 p.
Definition plus (p : ascii -> bool) : re := Rep true 1 p.
Definition lazy_star (p : ascii -> bool) : re := Rep false 0 p.

(** [/FILE:\s*([^\n`]+)\s*\n\s*```[\w]*\s*\n([\s\S]*?)```/gi] *)
Definition fileRegex : re :=
  Seq [ Str (T "FILE:"); star is_space; Grp 1 (plus not_nl_backtick);
        star is_space; Lit nl; star is_space; Str fence; star is_word;
        star is_space; Lit nl; Grp 2 (lazy_star any_char); Str fence ].

(** [/EXPLANATION:\s*([\s\S]*?)(?=FILE:|$)/i] *)
Definition explanationRegex : re :=
  Seq [ Str (T "EXPLANATION:"); star is_space; Grp 1 (lazy_star any_char);
        Ahead (Alt (Str (T "FILE:")) Eos) ].

(** [/^[\x22']|[\x22']$/g] *)
Definition quoteRegex : re :=
  Alt (Cat Bos (Cls is_quote)) (Cat (Cls is_quote) Eos).

(** [/(?:^|\n)([a-zA-Z0-9_\-\/\.]+\.[a-zA-Z0-9]+)\s*\n```[\w]*\n([\s\S]*?)```/gi] *)
Definition altRegex1 : re :=
  Seq [ Alt Bos (Lit nl);
        Grp 1 (Seq [plus is_path_char; Lit "."; plus is_alnum]);
        star is_space; Lit nl; Str fence; star is_word; Lit nl;
        Grp 2 (lazy_star any_char); Str fence ].

(** [/(?:create|update|write|make)\s+(?:a\s+)?(?:file\s+)?(?:called\s+)?[\x22\']?([a-zA-Z0-9_\-\/\.]+\.[a-zA-Z0-9]+)[\x22\']?\s*[:\n]+\s*```[\w]*\n([\s\S]*?)```/gi] *)
Definition createRegex : re :=
  Seq [ Alt (Str (T "create")) (Alt (Str (T "update"))
          (Alt (Str (T "write")) (Str (T "make"))));
        plus is_space;
        Opt (Cat (Lit "a") (plus is_space));
        Opt (Cat (Str (T "file")) (plus is_space));
        Opt (Cat (Str (T "called")) (plus is_space));
        Opt (Cls is_quote);
        Grp 1 (Seq [plus is_path_char; Lit "."; plus is_alnum]);
        Opt (Cls is_quote);
        star is_space; plus is_colon_nl; star is_space;
        Str fence; star is_word; Lit nl;
        Grp 2 (lazy_star any_char); Str fence ].

(** [/delete\s+(?:the\s+)?(?:file\s+)?[\x22\']?([^\s\x22']+\.\w+)[\x22\']?/i] *)
Definition deleteRegex : re :=
  Seq [ Str (T "delete"); plus is_space;
        Opt (Cat (Str (T "the")) (plus is_space));
        Opt (Cat (Str (T "file")) (plus is_space));
        Opt (Cls is_quote);
        Grp 1 (Seq [plus not_space_quote; Lit "."; plus is_word]);
        Opt (Cls is_quote) ].

(** [/(?:read|show|open|view|display)\s+(?:the\s+)?(?:contents?\s+(?:of\s+)?)?(?:file\s+)?[\x22\']?([^\s\x22']+\.\w+)[\x22\']?/i] *)
Definition readRegex : re :=
  Seq [ Alt (Str (T "read")) (Alt (Str (T "show")) (Alt (Str (T "open"))
          (Alt (Str (T "view")) (Str (T "display")))));
        plus is_space;
        Opt (Cat (Str (T "the")) (plus is_space));
        Opt (Seq [Str (T "content"); Opt (Lit "s"); plus is_space;
                  Opt (Cat (Str (T "of")) (plus is_space))]);
        Opt (Cat (Str (T "file")) (plus is_space));
        Opt (Cls is_quote);
        Grp 1 (Seq [plus not_space_quote; Lit "."; plus is_word]);
        Opt (Cls is_quote) ].

(** [/create\s+(?:a\s+)?(?:an\s+)?(?:new\s+)?(?:file\s+)?(?:called\s+)?(?:named\s+)?[\x22\']?([a-zA-Z0-9_\-\.\/]+\.(html|htm|js|jsx|ts|tsx|css|scss|py|java|json|md|txt|xml|yml|yaml))[\x22\']?/i] *)
Definition simpleCreateRegex : re :=
  Seq [ Str (T "create"); plus is_space;
        Opt (Cat (Lit "a") (plus is_space));
        Opt (Cat (Str (T "an")) (plus is_space));
        Opt (Cat (Str (T "new")) (plus is_space));
        Opt (Cat (Str (T "file")) (plus is_space));
        Opt (Cat (Str (T "called")) (plus is_space));
        Opt (Cat (Str (T "named")) (plus is_space));
        Opt (Cls is_quote);
        Grp 1 (Seq [plus is_path_char; Lit ".";
          Grp 2 (foldr (fun e r => Alt (Str (T e)) r) (Str (T "yaml"))
            ["html"; "htm"; "js"; "jsx"; "ts"; "tsx"; "css"; "scss"; "py";
             "java"; "json"; "md"; "txt"; "xml"; "yml"]%string)]);
        Opt (Cls is_quote) ].

(** [/^python/] *)
Definition pythonRegex : re := Cat Bos (Str (T "python")).

(** [/\d{4,5}$/] *)
Definition portRegex : re :=
  Seq [ Cls is_digit; Cls is_digit; Cls is_digit; Cls is_digit;
        Opt (Cls is_digit); Eos ].

End Patterns.

Export Patterns.

(** ** Action protocol parser

    Both [/api/ai/auto-fix] and [/api/ai/chat] extract file edits with the
    same loop over [fileRegex]; the pattern search does not depend on what
    the loop body does, so the matches are computed first and the body is
    then run on each, in order. *)

Module Parser.

Record edit := Edit { filepath : text; content : text }.

(** [.replace(/^[\x22']|[\x22']$/g, '')] *)
Definition strip_quotes (s : text) : text := replace_all false quoteRegex [] s.

(** The body of the extraction loop:
    [filepath = match[1].trim().replace(...)], [content = match[2].trim()],
    kept [if (filepath && content)]. *)
Definition edit_of_match (x : result) : option edit :=
  let filepath := strip_quotes (trim (group 1 x)) in
  let content := trim (group 2 x) in
  if truthy filepath && truthy content then Some (Edit filepath content)
  else None.

(** All matches of a global pattern in a text, by the [exec] loop. *)
Definition matches (r : re) (s : text) : option (list result) :=
  exec_all (S (length s)) true r s 0.

(** The edits of the [FILE:] grammar. *)
Definition collect (f : result -> option edit) (ms : option (list result))
    : option (list edit) :=
  match ms with
  | Some l => Some (omap f l)
  | None => None
  end.

Definition file_edits (s : text) : option (list edit) :=
  collect edit_of_match (matches fileRegex s).

(** [explanationMatch ? explanationMatch[1].trim() : ''] *)
Definition explanation_of (s : text) : text :=
  match match_ true explanationRegex s with
  | Some x => trim (group 1 x)
  | None => []
  end.

(** First fallback of the chat endpoint: a bare file name on its own line
    followed by a fenced block. *)
Definition edit_of_alt1 (x : result) : option edit :=
  let filepath := trim (group 1 x) in
  let content := trim (group 2 x) in
  if truthy filepath && truthy content && negb (includes (T " ") filepath)
     && includes (T ".") filepath
  then Some (Edit filepath content) else None.

(** Second fallback: a fenced block after create/update/write/make. *)
Definition edit_of_create (x : result) : option edit :=
  let filepath := trim (group 1 x) in
  let content := trim (group 2 x) in
  if truthy filepath && truthy content then Some (Edit filepath content)
  else None.

(** The [files] array of the chat endpoint after the three grammars; the
    fallbacks run only on an empty array and for a file operation. *)
Definition chat_edits (isFileOperation : bool) (s : text) : option (list edit) :=
  match file_edits s with
  | None => None
  | Some files =>
      match (if (length files =? 0) && isFileOperation
             then collect edit_of_alt1 (matches altRegex1 s)
             else Some files) with
      | None => None
      | Some files =>
          if (length files =? 0) && isFileOperation
          then collect edit_of_create (matches createRegex s)
          else Some files
      end
  end.

End Parser.

Export Parser.

(** ** The world outside the server

    The child processes, the content store and the completion provider are
    a world [W] that every call transforms.  A rejected promise or a thrown
    exception is [Throws] with the error's message; [exec] itself throws,
    before it starts anything and without calling back, when it refuses its
    command (an empty one, one that holds a NUL character, one too long for
    the system).  The handlers run in a state monad over the world and a
    log of the calls made; [None] stands for a handler that never
    answers. *)

Module Effects.

Inductive outcome (A : Type) : Type :=
| Ok (a : A)
| Throws (message : text).
Arguments Ok {A} a.
Arguments Throws {A} message.

(** What the callback of [exec] receives: [error] (its message, when there
    is one), [stdout] and [stderr]. *)
Record exec_result := ExecResult {
  error : option text;
  stdout : text;
  stderr : text
}.

(** A child started for a server command, as the handler sees it after the
    settle window: its [pid] (absent when it could not start), the output
    gathered from both streams and whether any arrived; or the error event
    that answered the request first. *)
Inductive spawned : Type :=
| Spawned (pid : option nat) (output : text) (hasOutput : bool)
| SpawnError (message : text).

(** One exchange of the chat history: [{ user, ai }]. *)
Record chat_turn := ChatTurn { user : text; ai : text }.

Class Services (W : Type) := {
  (** [exec(command, options, callback)] run to its callback, or the
      exception it throws instead of starting the command *)
  sys_exec : text -> W -> outcome exec_result * W;
  (** [db.getAllProjectFiles(project)] *)
  db_getAllProjectFiles : text -> W -> outcome (list text) * W;
  (** [db.readFile(project, file)] *)
  db_readFile : text -> text -> W -> outcome text * W;
  (** [db.writeFile(project, filepath, content)] *)
  db_writeFile : text -> text -> text -> W -> outcome unit * W;
  (** [db.loadChatHistory(project)] *)
  db_loadChatHistory : text -> W -> outcome (list chat_turn) * W;
  (** [db.saveChatHistory(project, prompt, response)] *)
  db_saveChatHistory : text -> text -> text -> W -> outcome unit * W;
  (** [callHF(prompt, { image })] *)
  hf_call : text -> text -> W -> outcome text * W;
  (** [exec(cmd, options)] of a server command, observed when the timer of
      two seconds fires, or the exception it throws instead of starting
      the command *)
  sys_spawn : text -> W -> outcome spawned * W;
  (** [process.kill()] on a tracked child *)
  sys_child_kill : nat -> W -> unit * W
}.

Inductive event : Type :=
| EExec (command : text)
| EGetAllProjectFiles (project : text)
| EReadFile (project file : text)
| EWriteFile (project filepath content : text)
| ELoadChatHistory (project : text)
| ESaveChatHistory (project prompt response : text)
| ECallHF (prompt image : text)
| ESpawn (command : text)
| EChildKill (pid : nat)
| EServerClose (port : nat).

Record state (W : Type) := State { world : W; log : list event }.
Arguments State {W} world log.
Arguments world {W} s.
Arguments log {W} s.

Definition M (W A : Type) : Type := state W -> option (A * state W).

Definition ret {W A} (a : A) : M W A := fun st => Some (a, st).

Definition bind {W A B} (c : M W A) (k : A -> M W B) : M W B :=
  fun st => match c st with
            | Some (a, st') => k a st'
            | None => None
            end.

(** A pure computation that may not end. *)
Definition lift {W A} (o : option A) : M W A :=
  fun st => match o with Some a => Some (a, st) | None => None end.

(** A call to the world, logged. *)
Definition call {W A} (e : event) (f : W -> A * W) : M W A :=
  fun st => let '(a, w) := f (world st) in Some (a, State w (log st ++ [e])).

Declare Scope eff_scope.
Delimit Scope eff_scope with eff.
Notation "'let*' x := c 'in' k" := (bind c (fun x => k))
  (at level 10, x binder, c at level 100, k at level 200) : eff_scope.

Section Calls.
Context {W : Type} `{Services W}.

Definition exec_cmd (command : text) : M W (outcome exec_result) :=
  call (EExec command) (sys_exec command).

Definition getAllProjectFiles (project : text) : M W (outcome (list text)) :=
  call (EGetAllProjectFiles project) (db_getAllProjectFiles project).

Definition readFile (project file : text) : M W (outcome text) :=
  call (EReadFile project file) (db_readFile project file).

Definition writeFile (project filepath content : text) : M W (outcome unit) :=
  call (EWriteFile project filepath content) (db_writeFile project filepath content).

Definition loadChatHistory (project : text) : M W (outcome (list chat_turn)) :=
  call (ELoadChatHistory project) (db_loadChatHistory project).

Definition saveChatHistory (project prompt response : text) : M W (outcome unit) :=
  call (ESaveChatHistory project prompt response)
       (db_saveChatHistory project prompt response).

Definition callHF (prompt image : text) : M W (outcome text) :=
  call (ECallHF prompt image) (hf_call prompt image).

Definition spawn_cmd (command : text) : M W (outcome spawned) :=
  call (ESpawn command) (sys_spawn command).

Definition child_kill (pid : nat) : M W unit :=
  call (EChildKill pid) (sys_child_kill pid).

(** An effect on an object the server owns, logged only. *)
Definition note (e : event) : M W unit :=
  call e (fun w => (tt, w)).

End Calls.

Definition is_call (e : event) : bool :=
  match e with ECallHF _ _ => true | _ => false end.

Definition is_run (e : event) : bool :=
  match e with EExec _ => true | _ => false end.

(** The prompts submitted to the completion provider, in order. *)
Definition prompts (l : list event) : list text :=
  omap (fun e => match e with ECallHF p _ => Some p | _ => None end) l.

(** The number of commands run: the calls of [exec], one that throws
    included. *)
Definition runs (l : list event) : nat := length (filter (fun e => is_run e = true) l).

(** The number of calls to the completion provider. *)
Definition provider_calls (l : list event) : nat := length (prompts l).

End Effects.

Export Effects.

(** ** JavaScript objects used as maps

    [fileContents] is a plain object keyed by file name.  Assigning to a key
    it already has keeps the key's place; [Object.entries] lists the keys
    that are array indices first, in increasing order, and then the others in
    the order they were added.  The key [__proto__] is the accessor of the
    prototype, whose setter ignores a string: assigning to it adds no
    property. *)

Module JsObject.

Abbreviation obj := (list (text * text)).

Fixpoint set (k v : text) (o : obj) : obj :=
  match o with
  | [] => [(k, v)]
  | (k', v') :: o' =>
      if bool_decide (k' = k) then (k, v) :: o' else (k', v') :: set k v o'
  end.

(** [o[k] = v] for a string [v]. *)
Definition assign (k v : text) (o : obj) : obj :=
  if bool_decide (k = T "__proto__") then o else set k v o.

Fixpoint digits_value (acc : N) (s : text) : N :=
  match s with
  | [] => acc
  | c :: s' => digits_value (10 * acc + N.of_nat (code c - 48))%N s'
  end.

(** An array index: the canonical decimal form of an integer below
    [2^32 - 1]. *)
Definition index_of_key (k : text) : option N :=
  match k with
  | [] => None
  | c :: k' =>
      if forallb is_digit k && (negb (is_char "0" c) || bool_decide (k' = []))
         && (length k <=? 10)
      then let n := digits_value 0 k in
           if (n <? 4294967295)%N then Some n else None
      else None
  end.

Fixpoint insert_sorted (e : N * (text * text)) (l : list (N * (text * text)))
    : list (N * (text * text)) :=
  match l with
  | [] => [e]
  | e' :: l' => if (e.1 <=? e'.1)%N then e :: l else e' :: insert_sorted e l'
  end.

Definition indexed (o : obj) : list (N * (text * text)) :=
  omap (fun e => (fun n => (n, e)) <$> index_of_key e.1) o.

Definition named (o : obj) : obj :=
  filter (fun e => index_of_key e.1 = None) o.

Definition entries (o : obj) : list (text * text) :=
  map snd (foldr insert_sorted [] (indexed o)) ++ named o.

End JsObject.

(** ** Auto-repair loop: [POST /api/ai/auto-fix] *)

Module AutoFix.

Definition maxAttempts : nat := 5.

(** The entries of the [fixes] array, by their [action]. *)
Inductive fix_entry : Type :=
| Success (attempt : nat) (output : text)               (* 'success' *)
| ErrorDetected (attempt : nat) (error : text)          (* 'error_detected' *)
| AppliedFix (attempt : nat) (explanation : text) (files : list text)
                                                        (* 'applied_fix' *)
| NoFixFound (attempt : nat) (aiResponse : text).       (* 'no_fix_found' *)

Definition attempt_of (f : fix_entry) : nat :=
  match f with
  | Success a _ | ErrorDetected a _ | AppliedFix a _ _ | NoFixFound a _ => a
  end.

(** The [message] of an entry. *)
Definition message_of (f : fix_entry) : text :=
  match f with
  | Success _ _ => T "✅ Code runs successfully!"
  | ErrorDetected a _ => T "❌ Attempt " ++ show_nat a ++ T ": Error detected"
  | AppliedFix _ _ files => T "🔧 Applied fix to: " ++ join (T ", ") files
  | NoFixFound _ _ => T "⚠️ AI couldn't generate a fix"
  end.

(** What the handler sends. *)
Inductive response : Type :=
| BadRequest (error : text)                             (* status 400 *)
| Report (success : bool) (message : text) (fixes : list fix_entry)
         (finalOutput : option text)                    (* status 200 *)
| ServerError (error : text) (fixes : list fix_entry).        (* status 500 *)

Definition fixes_of (r : response) : list fix_entry :=
  match r with
  | BadRequest _ => []
  | Report _ _ fixes _ => fixes
  | ServerError _ fixes => fixes
  end.

(** The run command chosen from the file names when none is given. *)
Definition sniff_command (projectFiles : list text) : text :=
  if existsb (endsWith (T ".py")) projectFiles then
    let mainFile :=
      match find (fun f => includes (T "main.py") f || includes (T "app.py") f)
                 projectFiles with
      | Some f => f
      | None => default [] (find (endsWith (T ".py")) projectFiles)
      end in
    T "py " ++ mainFile
  else if existsb (endsWith (T ".go")) projectFiles then T "go run ."
  else if existsb (fun f => endsWith (T ".js") f && includes (T "server") f)
                  projectFiles then T "node server.js"
  else if existsb (endsWith (T ".java")) projectFiles then
    match find (includes (T "Main.java")) projectFiles with
    | Some mainFile =>
        T "javac " ++ mainFile ++ T " && java " ++ remove_first (T ".java") mainFile
    | None => T "javac *.java && java Main"
    end
  else [].

Definition determine_command (runCommand : text) (projectFiles : list text) : text :=
  if truthy runCommand then runCommand else sniff_command projectFiles.

(** The [output] object built in the callback of [exec]. *)
Record run_output := RunOutput { ro_success : bool; ro_output : text }.

Definition run_output_of (r : exec_result) : run_output :=
  RunOutput (negb (bool_decide (is_Some (error r))))
            (or_else (stdout r) (or_else (stderr r) (default [] (error r)))).

(** One section of the prompt: a file name and its content cut at 3000
    characters. *)
Definition file_section (e : text * text) : text :=
  T "FILE: " ++ e.1 ++ [nl] ++ fence ++ [nl] ++ substring0 3000 e.2 ++ [nl]
  ++ fence ++ [nl].

(** The text the template literal of [fixPrompt] makes of the sections, the
    command and the error output. *)
Definition prompt_frame (sections command errorOutput : text) : text :=
  T "You are a debugging expert. The code has an error. You MUST fix it.

PROJECT FILES:
" ++ sections ++ T "

RUN COMMAND: " ++ command ++ T "

ERROR OUTPUT:
```
" ++ errorOutput ++ T "
```

YOUR TASK:
1. Identify the error from the output
2. Fix ONLY the broken file(s)
3. Respond with the FIXED files using this format:

EXPLANATION:
Brief description of what you fixed and why

FILE: filename.ext
```
complete fixed file content
```

Remember: Output ONLY the files that need fixing. Use the FILE: format.".

(** [Object.entries(fileContents).map(...).join('\n')] inside it. *)
Definition fixPrompt (fileContents : JsObject.obj) (command errorOutput : text) : text :=
  prompt_frame (join [nl] (map file_section (JsObject.entries fileContents)))
               command errorOutput.

Definition success_message (attempt : nat) : text :=
  T "✅ **Success!** Your code runs without errors after " ++
  (if 1 <? attempt then show_nat (attempt - 1) ++ T " fix(es)"
   else T "no fixes needed") ++ T ".".

Definition exhausted_message : text :=
  T "❌ Could not fix all errors after " ++ show_nat maxAttempts ++
  T " attempts. Review the fixes and errors above.".

Definition no_command_message : text :=
  T "Could not determine how to run your project. Please specify a run command.".

Section Handler.
Context {W : Type} `{Services W}.
Local Open Scope eff_scope.

(** [for (const file of projectFiles.slice(0, 10))]: a file that cannot be
    read is skipped. *)
Fixpoint read_files (project : text) (files : list text)
    (fileContents : JsObject.obj) : M W JsObject.obj :=
  match files with
  | [] => ret fileContents
  | file :: files' =>
      let* r := readFile project file in
      match r with
      | Ok content =>
          read_files project files' (JsObject.assign file content fileContents)
      | Throws _ => read_files project files' fileContents
      end
  end.

(** The body of the extraction loop on the edits found: a file that cannot
    be written is skipped. *)
Fixpoint write_fixes (project : text) (edits : list edit)
    (fixedFiles : list text) : M W (list text) :=
  match edits with
  | [] => ret fixedFiles
  | e :: edits' =>
      let* r := writeFile project (filepath e) (content e) in
      match r with
      | Ok _ => write_fixes project edits' (fixedFiles ++ [filepath e])
      | Throws _ => write_fixes project edits' fixedFiles
      end
  end.

(** [for (let attempt = 1; attempt <= maxAttempts; attempt++)], entered at
    [attempt] with [remaining = maxAttempts + 1 - attempt] rounds to go.
    What [exec] or [callHF] throws leaves the loop for the [catch] of the
    handler, which answers with the history as it is then. *)
Fixpoint attempts (remaining attempt : nat) (project command : text)
    (projectFiles : list text) (fixes : list fix_entry) : M W response :=
  match remaining with
  | O => ret (Report false exhausted_message fixes None)
  | S remaining' =>
      let* r := exec_cmd command in
      match r with
      | Throws message => ret (ServerError message fixes)
      | Ok r =>
          let output := run_output_of r in
          if ro_success output then
            let fixes := fixes ++ [Success attempt (ro_output output)] in
            ret (Report true (success_message attempt) fixes
                        (Some (ro_output output)))
          else
            let errorOutput := ro_output output in
            let fixes := fixes ++ [ErrorDetected attempt errorOutput] in
            let* fileContents :=
              read_files project (substring0 10 projectFiles) [] in
            let* a := callHF (fixPrompt fileContents command errorOutput) [] in
            match a with
            | Throws message => ret (ServerError message fixes)
            | Ok aiResponse =>
                let explanation := explanation_of aiResponse in
                let* edits := lift (file_edits aiResponse) in
                let* fixedFiles := write_fixes project edits [] in
                if 0 <? length fixedFiles then
                  attempts remaining' (S attempt) project command projectFiles
                    (fixes ++ [AppliedFix attempt
                                 (or_else explanation (T "Fixed the error"))
                                 fixedFiles])
                else
                  ret (Report false exhausted_message
                         (fixes ++ [NoFixFound attempt
                                      (substring0 500 aiResponse)])
                         None)
            end
      end
  end.

Definition auto_fix (project runCommand : text) : M W response :=
  if negb (truthy project) then ret (BadRequest (T "Project required"))
  else
    let* fs := getAllProjectFiles project in
    match fs with
    | Throws message => ret (ServerError message [])
    | Ok projectFiles =>
        let command := determine_command runCommand projectFiles in
        if negb (truthy command) then
          ret (Report false no_command_message [] None)
        else attempts maxAttempts 1 project command projectFiles []
    end.

End Handler.

End AutoFix.

(** ** Chat action dispatcher: [POST /api/ai/chat] *)

Module Chat.

Inductive action : Type :=
| DeleteFile (filepath : text)                          (* 'delete_file' *)
| ReadFile (filepath : text)                            (* 'read_file' *)
| StartAutoFix (project : text)                         (* 'auto_fix' *)
| WriteFile (filepath content : text)                   (* 'write_file' *)
| WriteMultipleFiles (files : list edit).               (* 'write_multiple_files' *)

Inductive response : Type :=
| PromptRequired                                        (* status 400 *)
| Reply (response : text) (action : option action)      (* status 200 *)
| Failed (response : text).                             (* status 500 *)

(** A quoted phrase inside a prompt. *)
Definition Q (s : string) : text := [dquote] ++ T s ++ [dquote].
Arguments Q s%_string.

Definition no_project_message : text :=
  T "⚠️ Please create or select a project first before I can create or edit files. Use the **Project** button in the sidebar to get started.".

(** [!project] together with the test on create, file and edit under it. *)
Definition needs_project (prompt project : text) : bool :=
  negb (truthy project) &&
  (includes (T "create") (toLowerCase prompt) ||
   includes (T "file") (toLowerCase prompt) ||
   includes (T "edit") (toLowerCase prompt)).

Definition isFixCommand (lowerPrompt : text) : bool :=
  includes (T "fix") lowerPrompt &&
  (includes (T "error") lowerPrompt || includes (T "run") lowerPrompt ||
   includes (T "execute") lowerPrompt || includes (T "test") lowerPrompt ||
   includes (T "console") lowerPrompt).

Definition isFileOperation (lowerPrompt : text) : bool :=
  existsb (fun w => includes (T w) lowerPrompt)
    ["create"; "make"; "write"; "edit"; "modify"; "update"; "add"; "change";
     "fix"; "implement"; "build"; "setup"; "generate"]%string.

Definition history_context (chatHistory : list chat_turn) : text :=
  if 0 <? length chatHistory then
    T "

Recent conversation history:
" ++ join [nl; nl]
       (map (fun h => T "User: " ++ user h ++ [nl] ++ T "AI: " ++
                      substring0 500 (ai h) ++
                      (if 500 <? length (ai h) then T "..." else []))
            (slice_last 5 chatHistory))
  else [].

Definition project_context (project : text) (projectFiles : list text) : text :=
  T "

Project: " ++ project ++ T "
Files in project:
  " ++ (if 0 <? length projectFiles
        then join (T "
  ") (substring0 30 projectFiles)
        else T "No files found") ++
  (if 30 <? length projectFiles then T "
  ... and more" else []).

Definition open_file_context (code_ filename : text) : text :=
  if truthy code_ && truthy filename then
    T "

Currently open file: " ++ filename ++ T "
File content:
```
" ++ substring0 5000 code_ ++ T "
```"
  else [].

Definition fileOperationPrompt (prompt contextInfo : text) : text :=
  T "YOU ARE A FILE CREATOR. NOT AN INSTRUCTOR. NEVER EXPLAIN STEPS.

STRICT RULES - YOU WILL BE PUNISHED IF YOU BREAK THESE:
1. DO NOT WRITE " ++ Q "Step 1" ++ T ", " ++ Q "Step 2" ++ T ", " ++
  Q "First" ++ T ", " ++ Q "Then" ++ T ", " ++ Q "Next" ++ T ", etc.
2. DO NOT SAY " ++ Q "create a file" ++ T " or " ++ Q "you should" ++
  T " or " ++ Q "make sure to" ++ T "
3. DO NOT GIVE INSTRUCTIONS OR ADVICE
4. ONLY OUTPUT: EXPLANATION + FILE blocks (see format below)
5. WRITE COMPLETE FILES - NO PLACEHOLDERS

REQUIRED FORMAT:

EXPLANATION:
One sentence

FILE: filename.ext
```
complete code
```

FILE: another.ext
```
complete code
```

EXAMPLE (CORRECT - DO THIS):
User: " ++ Q "flask headset tracker" ++ T "
You respond:
EXPLANATION:
Creating Flask headset price tracker

FILE: app.py
```python
from flask import Flask, render_template
import requests
app = Flask(__name__)
headsets = {'HyperX': {'url': 'https://amazon.com/hyperx', 'price': 0}}
@app.route('/')
def index():
    return render_template('index.html', headsets=headsets)
if __name__ == '__main__':
    app.run(debug=True)
```

FILE: templates/index.html
```html
<!DOCTYPE html>
<html><head><title>Prices</title></head>
<body><h1>Headset Prices</h1></body></html>
```

FILE: requirements.txt
```
Flask==3.0.0
requests==2.31.0
```

WRONG (NEVER DO THIS):
" ++ [dquote] ++ T "To run this application, follow these steps:
Step 1: Create app.py with code...
Step 2: Install dependencies...
Step 3: Run python app.py..." ++ [dquote] ++ T "

IF YOU WRITE INSTRUCTIONS INSTEAD OF FILES, YOU FAILED.

User: " ++ [dquote] ++ prompt ++ [dquote] ++ contextInfo ++ T "

RESPOND WITH FILES ONLY:".

Definition questionPrompt (prompt contextInfo : text) : text :=
  T "You are an expert coding assistant with full visibility into the user's project.

CONTEXT AWARENESS:
- You can see all files in the project
- You can see the currently open file
- You MUST examine this context to answer questions
- NEVER give generic answers - be specific to their code

WHEN ASKED " ++ Q "HOW DO I RUN THIS" ++ T ":
1. Look at the files in the project
2. Identify the language (Python=.py, Go=.go, Node=.js, Java=.java, etc.)
3. Give SPECIFIC run command based on what you see:
   - Python: " ++ Q "Run: python app.py" ++ T " or " ++
  Q "python main.py" ++ T "
   - Go: " ++ Q "Run: go run main.go" ++ T " or " ++ Q "go run ." ++ T "
   - Node: " ++ Q "Run: node server.js" ++ T " or " ++ Q "npm start" ++
  T "
   - Java: " ++ Q "Run: javac Main.java && java Main" ++ T "
4. If you see requirements.txt or go.mod, mention installing dependencies first

WHEN ASKED ABOUT THE PROJECT:
- Look at the file list and describe what you see
- Identify the project type from file extensions
- Mention key files like main.py, package.json, go.mod, etc.

NEVER SAY:
- " ++ Q "I need more information" ++ T "
- " ++ Q "Could you tell me what language..." ++ T "
- " ++ Q "Please provide the location..." ++ T "

ALWAYS:
- Look at the context provided
- Give specific, actionable answers
- Reference actual filenames you see

User question: " ++ [dquote] ++ prompt ++ [dquote] ++ contextInfo.

Definition files_message (explanation : text) (files : list edit) : text :=
  let filesList :=
    join (T ", ") (map (fun f => [backtick] ++ filepath f ++ [backtick]) files) in
  if truthy explanation then
    explanation ++ T "

✅ **Created/Updated " ++ show_nat (length files) ++ T " file(s):** " ++ filesList
  else
    T "✅ **Created/Updated " ++ show_nat (length files) ++ T " file(s):** " ++
    filesList ++ T "

The files have been written to your project.".

(** [filepath.split('.').pop()]: what follows the last dot. *)
Fixpoint after_last_dot (s : text) : text :=
  match s with
  | [] => []
  | c :: s' =>
      if is_char "." c && negb (includes (T ".") s') then s'
      else if includes (T ".") s' then after_last_dot s' else s
  end.

(** The [catch] of the handler. *)
Definition failure (message : text) : response :=
  if includes (T "HF_TOKEN") message
  then Failed (T "HF_TOKEN missing. Set env variable.")
  else Failed (T "AI error: " ++ or_else message (T "Unknown error")).

Section Handler.
Context {W : Type} `{Services W}.
(** [generateFileTemplate(filepath, ext, prompt)]: the starter templates of
    the source, one per file extension, a pure function of its arguments. *)
Variable generateFileTemplate : text -> text -> text -> text.
Local Open Scope eff_scope.

(** The handler after the intents that need no completion: the context is
    gathered, the provider is called and its answer is parsed. *)
Definition complete (prompt code_ filename project image : text) : M W response :=
  let lowerPrompt := toLowerCase prompt in
  let fileOp := isFileOperation lowerPrompt in
  let* h := loadChatHistory project in
  match h with
  | Throws message => ret (failure message)
  | Ok chatHistory =>
      let contextInfo := history_context chatHistory in
      let* contextInfo :=
        (if truthy project then
           let* fs := getAllProjectFiles project in
           match fs with
           | Ok projectFiles =>
               ret (contextInfo ++ project_context project projectFiles)
           | Throws _ => ret contextInfo
           end
         else ret contextInfo) in
      let contextInfo := contextInfo ++ open_file_context code_ filename in
      let systemPrompt :=
        if fileOp then fileOperationPrompt prompt contextInfo
        else questionPrompt prompt contextInfo in
      if truthy image then
        (* [isCreateRequest] is not declared anywhere: reading it throws *)
        ret (failure (T "isCreateRequest is not defined"))
      else
        let* a := callHF systemPrompt [] in
        match a with
        | Throws message => ret (failure message)
        | Ok aiResponse =>
            let explanation := explanation_of aiResponse in
            let* files := lift (chat_edits fileOp aiResponse) in
            match files with
            | f :: rest =>
                let responseText := files_message explanation files in
                let* s := saveChatHistory project prompt responseText in
                match s with
                | Throws message => ret (failure message)
                | Ok _ =>
                    match rest with
                    | [] => ret (Reply responseText
                                   (Some (WriteFile (filepath f) (content f))))
                    | _ :: _ => ret (Reply responseText
                                       (Some (WriteMultipleFiles files)))
                    end
                end
            | [] =>
                match match_ true simpleCreateRegex prompt with
                | Some x =>
                    if negb (includes fence aiResponse) then
                      let filepath := group 1 x in
                      let ext := toLowerCase (after_last_dot filepath) in
                      let content := generateFileTemplate filepath ext prompt in
                      let templateResponse :=
                        T "✅ Created `" ++ filepath ++
                        T "` with a starter template. The file is now open in the editor." in
                      let* s := saveChatHistory project prompt templateResponse in
                      match s with
                      | Throws message => ret (failure message)
                      | Ok _ => ret (Reply templateResponse
                                       (Some (WriteFile filepath content)))
                      end
                    else
                      let* s := saveChatHistory project prompt aiResponse in
                      match s with
                      | Throws message => ret (failure message)
                      | Ok _ => ret (Reply aiResponse None)
                      end
                | None =>
                    let* s := saveChatHistory project prompt aiResponse in
                    match s with
                    | Throws message => ret (failure message)
                    | Ok _ => ret (Reply aiResponse None)
                    end
                end
            end
        end
  end.

Definition chat (prompt code_ filename project image : text) : M W response :=
  if negb (truthy prompt) then ret PromptRequired
  else
    let lowerPrompt := toLowerCase prompt in
    if needs_project prompt project
    then ret (Reply no_project_message None)
    else
      match match_ true deleteRegex prompt with
      | Some deleteMatch =>
          let filepath := group 1 deleteMatch in
          ret (Reply (T "🗑️ Deleted `" ++ filepath ++ T "`.")
                     (Some (DeleteFile filepath)))
      | None =>
          match match_ true readRegex prompt with
          | Some readMatch =>
              let filepath := group 1 readMatch in
              ret (Reply (T "📄 Reading `" ++ filepath ++ T "`...")
                         (Some (ReadFile filepath)))
          | None =>
              if isFixCommand lowerPrompt && truthy project then
                ret (Reply (T "🔧 Starting auto-fix mode. I will run your code, analyze errors, fix them, and retry until it works...")
                           (Some (StartAutoFix project)))
              else complete prompt code_ filename project image
          end
      end.

End Handler.

End Chat.

(** ** JavaScript [Map]

    The two registries of the terminal endpoints are [Map] objects: keys are
    unique, [set] on a key already present keeps its place, and iteration
    follows the order of insertion. *)

Module JsMap.

Abbreviation t V := (list (text * V)).

Definition empty {V} : t V := [].

Fixpoint get {V} (k : text) (m : t V) : option V :=
  match m with
  | [] => None
  | (k', v) :: m' => if bool_decide (k' = k) then Some v else get k m'
  end.

Definition has {V} (k : text) (m : t V) : bool :=
  match get k m with Some _ => true | None => false end.

Fixpoint set {V} (k : text) (v : V) (m : t V) : t V :=
  match m with
  | [] => [(k, v)]
  | (k', v') :: m' =>
      if bool_decide (k' = k) then (k, v) :: m' else (k', v') :: set k v m'
  end.

Fixpoint delete {V} (k : text) (m : t V) : t V :=
  match m with
  | [] => []
  | (k', v) :: m' =>
      if bool_decide (k' = k) then m' else (k', v) :: delete k m'
  end.

End JsMap.

(** ** Terminal endpoints: [/api/terminal/*] *)

Module Terminal.

(** A tracked child process: the handle kept in [runningProcesses]. *)
Record child := Child { pid : option nat }.

(** An entry of [previewServers]: [{ port, server }]. *)
Record preview := Preview { port : nat }.

(** The memory of the server process. *)
Record server := Server {
  previewServers : JsMap.t preview;
  runningProcesses : JsMap.t child
}.

Definition initial : server := Server JsMap.empty JsMap.empty.

Inductive response : Type :=
| Output (output : text) (error : bool)        (* { output } or { output, error: true } *)
| Background (output url : text)               (* { output, background: true, url } *)
| Status400 (error : text)
| Status500 (error : text)
| Outcome (success : bool) (message : text)    (* { success, message } *)
| KillFailed (error : text)                    (* { success: false, error } *)
| Processes (processes : list (option nat * text)).
                                               (* pid 'N/A' is [None] *)

(** [isServerCommand] *)
Definition isServerCommand (command : text) : bool :=
  includes (T "http.server") command || includes (T "serve") command ||
  (includes (T "run") command && includes (T "app.py") command).

(** [project || 'default'] *)
Definition key_of (project : text) : text := or_else project (T "default").

Definition server_message (port_ : text) (pid_ : nat) (output : text)
    (hasOutput : bool) : text :=
  T "✅ Server started successfully!

" ++ T "📡 Access your server at:
" ++ T "   • http://127.0.0.1:" ++ port_ ++ [nl] ++
  T "   • http://localhost:" ++ port_ ++ [nl; nl] ++
  T "🔄 Server is running with PID: " ++ show_nat pid_ ++ [nl] ++
  T "⚠️  Keep this terminal window open to keep the server running

" ++ (if hasOutput then T "Server output:
" ++ output else []).

(** [cmd] of a server command: [python] at the start becomes [py] when the
    command mentions python at all. *)
Definition server_cmd (command : text) : text :=
  if includes (T "python") command
  then replace_first false pythonRegex (T "py") command
  else command.

(** [cmd] of a regular command. *)
Definition regular_cmd (command : text) : text :=
  if startsWith (T "python ") command
  then replace_first false pythonRegex (T "py") command
  else command.

(** [portMatch ? portMatch[0] : '8000'] *)
Definition port_of (command : text) : text :=
  match match_ false portRegex command with
  | Some portMatch => whole command portMatch
  | None => T "8000"
  end.

Definition preview_unavailable : text :=
  T "⚠️ Preview server is not available with database storage. Deploy to Vercel to host your project.".

Definition no_preview_running : text :=
  T "No preview server running for this project".

Section Handlers.
Context {W : Type} `{Services W}.
Local Open Scope eff_scope.

(** [POST /api/terminal/run]; [command] is absent when the body has none,
    and reading [command.includes] then throws.  What [exec] throws is
    caught as well and answered with status 500. *)
Definition run (command : option text) (project : text) (sv : server)
    : M W (response * server) :=
  match command with
  | None =>
      ret (Status500 (T "Cannot read properties of undefined (reading 'includes')"), sv)
  | Some command =>
      if isServerCommand command then
        let cmd := server_cmd command in
        let port_ := port_of command in
        let* c := spawn_cmd cmd in
        match c with
        | Throws message => ret (Status500 message, sv)
        | Ok (Spawned (Some (S p')) output hasOutput) =>
            let p := S p' in
            ret (Background (server_message port_ p output hasOutput)
                            (T "http://localhost:" ++ port_),
                 Server (previewServers sv)
                        (JsMap.set (key_of project) (Child (Some p))
                                   (runningProcesses sv)))
        | Ok (Spawned _ output _) =>
            ret (Output (or_else output (T "Command failed to start")) true, sv)
        | Ok (SpawnError message) =>
            ret (Output (T "Error starting server: " ++ message) true, sv)
        end
      else
        let cmd := regular_cmd command in
        let* r := exec_cmd cmd in
        match r with
        | Throws message => ret (Status500 message, sv)
        | Ok r =>
            match error r with
            | Some message =>
                ret (Output (or_else (stderr r) (or_else (stdout r) message)) true,
                     sv)
            | None =>
                ret (Output (or_else (stdout r)
                               (or_else (stderr r)
                                        (T "Command executed successfully")))
                            false, sv)
            end
        end
  end.

(** The ['exit'] event of a child started by [run] for [project]. *)
Definition child_exit (project : text) (sv : server) : server :=
  Server (previewServers sv) (JsMap.delete (key_of project) (runningProcesses sv)).

(** [POST /api/terminal/host]: the code that started a preview server is
    commented out; what is left answers before it. *)
Definition host (project : text) (requestedPort : option nat) (sv : server)
    : M W (response * server) :=
  if negb (truthy project) then ret (Status400 (T "Project required"), sv)
  else
    ret (Outcome false preview_unavailable, sv).

(** [POST /api/terminal/stop] *)
Definition stop (project : text) (sv : server) : M W (response * server) :=
  if negb (truthy project) then ret (Status400 (T "Project required"), sv)
  else
    match JsMap.get project (previewServers sv) with
    | Some p =>
        let* _ := note (EServerClose (port p)) in
        ret (Outcome true (T "Preview server stopped (was on port " ++
                           show_nat (port p) ++ T ")"),
             Server (JsMap.delete project (previewServers sv))
                    (runningProcesses sv))
    | None =>
        ret (Outcome false no_preview_running, sv)
    end.

(** The loop of [kill] over [runningProcesses.entries()]: every child whose
    [pid] is the one asked for is killed and its entry deleted. *)
Fixpoint remove_tracked (p : nat) (entries : JsMap.t child)
    (tracked : JsMap.t child) : M W (JsMap.t child) :=
  match entries with
  | [] => ret tracked
  | (key, process) :: entries' =>
      if bool_decide (pid process = Some p) then
        let* _ := child_kill p in
        remove_tracked p entries' (JsMap.delete key tracked)
      else remove_tracked p entries' tracked
  end.

(** [POST /api/terminal/kill]; the client sends [pid] as a number, which is
    falsy when absent or zero. *)
Definition kill (pid_ : option nat) (sv : server) : M W (response * server) :=
  match pid_ with
  | None | Some O => ret (Status400 (T "PID required"), sv)
  | Some p =>
      let* r := exec_cmd (T "taskkill /F /PID " ++ show_nat p) in
      match r with
      | Throws message => ret (Status500 message, sv)
      | Ok r =>
          match error r with
          | Some message =>
              ret (KillFailed (T "Could not kill process: " ++
                               or_else (stderr r) message), sv)
          | None =>
              let* tracked :=
                remove_tracked p (runningProcesses sv) (runningProcesses sv) in
              ret (Outcome true (T "Process " ++ show_nat p ++ T " killed"),
                   Server (previewServers sv) tracked)
          end
      end
  end.

(** [GET /api/terminal/processes] *)
Definition processes (sv : server) : response :=
  Processes
    (omap (fun e => match pid (e.2) with
                    | Some p => if 0 <? p
                                then Some (Some p, T "Background process (" ++ e.1 ++ T ")")
                                else None
                    | None => None
                    end) (runningProcesses sv)
     ++ map (fun e => (None, T "Preview server: " ++ e.1 ++ T " (port " ++
                             show_nat (port e.2) ++ T ")"))
            (previewServers sv)).

(** A request to the terminal endpoints. *)
Inductive request : Type :=
| RunReq (command : option text) (project : text)
| HostReq (project : text) (requestedPort : option nat)
| StopReq (project : text)
| KillReq (pid_ : option nat)
| ProcessesReq.

Definition handle (q : request) (sv : server) : M W (response * server) :=
  match q with
  | RunReq command project => run command project sv
  | HostReq project requestedPort => host project requestedPort sv
  | StopReq project => stop project sv
  | KillReq pid_ => kill pid_ sv
  | ProcessesReq => ret (processes sv, sv)
  end.

(** The states of the server's memory that requests and exit events can
    lead to, in any order and whatever the world answers. *)
Inductive reachable : server -> Prop :=
| reach_initial : reachable initial
| reach_request q sv st r sv' st' :
    reachable sv -> handle q sv st = Some ((r, sv'), st') -> reachable sv'
| reach_exit project sv :
    reachable sv -> reachable (child_exit project sv).

End Handlers.

End Terminal.

(** ** Starter templates: [generateFileTemplate]

    The capital of a character is given within the range of the texts; the
    capitals of U+00B5 and U+00FF lie outside it and these two characters
    stand for themselves.  The handler passes paths made of letters,
    digits and the characters [_], [-], [/] and [.] only. *)

Module Templates.

(** [s.split(a).pop()] for a separator of one character: what follows the
    last [a], the whole text when there is none. *)
Fixpoint after_last (a : ascii) (s : text) : text :=
  match s with
  | [] => []
  | c :: s' =>
      if existsb (is_char a) s' then after_last a s'
      else if is_char a c then s' else s
  end.

(** [[-_]] *)
Definition is_sep (c : ascii) : bool := is_char "-" c || is_char "_" c.

(** [/\.\w+$/] *)
Definition extRegex : re := Seq [Lit "."; plus is_word; Eos].

(** [/[-_]/g] *)
Definition sepRegex : re := Cls is_sep.

(** [s.split(/[-_]/)]: the pieces between the separators, the empty ones
    included. *)
Fixpoint split_on (p : ascii → bool) (s : text) : list text :=
  match s with
  | [] => [[]]
  | c :: s' =>
      if p c then [] :: split_on p s'
      else match split_on p s' with
           | w :: ws => (c :: w) :: ws
           | [] => [[c]]
           end
  end.

(** [toUpperCase] of one character. *)
Definition upper_char (c : ascii) : text :=
  if is_lower c || (in_range 224 254 c && negb (code c =? 247))
  then [ch (code c - 32)]
  else if code c =? 223 then T "SS" else [c].

(** [w.charAt(0).toUpperCase() + w.slice(1)] *)
Definition capitalize (w : text) : text :=
  match w with
  | [] => []
  | c :: w' => upper_char c ++ w'
  end.

(** [filepath.split('/').pop().replace(/\.\w+$/, '')] *)
Definition file_stem (filepath : text) : text :=
  replace_first false extRegex [] (after_last "/" filepath).

(** [filename.split(/[-_]/).map(...).join(' ')] *)
Definition title_of (filename : text) : text :=
  join (T " ") (map capitalize (split_on is_sep filename)).

(** [filename.charAt(0).toUpperCase() + filename.slice(1).replace(/[-_]/g, '')] *)
Definition class_of (filename : text) : text :=
  match filename with
  | [] => []
  | c :: rest => upper_char c ++ replace_all false sepRegex [] rest
  end.

Definition html_template (titleCase : text) : text :=
  T "<!DOCTYPE html>
<html lang=" ++
  [dquote] ++
  T "en" ++
  [dquote] ++
  T ">
<head>
    <meta charset=" ++
  [dquote] ++
  T "UTF-8" ++
  [dquote] ++
  T ">
    <meta name=" ++
  [dquote] ++
  T "viewport" ++
  [dquote] ++
  T " content=" ++
  [dquote] ++
  T "width=device-width, initial-scale=1.0" ++
  [dquote] ++
  T ">
    <title>" ++
  titleCase ++
  T "</title>
    <style>
        * {
            margin: 0;
            padding: 0;
            box-sizing: border-box;
        }
        
        body {
            font-family: -apple-system, BlinkMacSystemFont, 'Segoe UI', Roboto, Oxygen, Ubuntu, sans-serif;
            line-height: 1.6;
            color: #333;
        }
        
        .container {
            max-width: 1200px;
            margin: 0 auto;
            padding: 20px;
        }
        
        header {
            background: #007acc;
            color: white;
            padding: 20px 0;
            text-align: center;
        }
        
        main {
            padding: 40px 20px;
        }
        
        h1 {
            margin-bottom: 20px;
        }
    </style>
</head>
<body>
    <header>
        <div class=" ++
  [dquote] ++
  T "container" ++
  [dquote] ++
  T ">
            <h1>" ++
  titleCase ++
  T "</h1>
        </div>
    </header>
    
    <main>
        <div class=" ++
  [dquote] ++
  T "container" ++
  [dquote] ++
  T ">
            <p>Welcome to " ++
  titleCase ++
  T "!</p>
        </div>
    </main>
    
    <script>
        // Your JavaScript code here
        console.log('Page loaded!');
    </script>
</body>
</html>".

Definition js_template (titleCase : text) : text :=
  T "/**
 * " ++
  titleCase ++
  T "
 * Created with NOS Code AI Assistant
 */

// Your code here
console.log('" ++
  titleCase ++
  T " loaded!');
".

Definition ts_template (titleCase : text) : text :=
  T "/**
 * " ++
  titleCase ++
  T "
 * Created with NOS Code AI Assistant
 */

// Your TypeScript code here
const message: string = '" ++
  titleCase ++
  T " loaded!';
console.log(message);
".

Definition css_template (titleCase : text) : text :=
  T "/**
 * " ++
  titleCase ++
  T " Styles
 */

* {
    margin: 0;
    padding: 0;
    box-sizing: border-box;
}

body {
    font-family: -apple-system, BlinkMacSystemFont, 'Segoe UI', Roboto, sans-serif;
    line-height: 1.6;
    color: #333;
    background: #f5f5f5;
}

.container {
    max-width: 1200px;
    margin: 0 auto;
    padding: 20px;
}
".

Definition py_template (filename titleCase : text) : text :=
  [dquote; dquote; dquote] ++
  T "
" ++
  titleCase ++
  T "
Created with NOS Code AI Assistant
" ++
  [dquote; dquote; dquote] ++
  T "


def main():
    " ++
  [dquote; dquote; dquote] ++
  T "Main function" ++
  [dquote; dquote; dquote] ++
  T "
    print(" ++
  [dquote] ++
  T "Hello from " ++
  filename ++
  T "!" ++
  [dquote] ++
  T ")


if __name__ == " ++
  [dquote] ++
  T "__main__" ++
  [dquote] ++
  T ":
    main()
".

Definition java_template (titleCase className : text) : text :=
  T "/**
 * " ++
  titleCase ++
  T "
 * Created with NOS Code AI Assistant
 */
public class " ++
  className ++
  T " {
    
    public static void main(String[] args) {
        System.out.println(" ++
  [dquote] ++
  T "Hello from " ++
  className ++
  T "!" ++
  [dquote] ++
  T ");
    }
}
".

Definition json_template (filename titleCase : text) : text :=
  T "{
    " ++
  [dquote] ++
  T "name" ++
  [dquote] ++
  T ": " ++
  [dquote] ++
  filename ++
  [dquote] ++
  T ",
    " ++
  [dquote] ++
  T "version" ++
  [dquote] ++
  T ": " ++
  [dquote] ++
  T "1.0.0" ++
  [dquote] ++
  T ",
    " ++
  [dquote] ++
  T "description" ++
  [dquote] ++
  T ": " ++
  [dquote] ++
  titleCase ++
  [dquote] ++
  T "
}".

Definition md_template (titleCase : text) : text :=
  T "# " ++
  titleCase ++
  T "

Created with NOS Code AI Assistant.

## Getting Started

Add your content here.

## Features

- Feature 1
- Feature 2
- Feature 3
".

Definition yml_template (filename titleCase : text) : text :=
  T "# " ++
  titleCase ++
  T " Configuration
name: " ++
  filename ++
  T "
version: 1.0.0
".

Definition xml_template (filename titleCase : text) : text :=
  T "<?xml version=" ++
  [dquote] ++
  T "1.0" ++
  [dquote] ++
  T " encoding=" ++
  [dquote] ++
  T "UTF-8" ++
  [dquote] ++
  T "?>
<!-- " ++
  titleCase ++
  T " -->
<root>
    <name>" ++
  filename ++
  T "</name>
</root>
".

Definition plain_template (titleCase : text) : text :=
  T "// " ++
  titleCase ++
  T "
// Created with NOS Code AI Assistant
".

Definition generateFileTemplate (filepath ext prompt : text) : text :=
  let filename := file_stem filepath in
  let titleCase := title_of filename in
  let is_ext (e : string) := bool_decide (ext = T e) in
  if is_ext "html" || is_ext "htm" then html_template titleCase
  else if is_ext "js" || is_ext "jsx" then js_template titleCase
  else if is_ext "ts" || is_ext "tsx" then ts_template titleCase
  else if is_ext "css" || is_ext "scss" then css_template titleCase
  else if is_ext "py" then py_template filename titleCase
  else if is_ext "java" then java_template titleCase (class_of filename)
  else if is_ext "json" then json_template filename titleCase
  else if is_ext "md" then md_template titleCase
  else if is_ext "yml" || is_ext "yaml" then yml_template filename titleCase
  else if is_ext "xml" then xml_template filename titleCase
  else plain_template titleCase.

End Templates.

(** ** The completion provider: [callHF]

    The function sends one request to the provider's chat-completions
    endpoint, to the vision model when [extra.image] is given and to the
    text model otherwise, and reads the HTTP response: [ok], [status], the
    body as text and the body as JSON.  Of the JSON it reads
    [choices[0].message.content] and [choices[0].text], which are strings
    when they are present.  The result depends on the response only. *)

Module Provider.

(** [choices[0]] of a completion. *)
Record choice := Choice {
  message_content : option text;      (* message?.content *)
  choice_text : option text           (* text *)
}.

(** The response of [fetch], with the body read as JSON ([None] when
    [choices[0]] is absent), or the rejection of [fetch]. *)
Inductive fetched : Type :=
| Response (ok : bool) (status : nat) (body : text) (data : outcome (option choice))
| Rejected (message : text).

Inductive asked : Type := VisionModel | TextModel.

(** [a?.trim() || b || 'No response.'] *)
Definition answer_of (c : option choice) : text :=
  let content := match c with
                 | Some c => default [] (trim <$> message_content c)
                 | None => []
                 end in
  let text_ := match c with
               | Some c => default [] (choice_text c)
               | None => []
               end in
  or_else content (or_else text_ (T "No response.")).

(** What the function does with the response. *)
Definition read_response (label : text) (r : fetched) : outcome text :=
  match r with
  | Rejected message => Throws message
  | Response ok status body data =>
      if negb ok then Throws (label ++ show_nat status ++ T ": " ++ body)
      else match data with
           | Throws message => Throws message
           | Ok c => Ok (answer_of c)
           end
  end.

(** [callHF(prompt, { image })] with the token of the environment and the
    network as a function of the model asked: the model asked, if any
    request is made, and the result. *)
Definition callHF (HF_TOKEN : text) (fetch : asked → fetched) (image : text)
    : option asked * outcome text :=
  if negb (truthy HF_TOKEN) then (None, Throws (T "HF_TOKEN missing"))
  else if truthy image then
    (Some VisionModel, read_response (T "HF vision error ") (fetch VisionModel))
  else
    (Some TextModel, read_response (T "HF error ") (fetch TextModel)).

End Provider.

(** ** The action protocol, as written

    The vocabulary in which the properties of the parser are stated: a
    [FILE:] block as the prompts ask for it, a text made of such blocks,
    and the edit a block stands for. *)

Module Protocol.

(** The marker [FILE:], white space, the path up to the end of its line;
    white space before the opening fence; the fence with its language word,
    white space and the end of its line; the body; the closing fence. *)
Record block := Block {
  b_indent : text;
  b_path : text;
  b_sep : text;
  b_lang : text;
  b_pad : text;
  b_body : text
}.

Definition render (b : block) : text :=
  T "FILE:" ++ b_indent b ++ b_path b ++ [nl] ++ b_sep b ++
  fence ++ b_lang b ++ b_pad b ++ [nl] ++ b_body b ++ fence.

Definition starts_nonspace (s : text) : bool :=
  match s with
  | c :: _ => negb (is_space c)
  | [] => false
  end.

(** The fence that follows [body] is the first one: the body holds no fence
    and ends with no backtick that would make one early. *)
Definition fence_closed (body : text) : bool :=
  bool_decide (indexOf fence (body ++ fence) = Some (length body)).

(** A well-formed block: white space only where white space is meant, a
    path on the marker's line that starts with a visible character and
    holds no backtick, a word after the opening fence, and a body that the
    closing fence ends. *)
Definition well_formed (b : block) : bool :=
  forallb is_space (b_indent b) &&
  starts_nonspace (b_path b) && forallb not_nl_backtick (b_path b) &&
  forallb is_space (b_sep b) &&
  forallb is_word (b_lang b) &&
  forallb is_space (b_pad b) &&
  fence_closed (b_body b).

(** The text reads [FILE:] here, in any case of the letters. *)
Definition is_marker (s : text) : bool := lits_match true (T "FILE:") s.

(** A stretch of text before a block that holds no marker of its own. *)
Definition marker_free (gap : text) : bool :=
  bool_decide (find_first is_marker (gap ++ T "FILE:") = Some (length gap)).

(** A text of blocks, each after a stretch of other text, and a tail. *)
Definition document (items : list (text * block)) (tail : text) : text :=
  foldr (λ item rest, item.1 ++ render item.2 ++ rest) tail items.

(** Surrounding quote characters stripped: one at the start, then one at
    the end of what is left. *)
Definition drop_last_quote (s : text) : text :=
  match last s with
  | Some c => if is_quote c then take (length s - 1) s else s
  | None => []
  end.

Definition unquote (s : text) : text :=
  match s with
  | c :: s' => if is_quote c then drop_last_quote s' else drop_last_quote s
  | [] => []
  end.

(** The edit a block stands for, if its path and its content are not
    empty once stripped. *)
Definition path_of (b : block) : text := unquote (trim (b_path b)).
Definition content_of (b : block) : text := trim (b_body b).

Definition edit_of_block (b : block) : option edit :=
  if truthy (path_of b) && truthy (content_of b)
  then Some (Edit (path_of b) (content_of b)) else None.

(** A block and the stretch before it, both as they should be. *)
Definition item_ok (item : text * block) : bool :=
  marker_free item.1 && well_formed item.2.

(** A [FILE:] block begins the text: the pattern of the grammar matches at
    its start. *)
Definition begins_block (s : text) : bool :=
  match match_at true fileRegex 0 s with
  | Some _ => true
  | None => false
  end.

(** A stretch of text in which no block begins when [rest] follows it. *)
Fixpoint quiet (gap rest : text) : bool :=
  match gap with
  | [] => true
  | _ :: gap' => negb (begins_block (gap ++ rest)) && quiet gap' rest
  end.

(** A text of well-formed blocks and nothing else that is one: no block
    begins in the stretch before a block, nor in the tail. *)
Fixpoint well_formed_document (items : list (text * block)) (tail : text)
    : bool :=
  match items with
  | [] => quiet tail []
  | item :: items' =>
      quiet item.1 (render item.2 ++ document items' tail)
      && well_formed item.2
      && well_formed_document items' tail
  end.

(** The block is not blank: its stripped path and its trimmed content are
    not empty. *)
Definition not_blank (b : block) : bool :=
  truthy (path_of b) && truthy (content_of b).

(** An edit a directive may hold: a path and a content that are not empty,
    the content being trimmed. *)
Definition sound_edit (e : edit) : Prop :=
  filepath e ≠ [] ∧ content e ≠ [] ∧ trim (content e) = content e.

End Protocol.

(** ** Measures and parts used in the proofs *)

Module Progress.

(** The least number of characters a match of the pattern takes. *)
Fixpoint min_len (r : re) : nat :=
  match r with
  | Lit _ | Cls _ => 1
  | Bos | Eos | Eps | Ahead _ => 0
  | Cat r1 r2 => min_len r1 + min_len r2
  | Alt r1 r2 => min (min_len r1) (min_len r2)
  | Rep _ least _ => least
  | Grp _ r => min_len r
  end.

(** The pattern holds no [^]: whether it matches a text does not depend on
    the position of the text. *)
Fixpoint no_bos (r : re) : bool :=
  match r with
  | Bos => false
  | Cat r1 r2 | Alt r1 r2 => no_bos r1 && no_bos r2
  | Grp _ r | Ahead r => no_bos r
  | _ => true
  end.

(** What a continuation was called with when a match succeeded: the text
    [pre] taken by the pattern, of at least [n] characters. *)
Definition reached {R} (k : cont R) (pos : nat) (s : text) (n : nat) (x : R) : Prop :=
  ∃ pre s' c', s = pre ++ s' ∧ n ≤ length pre ∧ k (pos + length pre) s' c' = Some x.

End Progress.

(** The pattern of the [FILE:] grammar, cut where the proofs follow it. *)

Module Parts.

(** The pattern, from each of its parts to its end. *)
Definition r_body : re := Cat (Grp 2 (lazy_star any_char)) (Str fence).
Definition r_open : re := Cat (star is_space) (Cat (Lit nl) r_body).
Definition r_lang : re := Cat (star is_word) r_open.
Definition r_fence : re := Cat (Str fence) r_lang.
Definition r_line : re :=
  Cat (star is_space) (Cat (Lit nl) (Cat (star is_space) r_fence)).
Definition r_path : re := Cat (Grp 1 (plus not_nl_backtick)) r_line.
Definition r_file : re := Cat (Str (T "FILE:")) (Cat (star is_space) r_path).

(** Where the blank lines at the start of a body end: after the last
    newline of its leading white space. *)
Fixpoint cut (lead : text) : nat :=
  match lead with
  | [] => 0
  | _ :: lead' => if existsb (is_char nl) lead then S (cut lead') else 0
  end.

End Parts.

(** ** Repair prompts and writes, as the properties speak of them *)

Module Prompts.
Import AutoFix.

(** One section of a repair prompt, for a file name and the part of its
    content that is embedded. *)
Definition embedded_section (e : text * text) : text :=
  T "FILE: " ++ e.1 ++ [nl] ++ fence ++ [nl] ++ e.2 ++ [nl] ++ fence ++ [nl].

(** A repair prompt for [command] that embeds at most [files] files, each
    once and each one of [names], and at most [chars] characters of each. *)
Definition bounded_prompt (names : list text) (files chars : nat)
    (command prompt : text) : Prop :=
  ∃ (sections : list (text * text)) (errorOutput : text),
    prompt = prompt_frame (join [nl] (map embedded_section sections))
                          command errorOutput
    ∧ length sections ≤ files
    ∧ Forall (λ e, length e.2 ≤ chars) sections
    ∧ NoDup sections.*1
    ∧ Forall (λ e, e.1 ∈ names) sections.

(** A write of a file with a path and a content that are not empty; any
    other call. *)
Definition sound_write (e : event) : Prop :=
  match e with
  | EWriteFile _ filepath content => filepath ≠ [] ∧ content ≠ []
  | _ => True
  end.

End Prompts.

(** ** Instructions, as the properties speak of them *)

Module Phrases.

(** What may follow a path in an instruction: nothing, white space or a
    quote. *)
Definition ends_path (rest : text) : bool :=
  match rest with
  | [] => true
  | y :: _ => is_space y || is_quote y
  end.

Definition dot : ascii := "."%char.

End Phrases.

(** ** A scripted world

    A world for the examples: the project's files with their contents, what
    the next commands will report (or [exec] throw) and the answers the
    provider will give next. *)

Module Scripted.

Record world := World {
  files : list (text * text);
  execs : list (outcome exec_result);
  answers : list (outcome text)
}.

Fixpoint lookup_file (file : text) (fs : list (text * text)) : option text :=
  match fs with
  | [] => None
  | (k, v) :: fs' => if bool_decide (k = file) then Some v else lookup_file file fs'
  end.

#[export] Instance services : Services world := {|
  sys_exec _ w :=
    match execs w with
    | r :: rs => (r, World (files w) rs (answers w))
    | [] => (Ok (ExecResult None [] []), w)
    end;
  db_getAllProjectFiles _ w := (Ok (map fst (files w)), w);
  db_readFile _ file w :=
    (match lookup_file file (files w) with
     | Some content => Ok content
     | None => Throws (T "File not found")
     end, w);
  db_writeFile _ filepath content w :=
    (Ok tt, World (JsObject.set filepath content (files w)) (execs w) (answers w));
  db_loadChatHistory _ w := (Ok [], w);
  db_saveChatHistory _ _ _ w := (Ok tt, w);
  hf_call _ _ w :=
    match answers w with
    | a :: rest => (a, World (files w) (execs w) rest)
    | [] => (Throws (T "HF error 503: "), w)
    end;
  sys_spawn _ w := (Ok (Spawned (Some 4242) [] false), w);
  sys_child_kill _ w := (tt, w)
|}.

Definition start (w : world) : state world := State w [].

End Scripted.

(** ** Scenarios

    The worlds, requests and texts of the examples. *)

Module Scenarios.
Import Protocol Scripted.

(** A project of notes only: no rule finds a run command. *)
Definition notes : world :=
  World [(T "README.md", T "# notes")] [] [].

(** A Python project whose program runs. *)
Definition healthy : world :=
  World [(T "app.py", T "print(1)"); (T "requirements.txt", T "flask")]
        [Ok (ExecResult None (T "1") [])] [].

(** A Python project whose program fails, and a provider that answers
    with prose only. *)
Definition hopeless : world :=
  World [(T "app.py", T "print(")]
        [Ok (ExecResult (Some (T "Command failed: py app.py")) []
                        (T "SyntaxError"))]
        [Ok (T "I am not sure what is wrong here.")].

Definition two_blocks : list (text * block) :=
  [ (T "EXPLANATION:
Added the app and a note for the profile: page.

", Block (T " ") (T "'src/app.py'  ") [] (T "python") [] (T "
print(1)
"));
    (T "

", Block (T " ") (T "notes/todo.txt") (T "  ") [] [ch 13]
         (T "buy `milk`
")) ].

Definition blank_block : list (text * block) :=
  [ ([], Block (T " ") (T "empty.txt") [] [] [] [nl]) ].

Definition tracked : Terminal.server :=
  Terminal.Server [] [(T "demo", Terminal.Child (Some 4242))].

Definition taskkill_fails : world :=
  World [] [Ok (ExecResult (Some (T "Command failed: taskkill /F /PID 4242")) []
                           (T "ERROR: The process 4242 not found."))] [].

Definition build_fails : world :=
  World [] [Ok (ExecResult (Some (T "Command failed: node build.js"))
                           (T "compiled 3 of 4 files")
                           (T "SyntaxError: unexpected token"))] [].

Definition no_template : text → text → text → text := λ _ _ _, [].

(** A run command that holds a NUL character, and the world in which
    [exec] refuses it. *)
Definition refused_command : text := T "py app.py" ++ [ch 0].

Definition refused_message : text :=
  T "The argument 'command' must be a string without null bytes.".

Definition refused : world :=
  World [(T "app.py", T "print(1)")] [Throws refused_message] [].

(** Fifty files of ten thousand characters each, a run that fails and a
    provider that is down. *)
Definition large_project : world :=
  World (map (λ i, (T "src/module" ++ show_nat i ++ T ".py",
                    replicate (100 * 100) "x"%char))
             (seq 10 50))
        [Ok (ExecResult (Some (T "Command failed: py src/module10.py")) []
                        (T "Traceback (most recent call last)"))]
        [Throws (T "HF error 503: ")].

(** The sizes, in characters, of the prompts an invocation submitted. *)
Definition prompt_sizes (r : option (AutoFix.response * state world)) : list N :=
  match r with
  | Some (_, st') => map (λ p, N.of_nat (length p)) (prompts (log st'))
  | None => []
  end.

End Scenarios.

(** ** More vocabulary

    The terms in which the further properties of the handlers are
    stated. *)

Module Histories.
Import AutoFix.

(** The entries of [k] complete rounds from attempt [a] on: an error
    detected and a fix applied, round after round. *)
Fixpoint rounds (a k : nat) (h : list fix_entry) : Prop :=
  match k with
  | O => h = []
  | S k' =>
      ∃ error explanation files rest,
        h = ErrorDetected a error :: AppliedFix a explanation files :: rest
        ∧ explanation ≠ [] ∧ files ≠ [] ∧ rounds (S a) k' rest
  end.

(** How the loop can end after [n] complete rounds, entered at attempt [a]
    with [r] rounds allowed and [fixes] recorded before: the response, the
    number of runs and the number of calls to the provider.  The next run
    succeeds; the answer gives no fix; the provider fails; the rounds are
    used up; or [exec] throws on the next run. *)
Inductive ending (a r n : nat) (fixes h : list fix_entry) : response → nat → nat → Prop :=
| ends_success output :
    n < r →
    ending a r n fixes h
      (Report true (success_message (a + n))
              (fixes ++ h ++ [Success (a + n) output]) (Some output))
      (S n) n
| ends_no_fix error aiResponse :
    n < r → length aiResponse ≤ 500 →
    ending a r n fixes h
      (Report false exhausted_message
              (fixes ++ h ++ [ErrorDetected (a + n) error;
                              NoFixFound (a + n) aiResponse]) None)
      (S n) (S n)
| ends_provider_failure error message :
    n < r →
    ending a r n fixes h
      (ServerError message (fixes ++ h ++ [ErrorDetected (a + n) error]))
      (S n) (S n)
| ends_exhausted :
    n = r →
    ending a r n fixes h (Report false exhausted_message (fixes ++ h) None) n n
| ends_run_refused message :
    n < r →
    ending a r n fixes h (ServerError message (fixes ++ h)) (S n) n.

(** The entries that record a run, and those that record a call to the
    provider. *)
Definition records_run (f : fix_entry) : bool :=
  match f with Success _ _ | ErrorDetected _ _ => true | _ => false end.

Definition records_call (f : fix_entry) : bool :=
  match f with ErrorDetected _ _ => true | _ => false end.

(** The response has status 500. *)
Definition answered_500 (r : response) : bool :=
  match r with ServerError _ _ => true | _ => false end.

Definition count_if {A} (p : A → bool) (l : list A) : nat :=
  length (List.filter p l).

(** Some rule for choosing a run command applies to the file names. *)
Definition runnable (projectFiles : list text) : bool :=
  existsb (endsWith (T ".py")) projectFiles
  || existsb (endsWith (T ".go")) projectFiles
  || existsb (λ f, endsWith (T ".js") f && includes (T "server") f) projectFiles
  || existsb (endsWith (T ".java")) projectFiles.

(** The write of an edit, as the log records it. *)
Definition write_of (project : text) (e : edit) : event :=
  EWriteFile project (filepath e) (content e).

End Histories.

Module Registry.
Import Terminal.

(** A child with a process id, which is never zero. *)
Definition has_pid (c : child) : bool :=
  match pid c with Some (S _) => true | _ => false end.

(** The registry of children as the handlers keep it: one entry for a key,
    every child with its process id. *)
Definition tracked_ok (m : JsMap.t child) : Prop :=
  NoDup m.*1 ∧ Forall (λ e, has_pid e.2 = true) m.

(** The row of a tracked child in the list of processes. *)
Definition row (e : text * child) : option nat * text :=
  (pid e.2, T "Background process (" ++ e.1 ++ T ")").

(** The child is not the process [p]. *)
Definition other_than (p : nat) (e : text * child) : bool :=
  negb (bool_decide (pid e.2 = Some p)).

(** The children of the registry that are the process [p]. *)
Definition kills_of (p : nat) (m : JsMap.t child) : list event :=
  map (λ _, EChildKill p) (List.filter (λ e, negb (other_than p e)) m).

End Registry.

Module Commands.

(** A text that the port pattern takes whole: four or five digits. *)
Definition is_port (s : text) : bool :=
  forallb is_digit s && ((length s =? 4) || (length s =? 5)).

(** The text does not end with a digit. *)
Definition ends_without_digit (s : text) : bool :=
  match last s with Some c => negb (is_digit c) | None => true end.

End Commands.

Module Dialogue.
Import Chat.

(** The calls the chat handler can make, in the order it makes them, for a
    provider prompt [p] and a saved reply [response]. *)
Definition chat_calls (project prompt p response : text) : list event :=
  [ELoadChatHistory project; EGetAllProjectFiles project; ECallHF p [];
   ESaveChatHistory project prompt response].

(** The text a response carries. *)
Definition reply_text (r : response) : option text :=
  match r with
  | Reply response _ => Some response
  | _ => None
  end.

Definition is_save (e : event) : bool :=
  match e with ESaveChatHistory _ _ _ => true | _ => false end.

(** The number of writes to the chat history. *)
Definition saves (l : list event) : nat := length (List.filter is_save l).


End Dialogue.

Module CallRules.
Import AutoFix.

(** A call the auto-repair handler may make for [project] once it has
    listed the files: running [command], reading one of [names], calling
    the provider without an image, or writing a file with a path and a
    content.  Listing the files again is not one of them. *)
Definition repair_call (project command : text) (names : list text) (e : event)
    : Prop :=
  match e with
  | EExec c => c = command
  | EReadFile p file => p = project ∧ file ∈ names
  | ECallHF _ image => image = []
  | EWriteFile p filepath content => p = project ∧ filepath ≠ [] ∧ content ≠ []
  | _ => False
  end.

(** Matches found one after the other from position [from] on, none empty,
    none overlapping the one before. *)
Fixpoint in_order (from : nat) (n : nat) (l : list result) : Prop :=
  match l with
  | [] => True
  | x :: l' =>
      from ≤ m_start x ∧ m_start x < m_end x ∧ m_end x ≤ n
      ∧ in_order (m_end x) n l'
  end.

End CallRules.

Module Language.

(** The texts a pattern can take, read off its form; an assertion takes
    nothing. *)
Fixpoint den (ci : bool) (r : re) (pre : text) : Prop :=
  match r with
  | Lit a => ∃ y, pre = [y] ∧ lit_eq ci a y = true
  | Cls p => ∃ y, pre = [y] ∧ p y = true
  | Bos | Eos | Eps | Ahead _ => pre = []
  | Cat r1 r2 => ∃ p1 p2, pre = p1 ++ p2 ∧ den ci r1 p1 ∧ den ci r2 p2
  | Alt r1 r2 => den ci r1 pre ∨ den ci r2 pre
  | Rep _ least p => least ≤ length pre ∧ forallb p pre = true
  | Grp _ r => den ci r pre
  end.

(** The capturing groups of a pattern, each with its own pattern. *)
Fixpoint groups (r : re) : list (nat * re) :=
  match r with
  | Cat r1 r2 | Alt r1 r2 => groups r1 ++ groups r2
  | Grp i r => (i, r) :: groups r
  | Ahead r => groups r
  | _ => []
  end.

(** The groups that take part in every match of a pattern. *)
Fixpoint must (r : re) : list nat :=
  match r with
  | Cat r1 r2 => must r1 ++ must r2
  | Grp i r => i :: must r
  | _ => []
  end.

(** Captures made by the groups of [r]: each is a text its group can take,
    and every group that always takes part has one. *)
Definition captured (ci : bool) (r : re) (new : caps) : Prop :=
  Forall (λ it, ∃ sub, (it.1, sub) ∈ groups r ∧ den ci sub it.2) new
  ∧ Forall (λ i, i ∈ new.*1) (must r).

(** A path that stays on one line and holds no backtick. *)
Definition one_line (path : text) : bool := forallb not_nl_backtick path.

(** A path as the delete and read phrasings capture it: a stem without
    white space or quotes, a dot, and an extension of word characters. *)
Definition names_file (path : text) : Prop :=
  ∃ stem ext,
    path = stem ++ [Phrases.dot] ++ ext
    ∧ stem ≠ [] ∧ forallb not_space_quote stem = true
    ∧ ext ≠ [] ∧ forallb is_word ext = true.

(** The pattern of a path in the delete and read phrasings. *)
Definition phrase_path : re :=
  Seq [plus not_space_quote; Lit "."; plus is_word].

(** The pattern of a path in the fallback grammars. *)
Definition plain_path : re :=
  Seq [plus is_path_char; Lit "."; plus is_alnum].

End Language.

Module Explanations.

(** The text reads [EXPLANATION:] here, in any case of the letters. *)
Definition is_label (s : text) : bool := lits_match true (T "EXPLANATION:") s.

(** No [FILE:] marker starts inside [gap] when [tail] follows it. *)
Definition no_marker_in (gap tail : text) : Prop :=
  ∀ j, j < length gap → Protocol.is_marker (drop j (gap ++ tail)) = false.

(** Nothing, or a text that starts with a [FILE:] marker. *)
Definition ends_explanation (tail : text) : bool :=
  match tail with [] => true | _ => Protocol.is_marker tail end.

End Explanations.

Module Intents.
Import Chat Protocol.

(** An intent that can be carried out: a path, a content and a project
    that are not empty, and at least two files when several are written. *)
Definition well_formed_action (a : action) : Prop :=
  match a with
  | DeleteFile filepath | ReadFile filepath => filepath ≠ []
  | StartAutoFix project => project ≠ []
  | WriteFile filepath content => filepath ≠ [] ∧ content ≠ []
  | WriteMultipleFiles files => 2 ≤ length files ∧ Forall sound_edit files
  end.

End Intents.

Module Cases.
Import Scripted Scenarios.

(** The termination command succeeds. *)
Definition taskkill_ok : world :=
  World [] [Ok (ExecResult None (T "SUCCESS: The process with PID 4242 has been terminated.") [])] [].

(** A provider that answers with prose only. *)
Definition chatty : world :=
  World [(T "README.md", T "# notes")] [] [Ok (T "Sure, here you go.")].

(** A Python program that fails once, a provider that answers with a fix,
    and a second run that succeeds. *)
Definition fixable : world :=
  World [(T "app.py", T "print(")]
        [Ok (ExecResult (Some (T "Command failed: py app.py")) [] (T "SyntaxError"));
         Ok (ExecResult None (T "1") [])]
        [Ok (T "EXPLANATION:
Closed the call.

FILE: app.py
```python
print(1)
```")].

End Cases.

(** * Properties *)

Module RegexFacts.
Import Progress.

Lemma reached_here {R} (k : cont R) pos s c x :
  k pos s c = Some x → reached k pos s 0 x.
Proof.
  intros Hk. exists [], s, c. simpl. rewrite Nat.add_0_r. auto with lia.
Qed.

Lemma reached_cons {R} (k : cont R) pos a s n x :
  reached k (S pos) s n x → reached k pos (a :: s) (S n) x.
Proof.
  intros (pre & s' & c' & -> & Hn & Hk).
  exists (a :: pre), s', c'. simpl. replace (pos + S (length pre)) with (S pos + length pre) by lia.
  auto with lia.
Qed.

Lemma reached_weaken {R} (k : cont R) pos s n n' x :
  n' ≤ n → reached k pos s n x → reached k pos s n' x.
Proof.
  intros Hle (pre & s' & c' & -> & Hn & Hk). exists pre, s', c'. auto with lia.
Qed.

Lemma rep_greedy_reached {R} p (k : cont R) s : ∀ least pos c x,
  rep_greedy p least k pos s c = Some x → reached k pos s least x.
Proof.
  induction s as [|a s IH]; intros least pos c x; simpl.
  - destruct least; [|done]. apply reached_here.
  - destruct (p a).
    + destruct (rep_greedy p (pred least) k (S pos) s c) eqn:E.
      * intros [= ->]. apply IH in E. apply (reached_cons _ _ a) in E.
        eapply reached_weaken; [|exact E]. lia.
      * destruct least; [|done]. apply reached_here.
    + destruct least; [|done]. apply reached_here.
Qed.

Lemma rep_lazy_reached {R} p (k : cont R) s : ∀ least pos c x,
  rep_lazy p least k pos s c = Some x → reached k pos s least x.
Proof.
  induction s as [|a s IH]; intros least pos c x; simpl.
  - destruct least; simpl; [|done].
    destruct (k pos [] c) eqn:E; [|done]. intros [= ->]. by eapply reached_here.
  - destruct least; simpl.
    + destruct (k pos (a :: s) c) eqn:E.
      * intros [= ->]. by eapply reached_here.
      * destruct (p a); [|done]. intros E'. apply IH in E'.
        apply (reached_cons _ _ a) in E'. eapply reached_weaken; [|exact E']. lia.
    + destruct (p a); [|done]. intros E'. apply IH in E'. by apply reached_cons.
Qed.

Lemma m_reached ci r : ∀ R (k : cont R) pos s c x,
  m ci r k pos s c = Some x → reached k pos s (min_len r) x.
Proof.
  induction r as [a|p| | | |r1 IH1 r2 IH2|r1 IH1 r2 IH2|g least p|i r IH|r IH];
    intros R k pos s c x; simpl.
  - destruct s as [|y s]; [done|]. destruct (lit_eq ci a y); [|done].
    intros Hk. apply reached_cons. by eapply reached_here.
  - destruct s as [|y s]; [done|]. destruct (p y); [|done].
    intros Hk. apply reached_cons. by eapply reached_here.
  - destruct (pos =? 0); [|done]. apply reached_here.
  - destruct s; [|done]. apply reached_here.
  - apply reached_here.
  - intros E. apply IH1 in E as (pre1 & s1 & c1 & -> & Hn1 & E).
    apply IH2 in E as (pre2 & s2 & c2 & -> & Hn2 & E).
    exists (pre1 ++ pre2), s2, c2. rewrite length_app, <-(assoc (++)).
    rewrite Nat.add_assoc. auto with lia.
  - destruct (m ci r1 k pos s c) eqn:E.
    + intros [= ->]. apply IH1 in E. eapply reached_weaken; [|exact E]. lia.
    + intros E'. apply IH2 in E'. eapply reached_weaken; [|exact E']. lia.
  - destruct g; [apply rep_greedy_reached | apply rep_lazy_reached].
  - intros E. apply IH in E as (pre & s' & c' & -> & Hn & E).
    exists pre, s'. eauto.
  - destruct (m ci r _ pos s c) eqn:E; [|done]. apply reached_here.
Qed.

Lemma match_at_bounds ci r pos s x :
  match_at ci r pos s = Some x →
  m_start x = pos ∧ pos + min_len r ≤ m_end x ∧ m_end x ≤ pos + length s.
Proof.
  unfold match_at. intros E. apply m_reached in E as (pre & s' & c' & -> & Hn & E).
  injection E as <-. simpl. rewrite length_app. lia.
Qed.

Lemma search_bounds ci r s : ∀ pos x,
  search ci r pos s = Some x →
  pos ≤ m_start x ∧ m_start x + min_len r ≤ m_end x ∧ m_end x ≤ pos + length s.
Proof.
  induction s as [|a s IH]; intros pos x; simpl.
  - destruct (match_at ci r pos []) eqn:E; [|done].
    intros [= ->]. apply match_at_bounds in E. simpl in E. lia.
  - destruct (match_at ci r pos (a :: s)) eqn:E.
    + intros [= ->]. apply match_at_bounds in E. simpl in E. lia.
    + intros E'. apply IH in E'. lia.
Qed.

Lemma exec_bounds ci r s last x :
  exec ci r s last = Some x →
  last ≤ m_start x ∧ m_start x + min_len r ≤ m_end x ∧ m_end x ≤ length s.
Proof.
  unfold exec. destruct (last <=? length s) eqn:Hl; [|done].
  apply Nat.leb_le in Hl. intros E. apply search_bounds in E.
  rewrite length_drop in E. lia.
Qed.

(** The loop over a pattern that cannot match the empty text ends: the
    fuel [length s + 1] is never used up. *)
Lemma exec_all_total ci r s : 0 < min_len r → ∀ fuel last,
  0 < fuel → length s < fuel + last → is_Some (exec_all fuel ci r s last).
Proof.
  intros Hr fuel. induction fuel as [|fuel IH]; intros last Hf Hl; [lia|].
  simpl. destruct (exec ci r s last) as [x|] eqn:E; [|by eexists].
  apply exec_bounds in E.
  destruct (IH (m_end x)) as [l Hl']; [lia..|]. rewrite Hl'. by eexists.
Qed.

(** Every match the loop collects comes from a search of the pattern. *)
Lemma exec_all_matches ci r s : ∀ fuel last l,
  exec_all fuel ci r s last = Some l →
  Forall (λ x, ∃ last', exec ci r s last' = Some x) l.
Proof.
  induction fuel as [|fuel IH]; intros last l; simpl; [done|].
  destruct (exec ci r s last) as [x|] eqn:E.
  - destruct (exec_all fuel ci r s (m_end x)) as [l'|] eqn:E'; [|done].
    intros [= <-]. constructor; eauto.
  - intros [= <-]. constructor.
Qed.

End RegexFacts.

Module MatchFacts.
Import Progress RegexFacts.

Lemma m_Str ci l : ∀ R (k : cont R) pos s c,
  m ci (Str l) k pos s c =
  if lits_match ci l s then k (pos + length l) (drop (length l) s) c else None.
Proof.
  induction l as [|a l IH]; intros R k pos s c.
  - simpl. by rewrite Nat.add_0_r, drop_0.
  - destruct l as [|b l].
    + simpl. destruct s as [|x s]; [done|]. destruct (lit_eq ci a x); simpl; [|done].
      by rewrite Nat.add_1_r, drop_0.
    + change (Str (a :: b :: l)) with (Cat (Lit a) (Str (b :: l))).
      cbn [m]. destruct s as [|x s]; [done|].
      cbn [lits_match]. destruct (lit_eq ci a x); [|done].
      rewrite IH. cbn [andb length drop]. by rewrite Nat.add_succ_comm.
Qed.

Lemma lits_match_app ci l u v :
  length l ≤ length u → lits_match ci l (u ++ v) = lits_match ci l u.
Proof.
  revert u. induction l as [|a l IH]; intros u Hl; [done|].
  destruct u as [|x u]; simpl in *; [lia|]. rewrite IH; [done|lia].
Qed.

Lemma lits_match_self ci l v : lits_match ci l (l ++ v) = true.
Proof.
  induction l as [|a l IH]; [done|]. simpl. rewrite IH.
  unfold lit_eq, is_char. destruct ci; by rewrite Ascii.eqb_refl.
Qed.

(** A greedy repetition over a run of [n1] characters of the class, not
    followed by another, fails when the continuation fails after each of
    its prefixes. *)
Lemma rep_greedy_none {R} p (k : cont R) c : ∀ s n1 pos,
  forallb p (take n1 s) = true → n1 ≤ length s →
  (match drop n1 s with y :: _ => p y = false | [] => True end) →
  (∀ j, j ≤ n1 → k (pos + j) (drop j s) c = None) →
  rep_greedy p 0 k pos s c = None.
Proof.
  induction s as [|a s IH]; intros n1 pos Hall Hlen Hnext Hfail.
  - simpl. specialize (Hfail 0). rewrite Nat.add_0_r in Hfail. apply Hfail. lia.
  - assert (H0 : k pos (a :: s) c = None).
    { specialize (Hfail 0). rewrite Nat.add_0_r in Hfail. apply Hfail. lia. }
    destruct n1 as [|n1].
    + simpl in *. by rewrite Hnext.
    + simpl in Hall, Hlen, Hnext. apply andb_prop in Hall as [Ha Hall].
      cbn [rep_greedy pred]. rewrite Ha, H0.
      rewrite (IH n1 (S pos)); [done|done|lia|done|].
      intros j Hj. specialize (Hfail (S j)). rewrite Nat.add_succ_r in Hfail.
      apply Hfail. lia.
Qed.

(** The continuation is tried after [n1] characters, then after fewer; when
    it fails down to [n] and succeeds there, that is the match. *)
Lemma rep_greedy_at {R} p (k : cont R) c x : ∀ s n1 n least pos,
  forallb p (take n1 s) = true → n1 ≤ length s →
  (match drop n1 s with y :: _ => p y = false | [] => True end) →
  least ≤ n → n ≤ n1 →
  (∀ j, n < j → j ≤ n1 → k (pos + j) (drop j s) c = None) →
  k (pos + n) (drop n s) c = Some x →
  rep_greedy p least k pos s c = Some x.
Proof.
  induction s as [|a s IH]; intros n1 n least pos Hall Hlen Hnext Hleast Hn Hfail Hk.
  - simpl in *. assert (n1 = 0) as -> by lia. assert (n = 0) as -> by lia.
    assert (least = 0) as -> by lia. by rewrite Nat.add_0_r in Hk.
  - destruct n1 as [|n1].
    + assert (n = 0) as -> by lia. assert (least = 0) as -> by lia.
      simpl in *. rewrite Hnext. by rewrite Nat.add_0_r in Hk.
    + simpl in Hall, Hlen, Hnext. apply andb_prop in Hall as [Ha Hall].
      cbn [rep_greedy]. rewrite Ha.
      destruct n as [|n].
      * assert (least = 0) as -> by lia. cbn [pred].
        rewrite (rep_greedy_none p k c s n1 (S pos)); [|done|lia|done|].
        -- by rewrite Nat.add_0_r in Hk.
        -- intros j Hj. specialize (Hfail (S j)). rewrite Nat.add_succ_r in Hfail.
           apply Hfail; lia.
      * rewrite (IH n1 n (pred least) (S pos)); [done|done|lia|done|lia|lia| |].
        -- intros j Hj1 Hj2. specialize (Hfail (S j)).
           rewrite Nat.add_succ_r in Hfail. simpl in Hfail. apply Hfail; lia.
        -- rewrite Nat.add_succ_r in Hk. exact Hk.
Qed.

(** A lazy repetition: the continuation is tried after no character, then
    after more; when it fails up to [n] and succeeds there, that is the
    match. *)
Lemma rep_lazy_at {R} p (k : cont R) c x : ∀ n s pos,
  forallb p (take n s) = true → n ≤ length s →
  (∀ j, j < n → k (pos + j) (drop j s) c = None) →
  k (pos + n) (drop n s) c = Some x →
  rep_lazy p 0 k pos s c = Some x.
Proof.
  induction n as [|n IH]; intros s pos Hall Hlen Hfail Hk.
  - rewrite Nat.add_0_r, drop_0 in Hk. destruct s; simpl; by rewrite Hk.
  - destruct s as [|a s]; simpl in Hlen; [lia|].
    simpl in Hall. apply andb_prop in Hall as [Ha Hall].
    cbn [rep_lazy].
    specialize (Hfail 0) as H0. rewrite Nat.add_0_r, drop_0 in H0.
    rewrite H0 by lia. rewrite Ha.
    apply (IH s (S pos)); [done|lia| |].
    + intros j Hj. specialize (Hfail (S j)). rewrite Nat.add_succ_r in Hfail.
      apply Hfail. lia.
    + by rewrite Nat.add_succ_r in Hk.
Qed.

End MatchFacts.

Module TextFacts.
Import RegexFacts MatchFacts.

Ltac each_char y :=
  destruct y as [[] [] [] [] [] [] [] []]; vm_compute; try reflexivity;
  try congruence.

Lemma lit_eq_nl y : lit_eq true nl y = true → y = nl.
Proof. each_char y. Qed.

Lemma lit_eq_backtick y : lit_eq true backtick y = is_char backtick y.
Proof. each_char y. Qed.

Lemma is_char_eq a y : is_char a y = true → y = a.
Proof. unfold is_char. intros E. by apply Ascii.eqb_eq in E. Qed.

Lemma space_not_backtick y : is_char backtick y = true → is_space y = false.
Proof. intros E. by apply is_char_eq in E as ->. Qed.

Lemma lits_match_fence s : lits_match true fence s = startsWith fence s.
Proof.
  unfold fence. destruct s as [|x0 [|x1 [|x2 s]]]; cbn [lits_match startsWith];
    by rewrite ?lit_eq_backtick.
Qed.

Lemma startsWith_app p u v :
  length p ≤ length u → startsWith p (u ++ v) = startsWith p u.
Proof.
  revert u. induction p as [|a p IH]; intros u Hl; [done|].
  destruct u as [|x u]; simpl in *; [lia|]. rewrite IH; [done|lia].
Qed.

Lemma find_first_Some test s : ∀ n,
  find_first test s = Some n →
  n ≤ length s ∧ test (drop n s) = true
  ∧ ∀ j, j < n → test (drop j s) = false.
Proof.
  induction s as [|a s IH]; intros n; simpl.
  - destruct (test []) eqn:E; [|done]. intros [= <-]. split; [done|].
    split; [done|]. intros; lia.
  - destruct (test (a :: s)) eqn:E.
    + intros [= <-]. split; [lia|]. split; [done|]. intros; lia.
    + destruct (find_first test s) as [n'|] eqn:E'; [|done].
      simpl. intros [= <-]. destruct (IH n' eq_refl) as (Hl & Ht & Hj).
      split; [lia|]. split; [done|]. intros [|j] Hlt; [done|].
      simpl. apply Hj. lia.
Qed.

Lemma find_first_None test s :
  find_first test s = None → ∀ j, j ≤ length s → test (drop j s) = false.
Proof.
  induction s as [|a s IH]; simpl.
  - destruct (test []) eqn:E; [done|]. intros _ j Hj. by destruct j.
  - destruct (test (a :: s)) eqn:E; [done|].
    destruct (find_first test s) eqn:E'; [done|]. intros _ [|j] Hj; [done|].
    simpl. apply IH; [done|lia].
Qed.

Lemma forallb_any s : forallb any_char s = true.
Proof. by induction s. Qed.

Lemma forallb_take {A} (p : A → bool) n l :
  forallb p l = true → forallb p (take n l) = true.
Proof.
  revert n. induction l as [|a l IH]; intros [|n]; simpl; try done.
  intros [-> ?]%andb_prop. simpl. by apply IH.
Qed.

Lemma forallb_drop {A} (p : A → bool) n l :
  forallb p l = true → forallb p (drop n l) = true.
Proof.
  revert n. induction l as [|a l IH]; intros [|n]; simpl; try done.
  intros [_ ?]%andb_prop. by apply IH.
Qed.

(** What [trimStart] removes and what it leaves. *)
Lemma trimStart_split s :
  ∃ lead, s = lead ++ trimStart s ∧ forallb is_space lead = true
          ∧ match trimStart s with c :: _ => is_space c = false | [] => True end.
Proof.
  induction s as [|a s (lead & Hs & Hl & Hh)]; simpl.
  - by exists [].
  - destruct (is_space a) eqn:E.
    + exists (a :: lead). simpl. rewrite E, Hl. by rewrite <-Hs.
    + by exists [].
Qed.

Lemma trimStart_spaces lead s :
  forallb is_space lead = true → trimStart (lead ++ s) = trimStart s.
Proof.
  induction lead as [|a lead IH]; simpl; [done|].
  intros [-> ?]%andb_prop. by apply IH.
Qed.

Lemma trim_spaces lead s :
  forallb is_space lead = true → trim (lead ++ s) = trim s.
Proof. intros Hl. unfold trim. by rewrite trimStart_spaces. Qed.

End TextFacts.

Module TrimFacts.
Import TextFacts.

#[local] Arguments is_space : simpl never.

Lemma trimStart_idemp s : trimStart (trimStart s) = trimStart s.
Proof.
  induction s as [|a s IH]; [done|]. simpl.
  destruct (is_space a) eqn:E; [done|]. simpl. by rewrite E.
Qed.

Lemma trimStart_fixed c s : is_space c = false → trimStart (c :: s) = c :: s.
Proof. intros E. simpl. by rewrite E. Qed.

Lemma forallb_reverse {A} (p : A → bool) l :
  forallb p (reverse l) = forallb p l.
Proof.
  induction l as [|a l IH]; [done|].
  rewrite reverse_cons, forallb_app, IH. simpl. by rewrite andb_true_r, andb_comm.
Qed.

(** What [trimEnd] removes. *)
Lemma trimEnd_split s :
  ∃ trail, s = trimEnd s ++ trail ∧ forallb is_space trail = true.
Proof.
  destruct (trimStart_split (reverse s)) as (lead & Hs & Hl & _).
  exists (reverse lead). split; [|by rewrite forallb_reverse].
  unfold trimEnd. rewrite <-reverse_app, <-Hs. by rewrite reverse_involutive.
Qed.

(** A trimmed text is left as it is by [trim]. *)
Lemma trim_idemp s : trim (trim s) = trim s.
Proof.
  unfold trim at 2. set (u := trimStart s).
  destruct (trimEnd_split u) as (trail & Hu & _).
  assert (Hstart : trimStart (trimEnd u) = trimEnd u).
  { destruct (trimEnd u) as [|c t] eqn:Et; [done|].
    apply trimStart_fixed.
    destruct (trimStart_split s) as (_ & _ & _ & Hh). fold u in Hh.
    rewrite Hu in Hh. exact Hh. }
  unfold trim. rewrite Hstart. unfold trimEnd at 1.
  unfold trimEnd at 1. rewrite reverse_involutive, trimStart_idemp. done.
Qed.

End TrimFacts.

Module ParserFacts.
Import Progress RegexFacts.

Lemma matches_total r s : 0 < min_len r → is_Some (matches r s).
Proof. intros Hr. apply exec_all_total; [done|lia..]. Qed.

Lemma fileRegex_min_len : 0 < min_len fileRegex.
Proof. vm_compute. lia. Qed.

Lemma altRegex1_min_len : 0 < min_len altRegex1.
Proof. vm_compute. lia. Qed.

Lemma createRegex_min_len : 0 < min_len createRegex.
Proof. vm_compute. lia. Qed.

Lemma collect_total f ms : is_Some ms → is_Some (collect f ms).
Proof. intros [l ->]. by eexists. Qed.

(** The extraction loop ends on every text. *)
Lemma file_edits_total s : is_Some (file_edits s).
Proof. apply collect_total, matches_total, fileRegex_min_len. Qed.

Lemma chat_edits_total b s : is_Some (chat_edits b s).
Proof.
  unfold chat_edits. destruct (file_edits_total s) as [files ->].
  destruct ((length files =? 0) && b) eqn:E.
  - destruct (collect_total edit_of_alt1 (matches altRegex1 s)) as [files' ->].
    { apply matches_total, altRegex1_min_len. }
    destruct ((length files' =? 0) && b); [|by eexists].
    apply collect_total, matches_total, createRegex_min_len.
  - rewrite E. by eexists.
Qed.

End ParserFacts.

Module EffectFacts.

Section Facts.
Context {W : Type} `{Services W}.

Lemma bind_Some {A B} (c : M W A) (k : A → M W B) st a st1 :
  c st = Some (a, st1) → bind c k st = k a st1.
Proof. unfold bind. by intros ->. Qed.

Lemma call_Some {A} e (f : W → A * W) (st : state W) :
  call e f st = Some ((f (world st)).1, State (f (world st)).2 (log st ++ [e])).
Proof. unfold call. by destruct (f (world st)). Qed.

Lemma runs_app l1 l2 : runs (l1 ++ l2) = runs l1 + runs l2.
Proof. unfold runs. by rewrite filter_app, length_app. Qed.

Lemma runs_cons e l : runs (e :: l) = (if is_run e then 1 else 0) + runs l.
Proof.
  unfold runs. rewrite filter_cons. destruct (is_run e).
  - by rewrite decide_True.
  - by rewrite decide_False.
Qed.

Lemma runs_nil : runs [] = 0.
Proof. done. Qed.

Lemma prompts_app l1 l2 : prompts (l1 ++ l2) = prompts l1 ++ prompts l2.
Proof. unfold prompts. by rewrite omap_app. Qed.

Lemma provider_calls_app l1 l2 :
  provider_calls (l1 ++ l2) = provider_calls l1 + provider_calls l2.
Proof. unfold provider_calls. by rewrite prompts_app, length_app. Qed.

End Facts.

End EffectFacts.

Module BlockFacts.
Import Protocol Parts RegexFacts MatchFacts TextFacts.

#[local] Arguments is_char : simpl never.
#[local] Arguments lit_eq : simpl never.
#[local] Arguments is_space : simpl never.
#[local] Arguments is_word : simpl never.
#[local] Arguments not_nl_backtick : simpl never.

Lemma fileRegex_parts : fileRegex = r_file.
Proof. reflexivity. Qed.

Lemma cut_le lead : cut lead ≤ length lead.
Proof.
  induction lead as [|a lead IH]; [done|]. cbn [cut].
  destruct (existsb _ _); simpl; lia.
Qed.

Lemma cut_zero lead : cut lead = 0 → existsb (is_char nl) lead = false.
Proof. destruct lead as [|a lead]; [done|]. cbn [cut]. by destruct (existsb _ _). Qed.

Lemma cut_rest lead : existsb (is_char nl) (drop (cut lead) lead) = false.
Proof.
  induction lead as [|a lead IH]; [done|]. cbn [cut].
  destruct (existsb (is_char nl) (a :: lead)) eqn:E; [|done]. by simpl.
Qed.

Lemma cut_newline lead :
  0 < cut lead → lead !! (cut lead - 1) = Some nl.
Proof.
  induction lead as [|a lead IH]; [simpl; lia|]. cbn [cut].
  destruct (existsb (is_char nl) (a :: lead)) eqn:E; [|lia]. intros _.
  simpl. rewrite Nat.sub_0_r. destruct (cut lead) as [|n] eqn:En.
  - apply cut_zero in En. simpl in E. rewrite En, orb_false_r in E.
    apply is_char_eq in E as ->. done.
  - simpl in IH. rewrite Nat.sub_0_r in IH. simpl. apply IH. lia.
Qed.

Lemma not_nl_char (y : ascii) : is_char nl y = false → lit_eq true nl y = false.
Proof.
  intros E. destruct (lit_eq true nl y) eqn:E'; [|done].
  apply lit_eq_nl in E' as ->. by vm_compute in E.
Qed.

Lemma existsb_lookup (p : ascii → bool) l i y :
  existsb p l = false → l !! i = Some y → p y = false.
Proof.
  revert i. induction l as [|a l IH]; intros [|i]; simpl; try done.
  - intros [? ?]%orb_false_elim [= <-]. done.
  - intros [? ?]%orb_false_elim. by apply IH.
Qed.

Section Parts.
Context {R : Type} (k : cont R).

Lemma m_Cat_parts ci r1 r2 (k' : cont R) pos s c :
  m ci (Cat r1 r2) k' pos s c = m ci r1 (m ci r2 k') pos s c.
Proof. reflexivity. Qed.

Lemma body_match pos B rest c x :
  (∀ j, j < length B → startsWith fence (drop j (B ++ fence)) = false) →
  k (pos + length B + 3) rest ((2, B) :: c) = Some x →
  m true r_body k pos (B ++ fence ++ rest) c = Some x.
Proof.
  intros Hclosed Hk. unfold r_body, lazy_star. cbn [m].
  apply (rep_lazy_at _ _ _ _ (length B)).
  - apply forallb_any.
  - rewrite length_app. lia.
  - intros j Hj. rewrite m_Str, lits_match_fence.
    rewrite drop_app_le by lia. rewrite (assoc (++)).
    rewrite startsWith_app.
    + rewrite <-drop_app_le by lia. by rewrite Hclosed.
    + rewrite length_app. simpl. lia.
  - rewrite m_Str. rewrite !drop_app_length. rewrite lits_match_self.
    replace (pos + length B - pos) with (length B) by lia.
    by rewrite take_app_length.
Qed.

Lemma fence_closed_drop body skipped B :
  fence_closed body = true → body = skipped ++ B →
  ∀ j, j < length B → startsWith fence (drop j (B ++ fence)) = false.
Proof.
  unfold fence_closed, indexOf. intros Hc%bool_decide_eq_true ->.
  apply find_first_Some in Hc as (_ & _ & Hc). intros j Hj.
  specialize (Hc (length skipped + j)). rewrite length_app in Hc.
  rewrite <-drop_drop, <-(assoc (++)), drop_app_length in Hc. apply Hc. lia.
Qed.

(** A character at which [Lit nl] fails, or the end of the text. *)
Lemma lit_nl_fails (k' : cont R) pos s c :
  match s with y :: _ => is_char nl y = false | [] => True end →
  m true (Lit nl) k' pos s c = None.
Proof.
  destruct s as [|y s]; [done|]. intros Hy. cbn [m]. by rewrite not_nl_char.
Qed.

(** White space that starts with a newline, before a visible character:
    the greedy [\s*] gives back what follows the last newline, and
    [\n] takes that newline. *)
Lemma star_newline (k' : cont R) pos lead rest c x :
  forallb is_space lead = true →
  match rest with y :: _ => is_space y = false | [] => True end →
  k' (pos + S (cut lead)) (drop (cut lead) lead ++ rest) c = Some x →
  rep_greedy is_space 0 (m true (Lit nl) k') pos (nl :: lead ++ rest) c = Some x.
Proof.
  intros Hlead Hrest Hk.
  apply (rep_greedy_at _ _ _ _ _ (S (length lead)) (cut lead)).
  - cbn [take forallb]. by rewrite take_app_length.
  - simpl. rewrite !length_app. lia.
  - cbn [drop]. by rewrite drop_app_length.
  - lia.
  - pose proof (cut_le lead). lia.
  - intros i Hi1 Hi2. apply lit_nl_fails.
    destruct i as [|i]; [lia|]. cbn [drop].
    destruct (decide (i < length lead)) as [Hlt|Hge].
    + destruct (lookup_lt_is_Some_2 lead i Hlt) as [y Hy].
      rewrite drop_app_le by lia. rewrite (drop_S _ _ _ Hy). simpl.
      apply (existsb_lookup _ (drop (cut lead) lead) (i - cut lead)).
      * apply cut_rest.
      * rewrite lookup_drop. replace (cut lead + (i - cut lead)) with i by lia. done.
    + assert (i = length lead) as -> by lia. rewrite drop_app_length.
      destruct rest as [|y ?]; [done|].
      destruct (is_char nl y) eqn:E; [|done].
      apply is_char_eq in E as ->. by vm_compute in Hrest.
  - assert (Hnl : drop (cut lead) (nl :: lead ++ rest)
                  = nl :: drop (cut lead) lead ++ rest).
    { destruct (cut lead) as [|j] eqn:Ej; [done|]. cbn [drop].
      pose proof (cut_le lead). rewrite drop_app_le by lia.
      pose proof (cut_newline lead) as Hn. rewrite Ej in Hn.
      simpl in Hn. rewrite Nat.sub_0_r in Hn.
      rewrite (drop_S _ _ _ (Hn ltac:(lia))). done. }
    rewrite Hnl. cbn [m].
    replace (lit_eq true nl nl) with true by (by vm_compute).
    by rewrite Nat.add_succ_r in Hk.
Qed.

(** A greedy repetition that succeeds after a run of the class succeeds
    before it too. *)
Lemma star_prefix p (k' : cont R) run s c x : ∀ pos,
  forallb p run = true →
  rep_greedy p 0 k' (pos + length run) s c = Some x →
  rep_greedy p 0 k' pos (run ++ s) c = Some x.
Proof.
  induction run as [|a run IH]; intros pos Hrun Hk.
  - by rewrite Nat.add_0_r in Hk.
  - cbn [forallb] in Hrun. apply andb_prop in Hrun as [Ha Hrun].
    cbn [app rep_greedy pred]. rewrite Ha.
    rewrite (IH (S pos)); [done|done|].
    rewrite <-Hk. f_equal. simpl. lia.
Qed.

Lemma star_all p (k' : cont R) pos run s c x :
  forallb p run = true →
  match s with y :: _ => p y = false | [] => True end →
  k' (pos + length run) s c = Some x →
  rep_greedy p 0 k' pos (run ++ s) c = Some x.
Proof.
  intros Hrun Hnext Hk.
  apply (rep_greedy_at _ _ _ _ _ (length run) (length run)).
  - by rewrite take_app_length.
  - rewrite length_app. lia.
  - by rewrite drop_app_length.
  - lia.
  - lia.
  - intros; lia.
  - by rewrite drop_app_length.
Qed.

Lemma open_match pos pad body rest c :
  forallb is_space pad = true →
  fence_closed body = true →
  ∃ skipped B,
    body = skipped ++ B ∧ forallb is_space skipped = true
    ∧ ∀ x, k (pos + length pad + S (length body) + 3) rest ((2, B) :: c) = Some x →
           m true r_open k pos (pad ++ nl :: body ++ fence ++ rest) c = Some x.
Proof.
  intros Hpad Hclosed.
  destruct (trimStart_split body) as (lead & Hbody & Hlead & Hhead).
  set (tb := trimStart body) in *.
  exists (take (cut lead) lead), (drop (cut lead) lead ++ tb).
  assert (Hsplit : body = take (cut lead) lead ++ drop (cut lead) lead ++ tb).
  { by rewrite (assoc (++)), take_drop. }
  split; [done|]. split; [by apply forallb_take|].
  intros x Hk.
  assert (Htext : nl :: body ++ fence ++ rest
                  = nl :: lead ++ tb ++ fence ++ rest).
  { by rewrite Hbody at 1; rewrite <-(assoc (++)). }
  rewrite Htext. unfold r_open, star.
  change (m true (Cat (Rep true 0 is_space) (Cat (Lit nl) r_body)) k)
    with (rep_greedy is_space 0 (m true (Lit nl) (m true r_body k))).
  apply star_prefix; [done|]. apply star_newline; [done| |].
  { destruct tb; [done|]. exact Hhead. }
  rewrite (assoc (++) (drop (cut lead) lead)).
  apply body_match.
  - by eapply fence_closed_drop.
  - rewrite <-Hk. f_equal.
    pose proof (f_equal length Hbody) as Hlen. rewrite length_app in Hlen.
    pose proof (cut_le lead). rewrite length_app, length_drop. lia.
Qed.

(** The end of the marker's line, the white space before the fence and the
    fence. *)
Lemma line_match pos sep rest c x :
  forallb is_space sep = true →
  m true r_lang k (pos + S (length sep) + 3) rest c = Some x →
  m true r_line k pos (nl :: sep ++ fence ++ rest) c = Some x.
Proof.
  intros Hsep Hk. unfold r_line.
  change (m true (Cat (star is_space) (Cat (Lit nl) (Cat (star is_space) r_fence))) k)
    with (rep_greedy is_space 0
            (m true (Lit nl) (rep_greedy is_space 0 (m true r_fence k)))).
  apply star_newline; [done|done|].
  apply star_all; [by apply forallb_drop|done|].
  unfold r_fence. rewrite m_Cat_parts, m_Str, lits_match_self, drop_app_length.
  rewrite <-Hk. f_equal. change (length fence) with 3.
  pose proof (cut_le sep). rewrite length_drop. lia.
Qed.

Lemma space_not_word y : is_space y = true → is_word y = false.
Proof. each_char y. Qed.

(** The pattern matches a well-formed block where it stands, up to its
    closing fence; the path is captured whole and the body without the
    blank lines it starts with. *)
Lemma block_match pos b rest c :
  well_formed b = true →
  ∃ skipped B,
    b_body b = skipped ++ B ∧ forallb is_space skipped = true
    ∧ ∀ x, k (pos + length (render b)) rest ((2, B) :: (1, b_path b) :: c) = Some x →
           m true fileRegex k pos (render b ++ rest) c = Some x.
Proof.
  destruct b as [indent path sep lang pad body]. unfold well_formed, render.
  cbn [b_indent b_path b_sep b_lang b_pad b_body].
  intros [[[[[[Hindent Hstart]%andb_prop Hpath]%andb_prop Hsep]%andb_prop
            Hlang]%andb_prop Hpad]%andb_prop Hbody]%andb_prop.
  destruct (open_match
              (pos + 5 + length indent + length path + S (length sep) + 3 + length lang)
              pad body rest ((1, path) :: c) Hpad Hbody)
    as (skipped & B & Hsplit & Hskipped & Hopen).
  exists skipped, B. split; [done|]. split; [done|]. intros x Hk.
  rewrite fileRegex_parts. unfold r_file.
  rewrite <-!(assoc (++)). rewrite m_Cat_parts, m_Str, lits_match_self.
  rewrite drop_app_length. change (length (T "FILE:")) with 5.
  (* the white space after the marker *)
  change (m true (Cat (star is_space) r_path) k)
    with (rep_greedy is_space 0 (m true r_path k)).
  apply star_all; [done| |].
  { destruct path as [|y path]; [done|]. simpl in Hstart.
    by apply negb_true_iff in Hstart. }
  (* the path, to the end of the line *)
  unfold r_path, plus. cbn [m].
  apply (rep_greedy_at _ _ _ _ _ (length path) (length path)).
  { by rewrite take_app_length. }
  { rewrite length_app. lia. }
  { by rewrite drop_app_length. }
  { destruct path; [done|simpl; lia]. }
  { lia. }
  { intros; lia. }
  rewrite drop_app_length.
  replace (pos + 5 + length indent + length path - (pos + 5 + length indent))
    with (length path) by lia.
  rewrite take_app_length.
  (* the end of the line and the opening fence *)
  cbn [app]. apply line_match; [done|].
  (* the language word, the white space, the blank lines and the body *)
  unfold r_lang.
  change (m true (Cat (star is_word) r_open) k)
    with (rep_greedy is_word 0 (m true r_open k)).
  apply star_all; [done| |].
  { destruct pad as [|y pad]; [done|]. cbn [forallb] in Hpad.
    apply andb_prop in Hpad as [Hy _]. by apply space_not_word. }
  apply Hopen. rewrite <-Hk. f_equal.
  repeat (rewrite length_app || cbn [length]).
  change (length (T "FILE:")) with 5. change (length fence) with 3. lia.
Qed.

End Parts.
End BlockFacts.

Module QuoteFacts.
Import Protocol RegexFacts MatchFacts TextFacts.

#[local] Arguments is_quote : simpl never.

(** [quoteRegex] matches one quote character, at the start of the text or
    at its end. *)
Lemma match_at_quote pos s :
  match_at false quoteRegex pos s =
  match s with
  | x :: s' =>
      if is_quote x && ((pos =? 0) || bool_decide (s' = []))
      then Some (Match pos (S pos) []) else None
  | [] => None
  end.
Proof.
  unfold match_at, quoteRegex. cbn [m].
  destruct s as [|x s']; [by destruct (pos =? 0)|].
  destruct (is_quote x); cbn [andb].
  - destruct (pos =? 0); [done|]. by destruct s'.
  - by destruct (pos =? 0).
Qed.

Lemma last_cons_cons {A} (x y : A) l : last (x :: y :: l) = last (y :: l).
Proof. done. Qed.

(** Past the start, only a quote that ends the text matches. *)
Lemma search_quote_tail s : ∀ pos,
  0 < pos →
  search false quoteRegex pos s =
  match last s with
  | Some c => if is_quote c
              then Some (Match (pos + length s - 1) (pos + length s) [])
              else None
  | None => None
  end.
Proof.
  induction s as [|x s IH]; intros pos Hpos.
  - cbn [search]. by rewrite match_at_quote.
  - cbn [search]. rewrite match_at_quote.
    replace (pos =? 0) with false by (symmetry; apply Nat.eqb_neq; lia).
    destruct s as [|y s].
    + cbn [orb last]. rewrite bool_decide_true by done. rewrite andb_true_r.
      destruct (is_quote x).
      * do 2 f_equal; simpl; lia.
      * cbn [search]. by rewrite match_at_quote.
    + rewrite bool_decide_false by done. rewrite andb_false_r.
      rewrite IH by lia. rewrite last_cons_cons.
      destruct (last (y :: s)) as [c|]; [|done].
      destruct (is_quote c); [|done]. do 2 f_equal; simpl; lia.
Qed.

Lemma exec_at_end ci r s :
  (∀ pos, match_at ci r pos [] = None) →
  exec ci r s (length s) = None.
Proof.
  intros Hnone. unfold exec. rewrite Nat.leb_refl, drop_all. cbn [search].
  by rewrite Hnone.
Qed.

Lemma replace_all_from_S fuel ci r by_ s src last_ :
  replace_all_from (S fuel) ci r by_ s src last_ =
  match exec ci r s last_ with
  | None => drop src s
  | Some x =>
      take (m_start x - src) (drop src s) ++ by_ ++
      replace_all_from fuel ci r by_ s (m_end x)
        (if m_end x =? m_start x then S (m_end x) else m_end x)
  end.
Proof. reflexivity. Qed.

Lemma replace_quote_tail s fuel pos :
  0 < pos → pos ≤ length s →
  replace_all_from (S (S fuel)) false quoteRegex [] s pos pos
  = drop_last_quote (drop pos s).
Proof.
  intros Hpos Hle. rewrite replace_all_from_S. unfold exec at 1.
  replace (pos <=? length s) with true by (symmetry; by apply Nat.leb_le).
  rewrite search_quote_tail by done. unfold drop_last_quote.
  rewrite length_drop.
  destruct (last (drop pos s)) as [c|] eqn:El.
  2:{ apply last_None in El. by rewrite El. }
  destruct (is_quote c); [|done].
  cbn [m_start m_end app].
  replace (pos + (length s - pos)) with (length s) by lia.
  replace (length s =? length s - 1) with false
    by (symmetry; apply Nat.eqb_neq; lia).
  rewrite replace_all_from_S.
  rewrite exec_at_end by (intros; by rewrite match_at_quote).
  rewrite drop_all, app_nil_r. f_equal. lia.
Qed.

(** The replacement of the source strips the surrounding quotes. *)
Lemma strip_quotes_unquote s : strip_quotes s = unquote s.
Proof.
  unfold strip_quotes, replace_all.
  destruct s as [|x s]; [done|].
  replace (length (x :: s) + 2) with (S (S (S (length s)))) by (simpl; lia).
  rewrite replace_all_from_S. unfold exec at 1. cbn [Nat.leb drop search].
  rewrite match_at_quote. cbn [Nat.eqb orb]. rewrite andb_true_r.
  cbn [unquote]. destruct (is_quote x) eqn:Ex.
  - cbn [m_start m_end Nat.eqb Nat.sub take app].
    rewrite replace_quote_tail by (simpl; lia). done.
  - rewrite search_quote_tail by lia. unfold drop_last_quote.
    destruct s as [|y s].
    + cbn [last]. by rewrite Ex.
    + rewrite last_cons_cons.
      destruct (last (y :: s)) as [c|] eqn:El; [|by apply last_None in El].
      destruct (is_quote c); [|done].
      cbn [m_start m_end app drop].
      replace (1 + length (y :: s)) with (length (x :: y :: s)) by done.
      replace (length (x :: y :: s) =? length (x :: y :: s) - 1) with false
        by (symmetry; apply Nat.eqb_neq; simpl; lia).
      rewrite replace_all_from_S.
      rewrite exec_at_end by (intros; by rewrite match_at_quote).
      rewrite drop_all, app_nil_r. f_equal; simpl; lia.
Qed.

End QuoteFacts.

Module DocumentFacts.
Import Protocol Parts Progress RegexFacts ParserFacts MatchFacts TextFacts TrimFacts BlockFacts QuoteFacts.

(** Where the text does not read [FILE:], the pattern does not match. *)
Lemma match_at_no_marker pos s :
  is_marker s = false → match_at true fileRegex pos s = None.
Proof.
  intros Hm. unfold match_at. rewrite fileRegex_parts. unfold r_file.
  rewrite m_Cat_parts, m_Str. unfold is_marker in Hm. by rewrite Hm.
Qed.

Lemma marker_free_gap gap more :
  marker_free gap = true →
  ∀ j, j < length gap → is_marker (drop j (gap ++ T "FILE:" ++ more)) = false.
Proof.
  unfold marker_free. intros Hf%bool_decide_eq_true.
  apply find_first_Some in Hf as (_ & _ & Hf). intros j Hj.
  rewrite (assoc (++)), drop_app_le by (rewrite length_app; lia).
  unfold is_marker. rewrite lits_match_app.
  - by apply Hf.
  - rewrite length_drop, length_app. change (length (T "FILE:")) with 5. lia.
Qed.

(** What the loop body makes of the match of a block. *)
Lemma edit_of_block_match b skipped B st en :
  b_body b = skipped ++ B → forallb is_space skipped = true →
  edit_of_match (Match st en [(2, B); (1, b_path b)]) = edit_of_block b.
Proof.
  intros Hb Hs. unfold edit_of_match, edit_of_block, path_of, content_of, group.
  cbn [m_caps capture Nat.eqb default].
  rewrite strip_quotes_unquote. by rewrite Hb, trim_spaces.
Qed.

Lemma render_length b : 0 < length (render b).
Proof. unfold render. rewrite length_app. change (length (T "FILE:")) with 5. lia. Qed.

(** A failure of a pattern without [^] does not depend on the position. *)
Lemma rep_greedy_shift {R1 R2} p (k1 : cont R1) (k2 : cont R2) s :
  ∀ least pos1 pos2 c1 c2,
  (∀ d s' c1' c2', k1 (pos1 + d) s' c1' = None → k2 (pos2 + d) s' c2' = None) →
  rep_greedy p least k1 pos1 s c1 = None →
  rep_greedy p least k2 pos2 s c2 = None.
Proof.
  induction s as [|x s IH]; intros least pos1 pos2 c1 c2 Hk; cbn [rep_greedy].
  - destruct least; [|done]. intros E. specialize (Hk 0 [] c1 c2).
    rewrite !Nat.add_0_r in Hk. by apply Hk.
  - assert (Hhere : match least with O => k1 pos1 (x :: s) c1 | S _ => None end = None →
                    match least with O => k2 pos2 (x :: s) c2 | S _ => None end = None).
    { destruct least; [|done]. intros E. specialize (Hk 0 (x :: s) c1 c2).
      rewrite !Nat.add_0_r in Hk. by apply Hk. }
    destruct (p x); [|done].
    destruct (rep_greedy p (pred least) k1 (S pos1) s c1) eqn:E1; [done|].
    intros E. rewrite (IH (pred least) (S pos1) (S pos2) c1 c2); [by apply Hhere| |done].
    intros d s' c1' c2'. specialize (Hk (S d) s' c1' c2').
    by rewrite !Nat.add_succ_r in Hk.
Qed.

Lemma rep_lazy_shift {R1 R2} p (k1 : cont R1) (k2 : cont R2) s :
  ∀ least pos1 pos2 c1 c2,
  (∀ d s' c1' c2', k1 (pos1 + d) s' c1' = None → k2 (pos2 + d) s' c2' = None) →
  rep_lazy p least k1 pos1 s c1 = None →
  rep_lazy p least k2 pos2 s c2 = None.
Proof.
  induction s as [|x s IH]; intros least pos1 pos2 c1 c2 Hk.
  - destruct least; cbn [rep_lazy]; [|done].
    destruct (k1 pos1 [] c1) eqn:E1; [done|]. intros _.
    specialize (Hk 0 [] c1 c2). rewrite !Nat.add_0_r in Hk. by rewrite Hk.
  - assert (Hnext : ∀ n, rep_lazy p n k1 (S pos1) s c1 = None →
                         rep_lazy p n k2 (S pos2) s c2 = None).
    { intros n. apply IH. intros d s' c1' c2'. specialize (Hk (S d) s' c1' c2').
      by rewrite !Nat.add_succ_r in Hk. }
    destruct least as [|n]; cbn [rep_lazy].
    + destruct (k1 pos1 (x :: s) c1) eqn:E1; [done|].
      specialize (Hk 0 (x :: s) c1 c2). rewrite !Nat.add_0_r in Hk.
      rewrite (Hk E1). destruct (p x); [apply Hnext|done].
    + destruct (p x); [apply Hnext|done].
Qed.

Lemma m_shift ci r : no_bos r = true →
  ∀ R1 R2 (k1 : cont R1) (k2 : cont R2) pos1 pos2 s c1 c2,
  (∀ d s' c1' c2', k1 (pos1 + d) s' c1' = None → k2 (pos2 + d) s' c2' = None) →
  m ci r k1 pos1 s c1 = None → m ci r k2 pos2 s c2 = None.
Proof.
  induction r as [a|p| | | |r1 IH1 r2 IH2|r1 IH1 r2 IH2|greedy least p|i r IH|r IH];
    intros Hr R1 R2 k1 k2 pos1 pos2 s c1 c2 Hk; cbn [m]; cbn [no_bos] in Hr.
  - destruct s as [|x s]; [done|]. destruct (lit_eq ci a x); [|done].
    specialize (Hk 1 s c1 c2). by rewrite !Nat.add_1_r in Hk.
  - destruct s as [|x s]; [done|]. destruct (p x); [|done].
    specialize (Hk 1 s c1 c2). by rewrite !Nat.add_1_r in Hk.
  - done.
  - destruct s; [|done]. specialize (Hk 0 [] c1 c2).
    by rewrite !Nat.add_0_r in Hk.
  - specialize (Hk 0 s c1 c2). by rewrite !Nat.add_0_r in Hk.
  - apply andb_prop in Hr as [Hr1 Hr2]. apply (IH1 Hr1).
    intros d s' c1' c2'. apply (IH2 Hr2). intros d' s'' c1'' c2''.
    rewrite <-!Nat.add_assoc. apply Hk.
  - apply andb_prop in Hr as [Hr1 Hr2].
    destruct (m ci r1 k1 pos1 s c1) eqn:E1; [done|]. intros E2.
    rewrite (IH1 Hr1 _ _ k1 k2 pos1 pos2 s c1 c2 Hk E1).
    by apply (IH2 Hr2 _ _ k1 k2 pos1 pos2 s c1 c2 Hk).
  - destruct greedy; [by apply rep_greedy_shift|by apply rep_lazy_shift].
  - apply (IH Hr). intros d s' c1' c2'.
    replace (pos1 + d - pos1) with d by lia.
    replace (pos2 + d - pos2) with d by lia. apply Hk.
  - destruct (m ci r (λ _ _ c', Some c') pos2 s c2) as [c2'|] eqn:E2; [|done].
    destruct (m ci r (λ _ _ c', Some c') pos1 s c1) as [c1'|] eqn:E1.
    + specialize (Hk 0 s c1' c2'). by rewrite !Nat.add_0_r in Hk.
    + intros _.
      rewrite (IH Hr _ _ (λ _ _ c', Some c') (λ _ _ c', Some c')
                 pos1 pos2 s c1 c2) in E2; [done| |done].
      by intros d s' c1'' c2'' [=].
Qed.

(** Where no block begins, the pattern does not match, at whatever position
    the text stands. *)
Lemma match_at_quiet pos s :
  begins_block s = false → match_at true fileRegex pos s = None.
Proof.
  unfold begins_block, match_at.
  destruct (m true fileRegex _ 0 s []) eqn:E; [done|]. intros _.
  eapply (m_shift true fileRegex eq_refl); [|exact E].
  by intros d s' c1' c2' [=].
Qed.

(** The search passes over a stretch in which no block begins. *)
Lemma search_quiet gap s : ∀ pos,
  quiet gap s = true →
  search true fileRegex pos (gap ++ s) = search true fileRegex (pos + length gap) s.
Proof.
  induction gap as [|a gap IH]; intros pos Hq.
  - simpl. by rewrite Nat.add_0_r.
  - cbn [quiet] in Hq. apply andb_prop in Hq as [Hhere Hq].
    apply negb_true_iff in Hhere.
    cbn [app search]. change (a :: gap ++ s) with ((a :: gap) ++ s).
    rewrite (match_at_quiet pos _ Hhere). rewrite (IH _ Hq).
    f_equal. simpl. lia.
Qed.

Lemma search_quiet_tail tail pos :
  quiet tail [] = true → search true fileRegex pos tail = None.
Proof.
  intros Hq. rewrite <-(app_nil_r tail), (search_quiet tail [] pos Hq).
  cbn [search]. by rewrite match_at_no_marker.
Qed.

(** A stretch without a marker is one in which no block begins. *)
Lemma no_marker_quiet gap s :
  (∀ j, j < length gap → is_marker (drop j (gap ++ s)) = false) →
  quiet gap s = true.
Proof.
  induction gap as [|a gap IH]; intros Hgap; [done|].
  cbn [quiet]. apply andb_true_intro. split.
  - apply negb_true_iff. unfold begins_block.
    rewrite match_at_no_marker; [done|]. apply (Hgap 0). simpl. lia.
  - apply IH. intros j Hj. apply (Hgap (S j)). simpl. lia.
Qed.

(** In particular, a text whose blocks are well formed and whose other
    text holds no marker, in any case of the letters, is a text of
    well-formed blocks. *)
Lemma marker_free_document tail :
  find_first is_marker tail = None →
  ∀ items, forallb item_ok items = true →
    well_formed_document items tail = true.
Proof.
  intros Htail. induction items as [|[gap b] items IH]; intros Hok.
  - cbn [well_formed_document]. apply no_marker_quiet. intros j Hj.
    rewrite app_nil_r. apply find_first_None; [done|lia].
  - cbn [forallb] in Hok. apply andb_prop in Hok as [Hitem Hok].
    unfold item_ok in Hitem. cbn [fst snd] in Hitem.
    apply andb_prop in Hitem as [Hgap Hwf].
    cbn [well_formed_document fst snd]. rewrite Hwf, (IH Hok), !andb_true_r.
    apply no_marker_quiet. intros j Hj. unfold render. rewrite <-!(assoc (++)).
    by apply marker_free_gap.
Qed.

(** The loop over a text of well-formed blocks finds each block, in
    order, and nothing else. *)
Lemma document_matches tail :
  ∀ items prefix fuel,
    well_formed_document items tail = true →
    length (document items tail) < fuel →
    ∃ results,
      exec_all fuel true fileRegex (prefix ++ document items tail) (length prefix)
        = Some results
      ∧ omap edit_of_match results = omap (λ item, edit_of_block item.2) items.
Proof.
  induction items as [|[gap b] items IH]; intros prefix fuel Hok Hfuel.
  - destruct fuel as [|fuel]; [lia|]. exists []. split; [|done].
    cbn [exec_all document foldr]. unfold exec.
    replace (length prefix <=? length (prefix ++ tail)) with true
      by (symmetry; apply Nat.leb_le; rewrite length_app; lia).
    rewrite drop_app_length. by rewrite search_quiet_tail.
  - destruct fuel as [|fuel]; [lia|].
    cbn [well_formed_document fst snd] in Hok.
    apply andb_prop in Hok as [[Hgap Hwf]%andb_prop Hok].
    cbn [document foldr fst snd] in *. fold (document items tail) in *.
    destruct (block_match (λ e _ c, Some (Match (length prefix + length gap) e c))
                (length prefix + length gap) b (document items tail) [] Hwf)
      as (skipped & B & Hsplit & Hskipped & Hmatch).
    specialize (Hmatch _ eq_refl).
    destruct (IH (prefix ++ gap ++ render b) fuel Hok) as (results & Hres & Hedits).
    { rewrite !length_app in Hfuel. pose proof (render_length b). lia. }
    exists (Match (length prefix + length gap)
                  (length prefix + length gap + length (render b))
                  [(2, B); (1, b_path b)] :: results).
    split.
    + cbn [exec_all]. unfold exec.
      replace (length prefix <=? _) with true
        by (symmetry; apply Nat.leb_le; rewrite length_app; lia).
      rewrite drop_app_length.
      rewrite (search_quiet gap _ _ Hgap).
      assert (Hs : search true fileRegex (length prefix + length gap)
                     (render b ++ document items tail)
                   = Some (Match (length prefix + length gap)
                                 (length prefix + length gap + length (render b))
                                 [(2, B); (1, b_path b)])).
      { destruct (render b ++ document items tail); cbn [search];
          unfold match_at; by rewrite Hmatch. }
      rewrite Hs. cbn [m_end].
      replace (length prefix + length gap + length (render b))
        with (length (prefix ++ gap ++ render b)) by (rewrite !length_app; lia).
      replace (prefix ++ gap ++ render b ++ document items tail)
        with ((prefix ++ gap ++ render b) ++ document items tail)
        by (by rewrite <-!(assoc (++))).
      by rewrite Hres.
    + cbn [omap list_omap]. fold (omap edit_of_match results).
      rewrite (edit_of_block_match b skipped B) by done.
      cbn [omap list_omap] in Hedits |- *. by rewrite Hedits.
Qed.

End DocumentFacts.

Module SoundFacts.
Import Protocol RegexFacts ParserFacts TextFacts TrimFacts DocumentFacts.

Lemma truthy_nonempty s : truthy s = true → s ≠ [].
Proof. by destruct s. Qed.

Lemma edit_of_match_sound x e : edit_of_match x = Some e → sound_edit e.
Proof.
  unfold edit_of_match.
  destruct (truthy _ && truthy _) eqn:E; [|done]. intros [= <-].
  apply andb_prop in E as [Hp Hc]. unfold sound_edit. cbn [filepath content].
  split; [by apply truthy_nonempty|]. split; [by apply truthy_nonempty|].
  apply trim_idemp.
Qed.

Lemma edit_of_alt1_sound x e : edit_of_alt1 x = Some e → sound_edit e.
Proof.
  unfold edit_of_alt1.
  destruct (_ && _) eqn:E; [|done]. intros [= <-].
  apply andb_prop in E as [[[Hp Hc]%andb_prop _]%andb_prop _].
  unfold sound_edit. cbn [filepath content].
  split; [by apply truthy_nonempty|]. split; [by apply truthy_nonempty|].
  apply trim_idemp.
Qed.

Lemma edit_of_create_sound x e : edit_of_create x = Some e → sound_edit e.
Proof.
  unfold edit_of_create.
  destruct (truthy _ && truthy _) eqn:E; [|done]. intros [= <-].
  apply andb_prop in E as [Hp Hc]. unfold sound_edit. cbn [filepath content].
  split; [by apply truthy_nonempty|]. split; [by apply truthy_nonempty|].
  apply trim_idemp.
Qed.

Lemma collect_sound f ms es :
  (∀ x e, f x = Some e → sound_edit e) →
  collect f ms = Some es → Forall sound_edit es.
Proof.
  intros Hf. destruct ms as [l|]; [|done]. intros [= <-].
  apply Forall_forall. intros e [x [_ Hx]]%list_elem_of_omap. by eapply Hf.
Qed.

Lemma file_edits_sound s es : file_edits s = Some es → Forall sound_edit es.
Proof. apply collect_sound, edit_of_match_sound. Qed.

Lemma chat_edits_sound b s es : chat_edits b s = Some es → Forall sound_edit es.
Proof.
  unfold chat_edits. destruct (file_edits s) as [files|] eqn:E1; [|done].
  apply file_edits_sound in E1.
  destruct ((length files =? 0) && b).
  - destruct (collect edit_of_alt1 _) as [files'|] eqn:E2; [|done].
    apply (collect_sound _ _ _ edit_of_alt1_sound) in E2.
    destruct ((length files' =? 0) && b).
    + apply collect_sound, edit_of_create_sound.
    + by intros [= <-].
  - destruct ((length files =? 0) && b); [|by intros [= <-]].
    apply collect_sound, edit_of_create_sound.
Qed.

(** C2 (as amended).  For a text made of N well-formed [FILE:] blocks, each
    after a stretch of text in which no block begins, and of a tail in
    which none begins, the parser returns, in the order of the blocks, the
    edit of each block whose stripped path and trimmed content are not
    empty, and nothing else; when none of the N blocks is blank, these
    are exactly N edits, each with the path of its block stripped of its
    quotes and the body of its block trimmed.  Text that does not hold the
    marker, in any case of the letters, is text in which no block
    begins. *)
Theorem file_edits_of_document items tail :
  (well_formed_document items tail = true →
   file_edits (document items tail)
   = Some (omap (λ item, edit_of_block item.2) items)
   ∧ (forallb (λ item, not_blank item.2) items = true →
      ∃ edits,
        file_edits (document items tail) = Some edits
        ∧ length edits = length items
        ∧ edits = map (λ item, Edit (unquote (trim (b_path item.2)))
                                    (trim (b_body item.2))) items))
  ∧ (forallb (λ item, marker_free item.1 && well_formed item.2) items = true →
     find_first is_marker tail = None →
     well_formed_document items tail = true).
Proof.
  split; [|intros Hitems Htail; by apply marker_free_document].
  intros Hok.
  assert (Hedits : file_edits (document items tail)
                   = Some (omap (λ item, edit_of_block item.2) items)).
  { destruct (document_matches tail items [] (S (length (document items tail))) Hok)
      as (results & Hres & Hedits); [lia|].
    unfold file_edits, matches. cbn [app length] in Hres. rewrite Hres.
    cbn [collect]. by rewrite Hedits. }
  split; [done|]. intros Hfull. eexists. split; [exact Hedits|].
  assert (Hmap : omap (λ item : text * block, edit_of_block item.2) items
                 = map (λ item, Edit (unquote (trim (b_path item.2)))
                                     (trim (b_body item.2))) items).
  { clear Hedits Hok. induction items as [|item items IH]; [done|].
    cbn [forallb] in Hfull. apply andb_prop in Hfull as [Hitem Hfull].
    cbn [omap list_omap map]. unfold edit_of_block at 1.
    unfold not_blank in Hitem. rewrite Hitem.
    rewrite (IH Hfull). done. }
  rewrite Hmap. split; [by rewrite length_map|done].
Qed.

End SoundFacts.

Module AutoFixFacts.
Import AutoFix Protocol Prompts RegexFacts ParserFacts EffectFacts SoundFacts.

Section Facts.
Context {W : Type} `{Services W}.

(** The loop body, with the calls to the world written out. *)
Lemma attempts_unfold remaining attempt project command projectFiles fixes st :
  attempts (S remaining) attempt project command projectFiles fixes st =
  let st1 := State (sys_exec command (world st)).2 (log st ++ [EExec command]) in
  match (sys_exec command (world st)).1 with
  | Throws message => Some (ServerError message fixes, st1)
  | Ok r =>
  let output := run_output_of r in
  if ro_success output then
    Some (Report true (success_message attempt)
            (fixes ++ [Success attempt (ro_output output)])
            (Some (ro_output output)), st1)
  else
    let fixes1 := fixes ++ [ErrorDetected attempt (ro_output output)] in
    match read_files project (substring0 10 projectFiles) [] st1 with
    | None => None
    | Some (fileContents, st2) =>
        let prompt := fixPrompt fileContents command (ro_output output) in
        let a := (hf_call prompt [] (world st2)).1 in
        let st3 := State (hf_call prompt [] (world st2)).2
                         (log st2 ++ [ECallHF prompt []]) in
        match a with
        | Throws message => Some (ServerError message fixes1, st3)
        | Ok aiResponse =>
            match file_edits aiResponse with
            | None => None
            | Some edits =>
                match write_fixes project edits [] st3 with
                | None => None
                | Some (fixedFiles, st4) =>
                    if 0 <? length fixedFiles then
                      attempts remaining (S attempt) project command projectFiles
                        (fixes1 ++ [AppliedFix attempt
                                      (or_else (explanation_of aiResponse)
                                               (T "Fixed the error"))
                                      fixedFiles]) st4
                    else
                      Some (Report false exhausted_message
                              (fixes1 ++ [NoFixFound attempt
                                            (substring0 500 aiResponse)])
                              None, st4)
                end
            end
        end
    end
  end.
Proof.
  cbv zeta. unfold attempts at 1; fold (attempts (W:=W)).
  unfold bind at 1, exec_cmd. rewrite call_Some.
  destruct (sys_exec _ _).1 as [r|message]; [|done].
  destruct (ro_success _); [done|].
  unfold bind at 1.
  destruct (read_files _ _ _ _) as [[fileContents st2]|]; [|done].
  unfold bind at 1, callHF. rewrite call_Some.
  destruct (hf_call _ _ _).1; [|done].
  unfold bind at 1, lift.
  destruct (file_edits _) as [edits|]; [|done].
  unfold bind at 1.
  destruct (write_fixes _ _ _ _) as [[fixedFiles st4]|]; [|done].
  by destruct (0 <? length fixedFiles).
Qed.

Lemma auto_fix_unfold project runCommand st :
  auto_fix project runCommand st =
  if negb (truthy project) then Some (BadRequest (T "Project required"), st)
  else
    let fs := (db_getAllProjectFiles project (world st)).1 in
    let st1 := State (db_getAllProjectFiles project (world st)).2
                     (log st ++ [EGetAllProjectFiles project]) in
    match fs with
    | Throws message => Some (ServerError message [], st1)
    | Ok projectFiles =>
        let command := determine_command runCommand projectFiles in
        if negb (truthy command) then
          Some (Report false no_command_message [] None, st1)
        else attempts maxAttempts 1 project command projectFiles [] st1
    end.
Proof.
  unfold auto_fix. destruct (negb (truthy project)); [done|].
  unfold bind at 1, getAllProjectFiles. rewrite call_Some. cbv zeta.
  destruct (db_getAllProjectFiles _ _).1; [|done].
  by destruct (negb (truthy _)).
Qed.

Lemma assign_length k v (o : JsObject.obj) :
  length (JsObject.assign k v o) ≤ S (length o).
Proof.
  unfold JsObject.assign. case_bool_decide; [lia|].
  induction o as [|[k' v'] o IHo]; simpl; [lia|].
  case_bool_decide; simpl; lia.
Qed.

Lemma set_keys k v (o : JsObject.obj) k0 :
  k0 ∈ (JsObject.set k v o).*1 → k0 = k ∨ k0 ∈ o.*1.
Proof.
  induction o as [|[k' v'] o IHo]; simpl.
  - intros ->%list_elem_of_singleton. by left.
  - case_bool_decide as Hk; simpl.
    + subst k'. intros [->|Hin]%elem_of_cons; [by left|].
      right. apply elem_of_cons. by right.
    + intros [->|Hin]%elem_of_cons; [right; apply elem_of_cons; by left|].
      destruct (IHo Hin) as [->|Hin']; [by left|].
      right. apply elem_of_cons. by right.
Qed.

Lemma assign_keys k v (o : JsObject.obj) k0 :
  k0 ∈ (JsObject.assign k v o).*1 → k0 = k ∨ k0 ∈ o.*1.
Proof.
  unfold JsObject.assign. case_bool_decide; [by right|]. apply set_keys.
Qed.

(** A key is held once. *)
Lemma assign_NoDup k v (o : JsObject.obj) :
  NoDup o.*1 → NoDup (JsObject.assign k v o).*1.
Proof.
  unfold JsObject.assign. case_bool_decide; [done|].
  induction o as [|[k' v'] o IHo]; simpl.
  - intros _. apply NoDup_singleton.
  - intros [Hnotin Hnd]%NoDup_cons. case_bool_decide as Hk; simpl.
    + subst k'. by apply NoDup_cons.
    + apply NoDup_cons. split; [|by apply IHo].
      intros [->|Hin]%set_keys; [done|]. by apply Hnotin.
Qed.

(** Reading the files makes no run and no call to the provider, and adds at
    most one key per file read, each the name of a file read. *)
Lemma read_files_spec project files : ∀ fileContents st,
  ∃ fileContents' st' new,
    read_files project files fileContents st = Some (fileContents', st')
    ∧ log st' = log st ++ new
    ∧ runs new = 0 ∧ prompts new = [] ∧ Forall sound_write new
    ∧ length fileContents' ≤ length fileContents + length files
    ∧ (NoDup fileContents.*1 → NoDup fileContents'.*1)
    ∧ (∀ k, k ∈ fileContents'.*1 → k ∈ fileContents.*1 ∨ k ∈ files).
Proof.
  induction files as [|file files IH]; intros fileContents st; simpl.
  - exists fileContents, st, []. rewrite app_nil_r.
    split; [done|]. split; [done|]. split; [done|]. split; [done|].
    split; [constructor|]. split; [lia|]. split; [done|]. by left.
  - unfold bind at 1, readFile. rewrite call_Some.
    set (st1 := State _ _).
    destruct (db_readFile _ _ _).1 as [content|].
    + destruct (IH (JsObject.assign file content fileContents) st1)
        as (fc' & st' & new & -> & Hlog & Hr & Hp & Hw & Hlen & Hnd & Hin).
      exists fc', st', (EReadFile project file :: new).
      split; [done|]. split; [by rewrite Hlog; subst st1; simpl; rewrite <-(assoc (++))|].
      pose proof (assign_length file content fileContents).
      split; [done|]. split; [done|]. split; [by constructor|]. split; [lia|].
      split; [intros ?; by apply Hnd, assign_NoDup|].
      intros k [[->|Hk]%assign_keys|Hk]%Hin.
      * right. apply elem_of_cons. by left.
      * by left.
      * right. apply elem_of_cons. by right.
    + destruct (IH fileContents st1)
        as (fc' & st' & new & -> & Hlog & Hr & Hp & Hw & Hlen & Hnd & Hin).
      exists fc', st', (EReadFile project file :: new).
      split; [done|]. split; [by rewrite Hlog; subst st1; simpl; rewrite <-(assoc (++))|].
      split; [done|]. split; [done|]. split; [by constructor|]. split; [lia|].
      split; [done|].
      intros k [Hk|Hk]%Hin; [by left|]. right. apply elem_of_cons. by right.
Qed.

(** Writing the fixes makes no run and no call to the provider; only the
    paths of edits are recorded. *)
Lemma write_fixes_spec project edits : ∀ fixedFiles st,
  ∃ fixedFiles' st' new,
    write_fixes project edits fixedFiles st = Some (fixedFiles', st')
    ∧ log st' = log st ++ new
    ∧ runs new = 0 ∧ prompts new = []
    ∧ (Forall sound_edit edits → Forall sound_write new)
    ∧ (edits = [] → fixedFiles' = fixedFiles ∧ st' = st).
Proof.
  induction edits as [|e edits IH]; intros fixedFiles st; simpl.
  - exists fixedFiles, st, []. rewrite app_nil_r. by repeat split.
  - unfold bind at 1, writeFile. rewrite call_Some.
    set (st1 := State _ _).
    assert (Hstep : ∀ f' st' new,
              log st' = log st1 ++ new → runs new = 0 → prompts new = [] →
              (Forall sound_edit edits → Forall sound_write new) →
              log st' = log st ++ EWriteFile project (filepath e) (content e) :: new
              ∧ runs (EWriteFile project (filepath e) (content e) :: new) = 0
              ∧ prompts (EWriteFile project (filepath e) (content e) :: new) = []
              ∧ (Forall sound_edit (e :: edits) →
                 Forall sound_write (EWriteFile project (filepath e) (content e) :: new))
              ∧ (e :: edits = [] → f' = fixedFiles ∧ st' = st)).
    { intros f' st' new Hlog Hr Hp Hw.
      split; [by rewrite Hlog; subst st1; simpl; rewrite <-(assoc (++))|].
      split; [done|]. split; [done|]. split; [|by intros [=]].
      intros [(Hp' & Hc' & _) He]%Forall_cons. constructor; [done|]. by apply Hw. }
    destruct (db_writeFile _ _ _ _).1 as [[]|].
    + destruct (IH (fixedFiles ++ [filepath e]) st1)
        as (f' & st' & new & -> & Hlog & Hr & Hp & Hw & _).
      exists f', st', (EWriteFile project (filepath e) (content e) :: new).
      split; [done|]. by apply Hstep.
    + destruct (IH fixedFiles st1) as (f' & st' & new & -> & Hlog & Hr & Hp & Hw & _).
      exists f', st', (EWriteFile project (filepath e) (content e) :: new).
      split; [done|]. by apply Hstep.
Qed.

End Facts.

Lemma insert_sorted_length e l :
  length (JsObject.insert_sorted e l) = S (length l).
Proof.
  induction l as [|e' l IH]; simpl; [done|].
  destruct (N.leb _ _); simpl; by rewrite ?IH.
Qed.

(** [Object.entries] lists every key once. *)
Lemma entries_length (o : JsObject.obj) : length (JsObject.entries o) = length o.
Proof.
  unfold JsObject.entries, JsObject.indexed, JsObject.named.
  rewrite length_app, length_map.
  assert (Hs : ∀ l, length (foldr JsObject.insert_sorted [] l) = length l).
  { induction l as [|e l IH]; simpl; [done|]. by rewrite insert_sorted_length, IH. }
  rewrite Hs. clear Hs.
  induction o as [|e o IH]; [done|].
  rewrite filter_cons. cbn [omap list_omap].
  destruct (JsObject.index_of_key e.1) eqn:E.
  - rewrite decide_False by done. simpl in *. lia.
  - rewrite decide_True by done. simpl in *. lia.
Qed.

Lemma insert_sorted_perm e l : JsObject.insert_sorted e l ≡ₚ e :: l.
Proof.
  induction l as [|e' l IH]; simpl; [done|].
  destruct (N.leb _ _); [done|]. rewrite IH. apply Permutation_swap.
Qed.

(** [Object.entries] lists the properties of the object, in its order. *)
Lemma entries_perm (o : JsObject.obj) : JsObject.entries o ≡ₚ o.
Proof.
  unfold JsObject.entries, JsObject.indexed, JsObject.named.
  assert (Hs : ∀ l, foldr JsObject.insert_sorted [] l ≡ₚ l).
  { induction l as [|e l IH]; simpl; [done|]. by rewrite insert_sorted_perm, IH. }
  rewrite Hs. clear Hs.
  induction o as [|e o IH]; [done|].
  rewrite filter_cons. cbn [omap list_omap].
  destruct (JsObject.index_of_key e.1) eqn:E.
  - rewrite decide_False by done. cbn [fmap option_fmap option_map map snd app].
    by rewrite IH.
  - rewrite decide_True by done. cbn [fmap option_fmap option_map].
    rewrite <-Permutation_middle. by rewrite IH.
Qed.

Lemma fixPrompt_bounded names fileContents command errorOutput :
  length fileContents ≤ 10 →
  NoDup fileContents.*1 →
  (∀ k, k ∈ fileContents.*1 → k ∈ names) →
  bounded_prompt names 10 3000 command (fixPrompt fileContents command errorOutput).
Proof.
  intros Hlen Hnd Hin.
  exists (map (λ e, (e.1, substring0 3000 e.2)) (JsObject.entries fileContents)),
         errorOutput.
  assert (Hkeys : (map (λ e : text * text, (e.1, substring0 3000 e.2))
                       (JsObject.entries fileContents)).*1 ≡ₚ fileContents.*1).
  { rewrite <-(entries_perm fileContents) at 2.
    rewrite <-list_fmap_compose. done. }
  split; [|split; [|split; [|split]]].
  - unfold fixPrompt. by rewrite map_map.
  - by rewrite length_map, entries_length.
  - apply Forall_map, Forall_forall. intros e _. cbn [snd].
    unfold substring0. rewrite length_take. lia.
  - by rewrite Hkeys.
  - apply Forall_forall. intros e He. apply Hin. rewrite <-Hkeys.
    by apply list_elem_of_fmap_2.
Qed.

Section Loop.
Context {W : Type} `{Services W}.

(** What every run of the loop does, entered at [attempt] with [remaining]
    rounds to go: it answers; it runs the command at most [remaining]
    times; it only adds to the history, at least one entry when it makes a
    round whose run is started, and none when [exec] throws on that run;
    the entries are numbered within the rounds left; and every prompt it
    submits is a bounded repair prompt. *)
Lemma attempts_spec project command projectFiles : ∀ remaining attempt fixes st,
  ∃ resp st' new added,
    attempts remaining attempt project command projectFiles fixes st = Some (resp, st')
    ∧ log st' = log st ++ new
    ∧ runs new ≤ remaining
    ∧ fixes_of resp = fixes ++ added
    ∧ (∀ r, 0 < remaining → (sys_exec command (world st)).1 = Ok r →
         0 < length added)
    ∧ (∀ message, 0 < remaining →
         (sys_exec command (world st)).1 = Throws message →
         resp = ServerError message fixes)
    ∧ Forall (λ f, attempt ≤ attempt_of f < attempt + remaining) added
    ∧ Forall (bounded_prompt (substring0 10 projectFiles) 10 3000 command)
             (prompts new)
    ∧ Forall sound_write new.
Proof.
  induction remaining as [|remaining IH]; intros attempt fixes st.
  { exists (Report false exhausted_message fixes None), st, [], [].
    simpl. rewrite !app_nil_r.
    split; [done|]. split; [done|]. split; [done|]. split; [done|].
    split; [intros ??; lia|]. split; [intros ??; lia|].
    split; [constructor|]. split; constructor. }
  rewrite attempts_unfold. cbv zeta.
  set (st1 := State _ _).
  destruct (sys_exec command (world st)).1 as [r|message].
  2:{ eexists _, _, [EExec command], []. rewrite app_nil_r.
      split; [done|]. split; [done|].
      split; [rewrite runs_cons, runs_nil; simpl; lia|]. split; [done|].
      split; [by intros ? _ [=]|]. split; [by intros ? _ [= ->]|].
      split; [constructor|]. split; [done|]. by constructor. }
  destruct (ro_success (run_output_of r)).
  { eexists _, _, [EExec command], [_]. split; [done|]. split; [done|].
    split; [rewrite runs_cons, runs_nil; simpl; lia|]. split; [done|].
    split; [simpl; lia|]. split; [by intros ? _ [=]|].
    split; [constructor; [simpl; lia|done]|]. split; [done|].
    by constructor. }
  destruct (read_files_spec project (substring0 10 projectFiles) [] st1)
    as (fc & st2 & new2 & -> & Hlog2 & Hr2 & Hp2 & Hw2 & Hlen2 & Hnd2 & Hin2).
  assert (Hfc : length fc ≤ 10).
  { unfold substring0 in Hlen2. rewrite length_take in Hlen2.
    change (length (@nil (text * text))) with 0 in Hlen2. lia. }
  set (prompt := fixPrompt fc command _).
  set (st3 := State _ _).
  assert (Hlog3 : log st3 = log st ++ [EExec command] ++ new2 ++ [ECallHF prompt []]).
  { subst st3. simpl. rewrite Hlog2. subst st1. simpl. by rewrite <-!(assoc (++)). }
  assert (Hbp : bounded_prompt (substring0 10 projectFiles) 10 3000 command prompt).
  { apply fixPrompt_bounded; [done|apply Hnd2; constructor|].
    intros k [Hk|Hk]%Hin2; [|done]. by apply elem_of_nil in Hk. }
  destruct (hf_call prompt [] (world st2)).1 as [aiResponse|message].
  2:{ eexists _, st3, _, [_]. split; [done|]. split; [exact Hlog3|].
      rewrite !runs_app, !prompts_app, Hr2, Hp2, !runs_cons, !runs_nil. simpl.
      split; [lia|]. split; [done|]. split; [lia|]. split; [by intros ? _ [=]|].
      split; [constructor; [simpl; lia|done]|]. split; [by constructor|].
      constructor; [done|]. apply Forall_app. split; [done|by constructor]. }
  destruct (file_edits_total aiResponse) as [edits Hedits].
  pose proof (file_edits_sound _ _ Hedits) as Hsound. rewrite Hedits.
  destruct (write_fixes_spec project edits [] st3)
    as (fixed & st4 & new4 & -> & Hlog4 & Hr4 & Hp4 & Hw4 & _).
  specialize (Hw4 Hsound).
  assert (Hw : ∀ rest, Forall sound_write rest →
            Forall sound_write
              ([EExec command] ++ new2 ++ [ECallHF prompt []] ++ new4 ++ rest)).
  { intros rest Hrest. constructor; [done|]. apply Forall_app. split; [done|].
    constructor; [done|]. apply Forall_app. by split. }
  destruct (0 <? length fixed).
  - destruct (IH (S attempt)
        ((fixes ++ [ErrorDetected attempt (ro_output (run_output_of r))]) ++
         [AppliedFix attempt (or_else (explanation_of aiResponse) (T "Fixed the error")) fixed])
        st4)
      as (resp & st' & new & added & -> & Hlog & Hr & Hf & _ & _ & Hatt & Hbound & Hwr).
    exists resp, st',
      ([EExec command] ++ new2 ++ [ECallHF prompt []] ++ new4 ++ new),
      ([ErrorDetected attempt (ro_output (run_output_of r));
        AppliedFix attempt (or_else (explanation_of aiResponse) (T "Fixed the error")) fixed]
       ++ added).
    split; [done|]. split.
    { rewrite Hlog, Hlog4, Hlog3. by rewrite <-!(assoc (++)). }
    rewrite !runs_app, !prompts_app, Hr2, Hp2, Hr4, Hp4, !runs_cons, !runs_nil. simpl.
    split; [lia|]. split; [by rewrite Hf, <-!(assoc (++))|].
    split; [lia|]. split; [by intros ? _ [=]|]. split; [|split].
    + constructor; [simpl; lia|]. constructor; [simpl; lia|].
      eapply Forall_impl; [exact Hatt|]. simpl. intros; lia.
    + by constructor.
    + by apply Hw.
  - eexists _, st4, ([EExec command] ++ new2 ++ [ECallHF prompt []] ++ new4),
      [ErrorDetected attempt (ro_output (run_output_of r));
       NoFixFound attempt (substring0 500 aiResponse)].
    split; [done|]. split.
    { rewrite Hlog4, Hlog3. by rewrite <-!(assoc (++)). }
    rewrite !runs_app, !prompts_app, Hr2, Hp2, Hr4, Hp4, !runs_cons, !runs_nil. simpl.
    split; [lia|]. split; [by rewrite <-!(assoc (++))|].
    split; [lia|]. split; [by intros ? _ [=]|]. split; [|split].
    + constructor; [simpl; lia|]. constructor; [simpl; lia|]. constructor.
    + by constructor.
    + specialize (Hw [] ltac:(constructor)). by rewrite !app_nil_r in Hw.
Qed.

(** C1 (as amended).  Every invocation answers and runs the command at most
    [maxAttempts] = 5 times, and every entry of the history it returns is
    numbered from 1 to 5.  For a request that names a project whose files
    can be listed: when a run command is given or determined from the file
    names and [exec] starts the first run, the history returned is not
    empty, whatever the outcome (success, exhaustion, no fix found, a
    failure of the provider, or [exec] throwing on a later run); when
    [exec] throws on the first run, the answer is status 500 with the
    message thrown and an empty history; and when no run command is given
    and none can be determined, the request is abandoned with an empty
    history and nothing is run.  A request without a project is answered
    with status 400 and no history, and one whose files cannot be listed
    with status 500 and an empty history. *)
Theorem auto_fix_attempts_bounded project runCommand st :
  ∃ resp st' new,
    auto_fix project runCommand st = Some (resp, st')
    ∧ log st' = log st ++ new
    ∧ runs new ≤ maxAttempts
    ∧ Forall (λ f, 1 ≤ attempt_of f ≤ maxAttempts) (fixes_of resp)
    ∧ (∀ projectFiles w1 command,
         truthy project = true →
         db_getAllProjectFiles project (world st) = (Ok projectFiles, w1) →
         command = determine_command runCommand projectFiles →
         (truthy command = true →
          (∀ r, (sys_exec command w1).1 = Ok r → 1 ≤ length (fixes_of resp))
          ∧ (∀ message, (sys_exec command w1).1 = Throws message →
               resp = ServerError message []))
         ∧ (truthy command = false →
            resp = Report false no_command_message [] None ∧ runs new = 0))
    ∧ (truthy project = false → resp = BadRequest (T "Project required"))
    ∧ (∀ message,
         truthy project = true →
         (db_getAllProjectFiles project (world st)).1 = Throws message →
         resp = ServerError message []).
Proof.
  rewrite auto_fix_unfold. destruct (truthy project); simpl negb; cbv iota.
  2:{ exists (BadRequest (T "Project required")), st, []. rewrite app_nil_r.
      split; [done|]. split; [done|]. split; [rewrite runs_nil; lia|].
      split; [constructor|]. split; [intros ??? [=]|]. split; [done|].
      intros ? [=]. }
  cbv zeta. set (st1 := State _ _).
  destruct (db_getAllProjectFiles project (world st)) as [fs w1'] eqn:Hfs.
  cbn [fst snd] in *. destruct fs as [projectFiles|message].
  2:{ exists (ServerError message []), st1, [EGetAllProjectFiles project].
      split; [done|]. split; [done|]. split; [rewrite runs_cons, runs_nil; simpl; lia|].
      split; [constructor|]. split; [intros ??? _ [=]|]. split; [done|].
      by intros ? _ [= ->]. }
  destruct (truthy (determine_command runCommand projectFiles)) eqn:Hc;
    simpl negb; cbv iota.
  2:{ exists (Report false no_command_message [] None), st1,
        [EGetAllProjectFiles project].
      split; [done|]. split; [done|]. split; [rewrite runs_cons, runs_nil; simpl; lia|].
      split; [constructor|]. split; [|done].
      intros ??? _ [= <- <-] ->. rewrite Hc.
      split; [done|]. intros _. split; [done|]. by rewrite runs_cons, runs_nil. }
  destruct (attempts_spec project (determine_command runCommand projectFiles)
              projectFiles maxAttempts 1 [] st1)
    as (resp & st' & new & added & -> & Hlog & Hr & Hf & Hne & Hthrow & Hatt & _ & _).
  exists resp, st', (EGetAllProjectFiles project :: new).
  split; [done|]. split; [by rewrite Hlog; subst st1; simpl; rewrite <-(assoc (++))|].
  split; [rewrite runs_cons; simpl; lia|].
  simpl in Hf. rewrite Hf. split; [|split; [|done]].
  - eapply Forall_impl; [exact Hatt|]. simpl. unfold maxAttempts. intros; lia.
  - intros ??? _ [= <- <-] ->. rewrite Hc. split; [|done]. intros _. split.
    + intros r Hexec. apply (Hne r); [unfold maxAttempts; lia|done].
    + intros message Hexec. apply Hthrow; [unfold maxAttempts; lia|done].
Qed.

(** C3.  In a repair cycle in which the command fails and the answer of the
    provider holds no file edit, the loop ends at once: the cycle's run is
    the last one, the outcome is the exhausted report ([success] false),
    and the last entry of the history is [NoFixFound]. *)
Theorem no_fix_found_terminates remaining attempt project command projectFiles
    fixes st r w1 fileContents st2 aiResponse w3 :
  sys_exec command (world st) = (Ok r, w1) →
  ro_success (run_output_of r) = false →
  read_files project (substring0 10 projectFiles) []
    (State w1 (log st ++ [EExec command])) = Some (fileContents, st2) →
  hf_call (fixPrompt fileContents command (ro_output (run_output_of r))) []
    (world st2) = (Ok aiResponse, w3) →
  file_edits aiResponse = Some [] →
  ∃ st' history,
    attempts (S remaining) attempt project command projectFiles fixes st
      = Some (Report false exhausted_message history None, st')
    ∧ last history = Some (NoFixFound attempt (substring0 500 aiResponse))
    ∧ history = fixes ++ [ErrorDetected attempt (ro_output (run_output_of r));
                          NoFixFound attempt (substring0 500 aiResponse)]
    ∧ runs (log st') = runs (log st) + 1.
Proof.
  intros Hexec Hfail Hread Hcall Hedits.
  rewrite attempts_unfold. cbv zeta. rewrite Hexec. cbn [fst snd].
  rewrite Hfail, Hread. cbv beta iota. rewrite Hcall. cbn [fst snd].
  rewrite Hedits. cbn [write_fixes]. unfold ret. cbn [length Nat.ltb Nat.leb].
  eexists _, _. split; [reflexivity|].
  split; [by rewrite last_snoc|]. split; [by rewrite <-(assoc (++))|].
  destruct (read_files_spec project (substring0 10 projectFiles) []
              (State w1 (log st ++ [EExec command])))
    as (fc' & st2' & new & Hread' & Hlog & Hr & _).
  rewrite Hread in Hread'. injection Hread' as <- <-.
  rewrite Hlog. simpl. rewrite !runs_app, Hr, !runs_cons, !runs_nil. simpl. lia.
Qed.

(** C4.  When the first run of the chosen command reports no failure, one
    entry is recorded, it is [Success], and the only calls made are the
    listing of the files and that run: the provider is not called. *)
Theorem first_run_success project runCommand st projectFiles w1 r w2 :
  truthy project = true →
  db_getAllProjectFiles project (world st) = (Ok projectFiles, w1) →
  truthy (determine_command runCommand projectFiles) = true →
  sys_exec (determine_command runCommand projectFiles) w1 = (Ok r, w2) →
  error r = None →
  ∃ st' output,
    auto_fix project runCommand st
      = Some (Report true (success_message 1) [Success 1 output] (Some output), st')
    ∧ log st' = log st ++ [EGetAllProjectFiles project;
                           EExec (determine_command runCommand projectFiles)]
    ∧ provider_calls (log st') = provider_calls (log st).
Proof.
  intros Hp Hfiles Hc Hexec Herr.
  rewrite auto_fix_unfold, Hp. simpl negb. cbv iota zeta.
  rewrite Hfiles. cbn [fst snd]. rewrite Hc. simpl negb. cbv iota.
  unfold maxAttempts. rewrite attempts_unfold. cbv zeta. cbn [world].
  rewrite Hexec. cbn [fst snd].
  unfold run_output_of at 1. rewrite Herr. cbn [ro_success]. 
  rewrite bool_decide_false by (by intros [? [=]]). cbn [negb].
  eexists _, _. split; [reflexivity|]. simpl log.
  split; [by rewrite <-(assoc (++))|].
  by rewrite <-(assoc (++)), provider_calls_app, Nat.add_0_r.
Qed.

(** C8.  Every prompt an invocation submits to the provider is a repair
    prompt for the command chosen that embeds at most 10 files, each once
    and each among the first ten the project lists, and at most 3000
    characters of each, whatever the number and the size of the project's
    files. *)
Theorem repair_prompts_bounded project runCommand st :
  ∃ resp st' new,
    auto_fix project runCommand st = Some (resp, st')
    ∧ log st' = log st ++ new
    ∧ Forall (λ prompt, ∃ projectFiles,
                (db_getAllProjectFiles project (world st)).1 = Ok projectFiles
                ∧ bounded_prompt (substring0 10 projectFiles) 10 3000
                    (determine_command runCommand projectFiles) prompt)
             (prompts new).
Proof.
  rewrite auto_fix_unfold. destruct (truthy project); simpl negb; cbv iota.
  2:{ exists (BadRequest (T "Project required")), st, []. rewrite app_nil_r.
      split; [done|]. split; [done|]. constructor. }
  cbv zeta. set (st1 := State _ _).
  destruct (db_getAllProjectFiles project (world st)).1 as [projectFiles|message].
  2:{ exists (ServerError message []), st1, [EGetAllProjectFiles project].
      split; [done|]. split; [done|]. constructor. }
  destruct (truthy (determine_command runCommand projectFiles)) eqn:Hc;
    simpl negb; cbv iota.
  2:{ exists (Report false no_command_message [] None), st1,
        [EGetAllProjectFiles project].
      split; [done|]. split; [done|]. constructor. }
  destruct (attempts_spec project (determine_command runCommand projectFiles)
              projectFiles maxAttempts 1 [] st1)
    as (resp & st' & new & added & -> & Hlog & _ & _ & _ & _ & _ & Hb & _).
  exists resp, st', (EGetAllProjectFiles project :: new).
  split; [done|]. split; [by rewrite Hlog; subst st1; simpl; rewrite <-(assoc (++))|].
  simpl. eapply Forall_impl; [exact Hb|]. simpl. eauto.
Qed.

End Loop.
End AutoFixFacts.

Module DirectiveFacts.
Import AutoFix Protocol Prompts ParserFacts EffectFacts SoundFacts AutoFixFacts.

Section Facts.
Context {W : Type} `{Services W}.

(** C9.  Every edit a parsed directive holds, under the [FILE:] grammar and
    under the fallbacks of the chat endpoint, has a path and a content that
    are not empty, the content being trimmed; a match whose body or whose
    path trims to the empty text gives no edit; and every file an
    auto-repair invocation writes has a path and a content that are not
    empty. *)
Theorem parsed_edits_sound (s : text) (fileOp : bool) (x : result)
    (project runCommand : text) (st : state W) :
  (∃ es, file_edits s = Some es ∧ Forall sound_edit es)
  ∧ (∃ es, chat_edits fileOp s = Some es ∧ Forall sound_edit es)
  ∧ (trim (group 2 x) = [] ∨ trim (group 1 x) = [] → edit_of_match x = None)
  ∧ (∃ resp st' new,
       auto_fix project runCommand st = Some (resp, st')
       ∧ log st' = log st ++ new ∧ Forall sound_write new).
Proof.
  split; [|split; [|split]].
  - destruct (file_edits_total s) as [es Hes]. exists es.
    split; [done|]. by eapply file_edits_sound.
  - destruct (chat_edits_total fileOp s) as [es Hes]. exists es.
    split; [done|]. by eapply chat_edits_sound.
  - unfold edit_of_match. intros [-> | ->].
    + by rewrite andb_false_r.
    + done.
  - rewrite auto_fix_unfold. destruct (truthy project); simpl negb; cbv iota.
    2:{ exists (BadRequest (T "Project required")), st, []. rewrite app_nil_r.
        split; [done|]. split; [done|]. constructor. }
    cbv zeta. set (st1 := State _ _).
    destruct (db_getAllProjectFiles project (world st)).1 as [projectFiles|message].
    2:{ exists (ServerError message []), st1, [EGetAllProjectFiles project].
        split; [done|]. split; [done|]. by constructor. }
    destruct (truthy (determine_command runCommand projectFiles)); simpl negb; cbv iota.
    2:{ exists (Report false no_command_message [] None), st1,
          [EGetAllProjectFiles project].
        split; [done|]. split; [done|]. by constructor. }
    destruct (attempts_spec project (determine_command runCommand projectFiles)
                projectFiles maxAttempts 1 [] st1)
      as (resp & st' & new & added & -> & Hlog & _ & _ & _ & _ & _ & _ & Hw).
    exists resp, st', (EGetAllProjectFiles project :: new).
    split; [done|].
    split; [by rewrite Hlog; subst st1; simpl; rewrite <-(assoc (++))|].
    by constructor.
Qed.

End Facts.
End DirectiveFacts.

Module TerminalFacts.
Import Terminal EffectFacts.

Section Facts.
Context {W : Type} `{Services W}.

Lemma run_unfold command project sv st :
  run (Some command) project sv st =
  if isServerCommand command then
    let c := (sys_spawn (server_cmd command) (world st)).1 in
    let st1 := State (sys_spawn (server_cmd command) (world st)).2
                     (log st ++ [ESpawn (server_cmd command)]) in
    match c with
    | Throws message => Some ((Status500 message, sv), st1)
    | Ok (Spawned (Some (S p')) output hasOutput) =>
        Some ((Background (server_message (port_of command) (S p') output hasOutput)
                          (T "http://localhost:" ++ port_of command),
               Server (previewServers sv)
                      (JsMap.set (key_of project) (Child (Some (S p')))
                                 (runningProcesses sv))), st1)
    | Ok (Spawned _ output _) =>
        Some ((Output (or_else output (T "Command failed to start")) true, sv), st1)
    | Ok (SpawnError message) =>
        Some ((Output (T "Error starting server: " ++ message) true, sv), st1)
    end
  else
    let r := (sys_exec (regular_cmd command) (world st)).1 in
    let st1 := State (sys_exec (regular_cmd command) (world st)).2
                     (log st ++ [EExec (regular_cmd command)]) in
    match r with
    | Throws message => Some ((Status500 message, sv), st1)
    | Ok r =>
        match error r with
        | Some message =>
            Some ((Output (or_else (stderr r) (or_else (stdout r) message)) true,
                   sv), st1)
        | None =>
            Some ((Output (or_else (stdout r)
                             (or_else (stderr r)
                                      (T "Command executed successfully")))
                          false, sv), st1)
        end
    end.
Proof.
  unfold run. destruct (isServerCommand command); cbv zeta.
  - unfold bind, spawn_cmd. rewrite call_Some.
    by destruct (sys_spawn _ _).1 as [[[[|?]|] ? ?|?]|?].
  - unfold bind, exec_cmd. rewrite call_Some.
    destruct (sys_exec _ _).1 as [r|?]; [|done]. by destruct (error _).
Qed.

Lemma kill_unfold p sv st :
  kill (Some (S p)) sv st =
  let command := T "taskkill /F /PID " ++ show_nat (S p) in
  let r := (sys_exec command (world st)).1 in
  let st1 := State (sys_exec command (world st)).2 (log st ++ [EExec command]) in
  match r with
  | Throws message => Some ((Status500 message, sv), st1)
  | Ok r =>
      match error r with
      | Some message =>
          Some ((KillFailed (T "Could not kill process: " ++
                             or_else (stderr r) message), sv), st1)
      | None =>
          match remove_tracked (S p) (runningProcesses sv) (runningProcesses sv)
                  st1 with
          | Some (tracked, st2) =>
              Some ((Outcome true (T "Process " ++ show_nat (S p) ++ T " killed"),
                     Server (previewServers sv) tracked), st2)
          | None => None
          end
      end
  end.
Proof.
  unfold kill. unfold bind at 1, exec_cmd. rewrite call_Some. cbv zeta.
  destruct (sys_exec _ _).1 as [r|?]; [|done].
  destruct (error _); [done|].
  unfold bind. by destruct (remove_tracked _ _ _ _) as [[??]|].
Qed.

(** No handler adds a preview server. *)
Lemma handle_previewServers q sv st r sv' st' :
  handle q sv st = Some ((r, sv'), st') →
  previewServers sv = [] → previewServers sv' = [].
Proof.
  destruct q as [[command|] project|project requestedPort|project|[[|p]|]|];
    cbn [handle].
  - rewrite run_unfold. cbv zeta.
    destruct (isServerCommand command).
    + destruct (sys_spawn _ _).1 as [[[[|?]|] ? ?|?]|?]; by intros [= <- <- <-].
    + destruct (sys_exec _ _).1 as [r0|?]; [|by intros [= <- <- <-]].
      destruct (error _); by intros [= <- <- <-].
  - by intros [= <- <- <-].
  - unfold host. destruct (negb (truthy project)); by intros [= <- <- <-].
  - unfold stop. destruct (negb (truthy project)); [by intros [= <- <- <-]|].
    intros E Hp. rewrite Hp in E. simpl in E. by injection E as <- <- <-.
  - by intros [= <- <- <-].
  - rewrite kill_unfold. cbv zeta.
    destruct (sys_exec _ _).1 as [r0|?]; [|by intros [= <- <- <-]].
    destruct (error _); [by intros [= <- <- <-]|].
    destruct (remove_tracked _ _ _ _) as [[??]|]; [|done]. by intros [= <- <- <-].
  - by intros [= <- <- <-].
  - by intros [= <- <- <-].
Qed.

(** C5.  When the termination command fails, the request is answered with
    a failure ([success] false with the error text), nothing is thrown,
    and the memory of the server, the process registry included, is what it
    was; no tracked child is killed. *)
Theorem kill_failure_leaves_registry p sv st r w' message :
  sys_exec (T "taskkill /F /PID " ++ show_nat (S p)) (world st) = (Ok r, w') →
  error r = Some message →
  kill (Some (S p)) sv st
  = Some ((KillFailed (T "Could not kill process: " ++ or_else (stderr r) message),
           sv),
          State w' (log st ++ [EExec (T "taskkill /F /PID " ++ show_nat (S p))])).
Proof.
  intros Hexec Herr. rewrite kill_unfold. cbv zeta. rewrite Hexec. cbn [fst snd].
  by rewrite Herr.
Qed.

(** C6 (as amended).  A regular command that [exec] starts and that fails
    is answered with a value, [{ output, error: true }], whose output is
    the captured stderr if there is any, else the captured stdout, else the
    message of the error, and the memory of the server is unchanged; the
    run of the auto-repair loop reports such a failure as a value too, with
    stdout first, then stderr, then the message.  A command that [exec]
    refuses by throwing is not reported in this way: the terminal handler
    catches the exception and answers status 500 with its message, and the
    auto-repair loop ends with status 500, the message and the history
    recorded so far. *)
Theorem regular_failure_reported command project sv (st : state W) :
  (isServerCommand command = false →
   (∀ r w' message,
      sys_exec (regular_cmd command) (world st) = (Ok r, w') →
      error r = Some message →
      run (Some command) project sv st
      = Some ((Output (or_else (stderr r) (or_else (stdout r) message)) true, sv),
              State w' (log st ++ [EExec (regular_cmd command)])))
   ∧ (∀ w' message,
        sys_exec (regular_cmd command) (world st) = (Throws message, w') →
        run (Some command) project sv st
        = Some ((Status500 message, sv),
                State w' (log st ++ [EExec (regular_cmd command)]))))
  ∧ (∀ r message,
       error r = Some message →
       AutoFix.run_output_of r
       = AutoFix.RunOutput false
           (or_else (stdout r) (or_else (stderr r) message)))
  ∧ (∀ w' message remaining attempt projectFiles fixes,
       sys_exec command (world st) = (Throws message, w') →
       AutoFix.attempts (S remaining) attempt project command projectFiles
         fixes st
       = Some (AutoFix.ServerError message fixes,
               State w' (log st ++ [EExec command]))).
Proof.
  split; [|split].
  - intros Hs. split.
    + intros r w' message Hexec Herr.
      rewrite run_unfold, Hs. cbv zeta. rewrite Hexec. cbn [fst snd].
      by rewrite Herr.
    + intros w' message Hexec. rewrite run_unfold, Hs. cbv zeta.
      by rewrite Hexec.
  - intros r message Herr. unfold AutoFix.run_output_of. rewrite Herr.
    cbn [default]. by rewrite bool_decide_true by by eexists.
  - intros w' message remaining attempt projectFiles fixes Hexec.
    rewrite AutoFixFacts.attempts_unfold. cbv zeta. by rewrite Hexec.
Qed.

(** C10 (as amended).  In every state the server can reach, the map of
    preview servers is empty; a host request that carries a project is
    answered with a failure and changes nothing; a stop request that
    carries a project is answered with [success] false and the message
    that no preview server is running for the project; and a host or stop
    request that carries no project is answered with status 400, without
    a [success] field, and changes nothing either. *)
Theorem preview_servers_always_empty sv :
  reachable (W:=W) sv →
  previewServers sv = []
  ∧ (∀ project requestedPort (st : state W),
       truthy project = true →
       host project requestedPort sv st
       = Some ((Outcome false preview_unavailable, sv), st))
  ∧ (∀ project (st : state W),
       truthy project = true →
       stop project sv st
       = Some ((Outcome false no_preview_running, sv), st))
  ∧ (∀ project requestedPort (st : state W),
       truthy project = false →
       host project requestedPort sv st
       = Some ((Status400 (T "Project required"), sv), st)
       ∧ stop project sv st
         = Some ((Status400 (T "Project required"), sv), st)).
Proof.
  intros Hr.
  assert (Hp : previewServers sv = []).
  { induction Hr as [|q sv st r sv' st' _ IH Hh|project sv _ IH]; [done| |done].
    by eapply handle_previewServers. }
  split; [done|]. split; [|split].
  - intros project requestedPort st Hproj. unfold host. by rewrite Hproj.
  - intros project st Hproj. unfold stop. by rewrite Hproj, Hp.
  - intros project requestedPort st Hproj. unfold host, stop. by rewrite Hproj.
Qed.

End Facts.
End TerminalFacts.

Module PhraseFacts.
Import Phrases RegexFacts MatchFacts TextFacts BlockFacts.

#[local] Arguments is_char : simpl never.
#[local] Arguments lit_eq : simpl never.
#[local] Arguments is_space : simpl never.
#[local] Arguments is_word : simpl never.
#[local] Arguments is_quote : simpl never.
#[local] Arguments not_space_quote : simpl never.

Lemma word_is_path_char y : is_word y = true → not_space_quote y = true.
Proof. each_char y. Qed.

Lemma word_not_dot y : is_word y = true → lit_eq true dot y = false.
Proof. each_char y. Qed.

Lemma end_not_dot y : is_space y || is_quote y = true → lit_eq true dot y = false.
Proof. each_char y. Qed.

Lemma end_not_word y : is_space y || is_quote y = true → is_word y = false.
Proof. each_char y. Qed.

Lemma end_not_path_char y :
  is_space y || is_quote y = true → not_space_quote y = false.
Proof. unfold not_space_quote. by intros ->. Qed.

Lemma path_char_not_space y : not_space_quote y = true → is_space y = false.
Proof. each_char y. Qed.

Lemma path_char_not_quote y : not_space_quote y = true → is_quote y = false.
Proof. each_char y. Qed.

Section Phrase.
Context {R : Type}.

Lemma m_Alt_l ci r1 r2 (k : cont R) pos s c x :
  m ci r1 k pos s c = Some x → m ci (Alt r1 r2) k pos s c = Some x.
Proof. intros E. cbn [m]. by rewrite E. Qed.

Lemma m_Alt_r ci r1 r2 (k : cont R) pos s c :
  m ci r1 k pos s c = None → m ci (Alt r1 r2) k pos s c = m ci r2 k pos s c.
Proof. intros E. cbn [m]. by rewrite E. Qed.

(** A word of the phrase and the white space after it. *)
Lemma word_space ci (w : text) (k : cont R) pos gap s c x :
  truthy gap = true → forallb is_space gap = true →
  match s with y :: _ => is_space y = false | [] => True end →
  k (pos + length w + length gap) s c = Some x →
  m ci (Cat (Str w) (plus is_space)) k pos (w ++ gap ++ s) c = Some x.
Proof.
  intros Hne Hgap Hs Hk. rewrite m_Cat_parts, m_Str, lits_match_self, drop_app_length.
  unfold plus. cbn [m].
  apply (rep_greedy_at _ _ _ _ _ (length gap) (length gap)).
  - by rewrite take_app_length.
  - rewrite length_app. lia.
  - by rewrite drop_app_length.
  - destruct gap; [done|simpl; lia].
  - lia.
  - intros; lia.
  - by rewrite drop_app_length.
Qed.

End Phrase.

Lemma search_here ci r pos s x :
  match_at ci r pos s = Some x → search ci r pos s = Some x.
Proof. intros E. destruct s; cbn [search]; by rewrite E. Qed.

(** The path [name.ext] after the words of the delete phrasing is captured
    whole. *)
Lemma delete_phrase_match name ext rest :
  truthy name = true → forallb not_space_quote name = true →
  truthy ext = true → forallb is_word ext = true →
  ends_path rest = true →
  ∃ en,
    match_ true deleteRegex (T "delete the file " ++ name ++ [dot] ++ ext ++ rest)
    = Some (Match 0 en [(1, name ++ [dot] ++ ext)]).
Proof.
  intros Hname Hnamec Hext Hextc Hrest.
  set (P := name ++ [dot] ++ ext).
  (* the optional quote that ends the pattern *)
  assert (Hend : ∀ pos c, ∃ en,
            m true (Opt (Cls is_quote)) (λ e _ c', Some (Match 0 e c')) pos rest c
            = Some (Match 0 en c)).
  { intros pos c. unfold Opt. cbn [m]. destruct rest as [|y rest']; [by eexists|].
    destruct (is_quote y); by eexists. }
  destruct (Hend (16 + length P) [(1, P)]) as [en Hen].
  exists en.
  assert (Hhead : match P ++ rest with y :: _ => is_space y = false | [] => True end).
  { subst P. destruct name as [|y name]; [done|]. cbn [app].
    cbn [forallb] in Hnamec. apply andb_prop in Hnamec as [Hy _].
    by apply path_char_not_space. }
  unfold match_, exec. cbn [Nat.leb drop].
  change (T "delete the file " ++ name ++ [dot] ++ ext ++ rest)
    with (T "delete" ++ T " " ++ T "the" ++ T " " ++ T "file" ++ T " " ++ (name ++ [dot] ++ ext ++ rest)).
  replace (name ++ [dot] ++ ext ++ rest) with (P ++ rest)
    by (subst P; by rewrite <-!(assoc (++))).
  assert (Hm : match_at true deleteRegex 0
                 (T "delete" ++ T " " ++ T "the" ++ T " " ++ T "file" ++ T " " ++ P ++ rest)
               = Some (Match 0 en [(1, P)])).
  { unfold match_at.
    change (m true deleteRegex (λ e _ c, Some (Match 0 e c)))
      with (m true (Cat (Str (T "delete")) (plus is_space))
              (m true
                 (Cat (Opt (Cat (Str (T "the")) (plus is_space)))
                    (Cat (Opt (Cat (Str (T "file")) (plus is_space)))
                       (Cat (Opt (Cls is_quote))
                          (Cat (Grp 1 (Cat (plus not_space_quote)
                                         (Cat (Lit dot) (plus is_word))))
                               (Opt (Cls is_quote))))))
                 (λ e _ c, Some (Match 0 e c)))).
    apply word_space; [done|done|done|].
    rewrite m_Cat_parts. apply m_Alt_l. apply word_space; [done|done|done|].
    rewrite m_Cat_parts. apply m_Alt_l. apply word_space; [done|done|exact Hhead|].
    (* no quote before the path *)
    rewrite m_Cat_parts. unfold Opt at 1. rewrite m_Alt_r.
    2:{ subst P. destruct name as [|y name]; [done|]. cbn [app m].
        cbn [forallb] in Hnamec. apply andb_prop in Hnamec as [Hy _].
        by rewrite (path_char_not_quote y Hy). }
    cbn [m].
    (* the path: all of it, then back to its last dot *)
    apply (rep_greedy_at _ _ _ _ _ (length P) (length name)).
    - rewrite take_app_length.
      assert (Hextp : forallb not_space_quote ext = true).
      { clear -Hextc. induction ext as [|y ext IH]; [done|].
        cbn [forallb] in *. apply andb_prop in Hextc as [Hy Hextc].
        by rewrite (word_is_path_char y Hy), IH. }
      subst P. by rewrite !forallb_app, Hnamec, Hextp.
    - rewrite length_app. lia.
    - rewrite drop_app_length. destruct rest as [|y rest']; [done|].
      by apply end_not_path_char.
    - destruct name; [done|simpl; lia].
    - subst P. rewrite length_app. lia.
    - intros j Hj1 Hj2.
      assert (Hnot : match drop j (P ++ rest) with
                     | y :: _ => lit_eq true dot y = false
                     | [] => True
                     end).
      { destruct (decide (j < length P)) as [Hlt|Hge].
        - rewrite drop_app_le by lia. subst P.
          rewrite drop_app_ge by lia.
          destruct (j - length name) as [|i] eqn:Ei; [lia|]. cbn [app drop].
          destruct (drop i ext) as [|y ?] eqn:Ed.
          + rewrite length_app in Hlt. simpl in Hlt.
            apply (f_equal length) in Ed. rewrite length_drop in Ed. simpl in Ed. lia.
          + cbn [app]. apply word_not_dot.
            assert (Hy : forallb is_word (drop i ext) = true) by by apply forallb_drop.
            rewrite Ed in Hy. cbn [forallb] in Hy. by apply andb_prop in Hy as [? _].
        - assert (j = length P) as -> by lia. rewrite drop_app_length.
          destruct rest as [|y rest']; [done|]. by apply end_not_dot. }
      destruct (drop j (P ++ rest)) as [|y ?]; [done|]. cbn [m]. by rewrite Hnot.
    - assert (Hd : drop (length name) (P ++ rest) = dot :: ext ++ rest).
      { subst P. by rewrite <-!(assoc (++)), drop_app_length. }
      rewrite Hd. cbn [m].
      replace (lit_eq true dot dot) with true by (by vm_compute).
      unfold plus.
      apply (rep_greedy_at _ _ _ _ _ (length ext) (length ext)).
      + by rewrite take_app_length.
      + rewrite length_app. lia.
      + rewrite drop_app_length. destruct rest as [|y rest']; [done|].
        by apply end_not_word.
      + destruct ext; [done|simpl; lia].
      + lia.
      + intros; lia.
      + rewrite drop_app_length.
        replace (take _ (P ++ rest)) with P.
        * rewrite <-Hen. f_equal. subst P. rewrite !length_app.
          change (length (T "delete")) with 6. change (length (T "the")) with 3.
          change (length (T "file")) with 4. change (length (T " ")) with 1.
          simpl. lia.
        * symmetry. apply take_app_length'. subst P. rewrite !length_app.
          change (length (T "delete")) with 6. change (length (T "the")) with 3.
          change (length (T "file")) with 4. change (length (T " ")) with 1.
          simpl. lia. }
  by apply search_here.
Qed.

End PhraseFacts.

Module ChatFacts.
Import Chat Progress Phrases RegexFacts PhraseFacts.

Lemma match_nonempty ci r s x :
  0 < min_len r → match_ ci r s = Some x → truthy s = true.
Proof.
  intros Hr E. apply exec_bounds in E. destruct s; [simpl in E; lia|done].
Qed.

Section Facts.
Context {W : Type} `{Services W}.
Variable generateFileTemplate : text → text → text → text.

(** C7 (as amended).  An instruction that matches the delete phrasing is
    answered with the delete-file intent carrying the path the pattern
    captured, and with no call at all (the provider is not invoked),
    when the guard for a missing project does not answer first: a project
    is given, or the instruction mentions none of create, file and edit.
    When the guard applies (no project is given and the instruction
    mentions one of these words), the answer is the request to select a
    project, with no intent and no call either.  The path captured from
    [delete the file name.ext] is [name.ext]; in particular [delete the
    file foo.txt] gives the intent for [foo.txt]. *)
Theorem delete_intent prompt code_ filename project image (st : state W) x :
  match_ true deleteRegex prompt = Some x →
  (truthy project = true
   ∨ (includes (T "create") (toLowerCase prompt) = false
      ∧ includes (T "file") (toLowerCase prompt) = false
      ∧ includes (T "edit") (toLowerCase prompt) = false) →
   chat generateFileTemplate prompt code_ filename project image st
   = Some (Reply (T "🗑️ Deleted `" ++ group 1 x ++ T "`.")
                 (Some (DeleteFile (group 1 x))), st))
  ∧ (truthy project = false →
     includes (T "create") (toLowerCase prompt) = true
     ∨ includes (T "file") (toLowerCase prompt) = true
     ∨ includes (T "edit") (toLowerCase prompt) = true →
     chat generateFileTemplate prompt code_ filename project image st
     = Some (Reply no_project_message None, st))
  ∧ (∀ name ext rest,
       truthy name = true → forallb not_space_quote name = true →
       truthy ext = true → forallb is_word ext = true →
       ends_path rest = true →
       prompt = T "delete the file " ++ name ++ [dot] ++ ext ++ rest →
       group 1 x = name ++ [dot] ++ ext)
  ∧ (prompt = T "delete the file foo.txt" → group 1 x = T "foo.txt").
Proof.
  intros Hm.
  assert (Hp : truthy prompt = true).
  { apply (match_nonempty true deleteRegex prompt x); [vm_compute; lia|done]. }
  split; [|split; [|split]].
  - intros Hg. unfold chat. rewrite Hp. cbn [negb]. cbv zeta.
    assert (Hn : needs_project prompt project = false).
    { unfold needs_project. destruct Hg as [->|(-> & -> & ->)]; [done|].
      by rewrite andb_false_r. }
    by rewrite Hn, Hm.
  - intros Hproj Hg. unfold chat. rewrite Hp. cbn [negb]. cbv zeta.
    assert (Hn : needs_project prompt project = true).
    { unfold needs_project. rewrite Hproj. cbn [negb andb].
      destruct Hg as [->|[->| ->]]; [done| |]; by rewrite ?orb_true_r. }
    by rewrite Hn.
  - intros name ext rest Hn Hnc He Hec Hr ->.
    destruct (delete_phrase_match name ext rest Hn Hnc He Hec Hr) as [en Hen].
    rewrite Hen in Hm. by injection Hm as <-.
  - intros ->. revert Hm. vm_compute. by intros [= <-].
Qed.

End Facts.
End ChatFacts.

Module HistoryFacts.
Import AutoFix Histories Prompts EffectFacts ParserFacts SoundFacts AutoFixFacts.

Section Facts.
Context {W : Type} `{Services W}.

Lemma rounds_snoc k : ∀ a h error explanation files,
  rounds a k h → explanation ≠ [] → files ≠ [] →
  rounds a (S k) (h ++ [ErrorDetected (a + k) error;
                        AppliedFix (a + k) explanation files]).
Proof.
  induction k as [|k IH]; intros a h error explanation files Hr He Hf.
  - simpl in Hr. subst h. rewrite Nat.add_0_r. simpl. by eexists _, _, _, _.
  - destruct Hr as (e & x & fs & rest & -> & Hx & Hfs & Hr).
    exists e, x, fs, (rest ++ [ErrorDetected (a + S k) error;
                               AppliedFix (a + S k) explanation files]).
    split; [done|]. split; [done|]. split; [done|].
    replace (a + S k) with (S a + k) by lia. by apply IH.
Qed.

Lemma rounds_cons k a h error explanation files :
  rounds (S a) k h → explanation ≠ [] → files ≠ [] →
  rounds a (S k) (ErrorDetected a error :: AppliedFix a explanation files :: h).
Proof. intros. simpl. by eexists _, _, _, _. Qed.

Lemma or_else_nonempty a b : b ≠ [] → or_else a b ≠ [].
Proof. unfold or_else. by destruct a. Qed.

Lemma ending_shift a r n fixes e x h resp rn cn :
  ending (S a) r n ((fixes ++ [e]) ++ [x]) h resp rn cn →
  ending a (S r) (S n) fixes (e :: x :: h) resp (S rn) (S cn).
Proof.
  intros Hend. destruct Hend as [out Hn|e' ai Hn Hai|e' msg Hn|Hn|msg Hn].
  - pose proof (ends_success a (S r) (S n) fixes (e :: x :: h) out ltac:(lia)) as E.
    replace (a + S n) with (S a + n) in E by lia.
    rewrite <-!(assoc (++)). exact E.
  - pose proof (ends_no_fix a (S r) (S n) fixes (e :: x :: h) e' ai ltac:(lia) Hai) as E.
    replace (a + S n) with (S a + n) in E by lia.
    rewrite <-!(assoc (++)). exact E.
  - pose proof (ends_provider_failure a (S r) (S n) fixes (e :: x :: h) e' msg
                  ltac:(lia)) as E.
    replace (a + S n) with (S a + n) in E by lia.
    rewrite <-!(assoc (++)). exact E.
  - subst n.
    pose proof (ends_exhausted a (S r) (S r) fixes (e :: x :: h) eq_refl) as E.
    rewrite <-!(assoc (++)). exact E.
  - pose proof (ends_run_refused a (S r) (S n) fixes (e :: x :: h) msg
                  ltac:(lia)) as E.
    rewrite <-!(assoc (++)). exact E.
Qed.

(** The loop, entered at [attempt] with [remaining] rounds allowed: it
    makes some complete rounds and ends in one of the five ways. *)
Lemma attempts_trace project command projectFiles :
  ∀ remaining attempt fixes st,
  ∃ resp st' new n h runs_ calls_,
    attempts remaining attempt project command projectFiles fixes st = Some (resp, st')
    ∧ log st' = log st ++ new
    ∧ rounds attempt n h
    ∧ ending attempt remaining n fixes h resp runs_ calls_
    ∧ runs new = runs_ ∧ provider_calls new = calls_
    ∧ (0 < remaining → ∃ rest, new = EExec command :: rest).
Proof.
  induction remaining as [|remaining IH]; intros attempt fixes st.
  { exists (Report false exhausted_message fixes None), st, [], 0, [], 0, 0.
    simpl. rewrite !app_nil_r.
    split; [done|]. split; [done|]. split; [done|]. split; [|split; [done|]].
    - rewrite <-(app_nil_r fixes) at 2. by constructor.
    - split; [done|]. intros ?; lia. }
  rewrite attempts_unfold. cbv zeta.
  set (st1 := State _ _).
  destruct (sys_exec command (world st)).1 as [r|message].
  2:{ eexists _, _, [EExec command], 0, [], 1, 0.
      split; [done|]. split; [done|]. split; [done|].
      split; [|split; [done|split; [done|by eexists]]].
      pose proof (ends_run_refused attempt (S remaining) 0 fixes [] message
                    ltac:(lia)) as E.
      by rewrite app_nil_r in E. }
  destruct (ro_success (run_output_of r)).
  { eexists _, _, [EExec command], 0, [], 1, 0.
    split; [done|]. split; [done|]. split; [done|].
    split; [|split; [done|split; [done|by eexists]]].
    pose proof (ends_success attempt (S remaining) 0 fixes []
                  (ro_output (run_output_of r)) ltac:(lia)) as E.
    rewrite Nat.add_0_r in E. exact E. }
  destruct (read_files_spec project (substring0 10 projectFiles) [] st1)
    as (fc & st2 & new2 & -> & Hlog2 & Hr2 & Hp2 & _).
  set (prompt := fixPrompt fc command _).
  set (st3 := State _ _).
  assert (Hlog3 : log st3 = log st ++ [EExec command] ++ new2 ++ [ECallHF prompt []]).
  { subst st3. simpl. rewrite Hlog2. subst st1. simpl. by rewrite <-!(assoc (++)). }
  destruct (hf_call prompt [] (world st2)).1 as [aiResponse|message].
  2:{ eexists _, st3, _, 0, [], 1, 1. split; [done|]. split; [exact Hlog3|].
      split; [done|]. split.
      - pose proof (ends_provider_failure attempt (S remaining) 0 fixes []
                      (ro_output (run_output_of r)) message ltac:(lia)) as E.
        rewrite Nat.add_0_r in E. exact E.
      - unfold provider_calls.
        rewrite !runs_app, !prompts_app, Hr2, Hp2, !runs_cons, !runs_nil.
        split; [done|]. split; [done|]. by eexists. }
  destruct (file_edits_total aiResponse) as [edits Hedits]. rewrite Hedits.
  destruct (write_fixes_spec project edits [] st3)
    as (fixed & st4 & new4 & -> & Hlog4 & Hr4 & Hp4 & _).
  destruct (0 <? length fixed) eqn:Hfixed.
  - destruct (IH (S attempt)
        ((fixes ++ [ErrorDetected attempt (ro_output (run_output_of r))]) ++
         [AppliedFix attempt (or_else (explanation_of aiResponse) (T "Fixed the error")) fixed])
        st4)
      as (resp & st' & new & n & h & rn & cn & -> & Hlog & Hrounds & Hend & Hrn & Hcn & _).
    assert (Hfx : fixed ≠ []).
    { apply Nat.ltb_lt in Hfixed. by destruct fixed; [simpl in Hfixed; lia|]. }
    assert (Hex : or_else (explanation_of aiResponse) (T "Fixed the error") ≠ [])
      by by apply or_else_nonempty.
    exists resp, st',
      ([EExec command] ++ new2 ++ [ECallHF prompt []] ++ new4 ++ new), (S n),
      (ErrorDetected attempt (ro_output (run_output_of r))
       :: AppliedFix attempt (or_else (explanation_of aiResponse) (T "Fixed the error")) fixed
       :: h), (S rn), (S cn).
    split; [done|]. split.
    { rewrite Hlog, Hlog4, Hlog3. by rewrite <-!(assoc (++)). }
    split; [by apply rounds_cons|]. split.
    + by apply ending_shift.
    + unfold provider_calls in *.
      rewrite !runs_app, !prompts_app, Hr2, Hp2, Hr4, Hp4, !runs_cons, !runs_nil.
      simpl. rewrite Hrn. split; [done|]. rewrite Hcn. split; [done|]. by eexists.
  - eexists _, st4, ([EExec command] ++ new2 ++ [ECallHF prompt []] ++ new4),
      0, [], 1, 1.
    split; [done|]. split.
    { rewrite Hlog4, Hlog3. by rewrite <-!(assoc (++)). }
    split; [done|]. split.
    + assert (Hlen : length (substring0 500 aiResponse) ≤ 500).
      { unfold substring0. rewrite length_take. lia. }
      pose proof (ends_no_fix attempt (S remaining) 0 fixes []
                    (ro_output (run_output_of r)) _ ltac:(lia) Hlen) as E.
      rewrite Nat.add_0_r in E. cbn [app] in E. by rewrite <-(assoc (++)).
    + unfold provider_calls.
      rewrite !runs_app, !prompts_app, Hr2, Hp2, Hr4, Hp4, !runs_cons, !runs_nil.
      split; [done|]. split; [done|]. by eexists.
Qed.

Lemma count_if_app {A} (p : A → bool) l1 l2 :
  count_if p (l1 ++ l2) = count_if p l1 + count_if p l2.
Proof. unfold count_if. by rewrite List.filter_app, length_app. Qed.

Lemma rounds_counts k : ∀ a h,
  rounds a k h →
  count_if records_run h = k ∧ count_if records_call h = k ∧ length h = 2 * k.
Proof.
  induction k as [|k IH]; intros a h Hr.
  - simpl in Hr. by subst h.
  - destruct Hr as (e & x & fs & rest & -> & _ & _ & Hr).
    destruct (IH _ _ Hr) as (H1 & H2 & H3).
    unfold count_if in *. simpl. rewrite H1, H2, H3. lia.
Qed.

(** X1.  Every invocation of the auto-repair handler answers, and its
    history has one of these forms.  Before the loop is entered (no project,
    the files cannot be listed, no run command) it is empty and nothing was
    run.  Otherwise it holds [n] complete rounds, numbered from 1, each an
    error detected and a fix applied to at least one file with an
    explanation that is not empty, and then ends in one of five ways: the
    run of round [n + 1] succeeded; the answer in round [n + 1] gave no fix
    (at most 500 characters of it are kept); the provider failed in round
    [n + 1] (status 500, the history kept); five fixes were applied, and
    the fifth is reported as a failure without another run; or [exec]
    threw on the run of round [n + 1] (status 500 with the message thrown
    and the [n] rounds, which is an empty history when [n] is 0). *)
Theorem auto_fix_history project runCommand st :
  ∃ resp st' new,
    auto_fix project runCommand st = Some (resp, st')
    ∧ log st' = log st ++ new
    ∧ ((fixes_of resp = [] ∧ runs new = 0 ∧ provider_calls new = 0)
       ∨ ∃ n h runs_ calls_,
           rounds 1 n h
           ∧ ending 1 maxAttempts n [] h resp runs_ calls_
           ∧ runs new = runs_ ∧ provider_calls new = calls_).
Proof.
  rewrite auto_fix_unfold. destruct (truthy project); simpl negb; cbv iota.
  2:{ exists (BadRequest (T "Project required")), st, []. rewrite app_nil_r.
      split; [done|]. split; [done|]. by left. }
  cbv zeta. set (st1 := State _ _).
  destruct (db_getAllProjectFiles project (world st)).1 as [projectFiles|message].
  2:{ exists (ServerError message []), st1, [EGetAllProjectFiles project].
      split; [done|]. split; [done|]. by left. }
  destruct (truthy (determine_command runCommand projectFiles)) eqn:Hc;
    simpl negb; cbv iota.
  2:{ exists (Report false no_command_message [] None), st1,
        [EGetAllProjectFiles project].
      split; [done|]. split; [done|]. by left. }
  destruct (attempts_trace project (determine_command runCommand projectFiles)
              projectFiles maxAttempts 1 [] st1)
    as (resp & st' & new & n & h & rn & cn & -> & Hlog & Hrounds & Hend & Hrn & Hcn & _).
  exists resp, st', (EGetAllProjectFiles project :: new).
  split; [done|]. split; [by rewrite Hlog; subst st1; simpl; rewrite <-(assoc (++))|].
  right. exists n, h, rn, cn. split; [done|]. split; [done|].
  by rewrite runs_cons.
Qed.

(** X2.  The history accounts for what an invocation did.  The provider
    was called once for each detected error.  The command was run once for
    each entry that is a success or a detected error, and at most once
    more: a run on which [exec] throws leaves no entry, and the answer then
    has status 500; an answer with another status stands for exactly as
    many runs as it has such entries.  The history holds at most two
    entries for each run, ten at most. *)
Theorem history_accounts_for_calls project runCommand st :
  ∃ resp st' new,
    auto_fix project runCommand st = Some (resp, st')
    ∧ log st' = log st ++ new
    ∧ provider_calls new = count_if records_call (fixes_of resp)
    ∧ count_if records_run (fixes_of resp) ≤ runs new
      ≤ S (count_if records_run (fixes_of resp))
    ∧ (answered_500 resp = false →
       runs new = count_if records_run (fixes_of resp))
    ∧ length (fixes_of resp) ≤ 2 * runs new
    ∧ length (fixes_of resp) ≤ 2 * maxAttempts.
Proof.
  rewrite auto_fix_unfold. destruct (truthy project); simpl negb; cbv iota.
  2:{ exists (BadRequest (T "Project required")), st, []. rewrite app_nil_r.
      split; [done|]. split; [done|]. simpl. unfold count_if. simpl.
      rewrite runs_nil. repeat split; lia. }
  cbv zeta. set (st1 := State _ _).
  destruct (db_getAllProjectFiles project (world st)).1 as [projectFiles|message].
  2:{ exists (ServerError message []), st1, [EGetAllProjectFiles project].
      split; [done|]. split; [done|]. simpl. unfold count_if. simpl.
      rewrite runs_cons, runs_nil. simpl. repeat split; lia. }
  destruct (truthy (determine_command runCommand projectFiles)) eqn:Hc;
    simpl negb; cbv iota.
  2:{ exists (Report false no_command_message [] None), st1,
        [EGetAllProjectFiles project].
      split; [done|]. split; [done|]. simpl. unfold count_if. simpl.
      rewrite runs_cons, runs_nil. simpl. repeat split; lia. }
  destruct (attempts_trace project (determine_command runCommand projectFiles)
              projectFiles maxAttempts 1 [] st1)
    as (resp & st' & new & n & h & rn & cn & -> & Hlog & Hrounds & Hend & Hrn & Hcn & _).
  exists resp, st', (EGetAllProjectFiles project :: new).
  split; [done|]. split; [by rewrite Hlog; subst st1; simpl; rewrite <-(assoc (++))|].
  destruct (rounds_counts _ _ _ Hrounds) as (H1 & H2 & H3).
  assert (Hcalls : provider_calls (EGetAllProjectFiles project :: new)
                   = provider_calls new) by done.
  rewrite runs_cons, Hcalls, Hrn, Hcn. cbn [is_run].
  unfold maxAttempts in *.
  destruct Hend as [out Hn|e ai Hn Hai|e msg Hn|Hn|msg Hn];
    cbn [fixes_of app answered_500];
    rewrite ?count_if_app, ?length_app, H1, H2, H3; unfold count_if; simpl;
    repeat split; try done; lia.
Qed.

(** X3.  The loop over the edits extracted from an answer writes every
    edit, in the order found, whether or not an earlier write failed, and
    does nothing else; the paths it records are those of a subsequence of
    the edits (the writes that succeeded), added after the paths recorded
    before. *)
Theorem write_fixes_trace project edits : ∀ fixedFiles st,
  ∃ written st',
    write_fixes project edits fixedFiles st
    = Some (fixedFiles ++ map filepath written, st')
    ∧ log st' = log st ++ map (write_of project) edits
    ∧ sublist written edits.
Proof.
  induction edits as [|e edits IH]; intros fixedFiles st; simpl.
  - exists [], st. rewrite !app_nil_r. by split.
  - unfold bind at 1, writeFile. rewrite call_Some.
    set (st1 := State _ _).
    destruct (db_writeFile _ _ _ _).1 as [[]|].
    + destruct (IH (fixedFiles ++ [filepath e]) st1) as (written & st' & -> & Hlog & Hsub).
      exists (e :: written), st'. split; [by rewrite <-(assoc (++))|].
      split; [by rewrite Hlog; subst st1; simpl; rewrite <-(assoc (++))|].
      by apply sublist_skip.
    + destruct (IH fixedFiles st1) as (written & st' & -> & Hlog & Hsub).
      exists written, st'. split; [done|].
      split; [by rewrite Hlog; subst st1; simpl; rewrite <-(assoc (++))|].
      by apply sublist_cons.
Qed.

End Facts.

Lemma find_existsb {A} (p : A → bool) l :
  existsb p l = true → ∃ x, find p l = Some x ∧ x ∈ l ∧ p x = true.
Proof.
  induction l as [|a l IH]; simpl; [done|].
  destruct (p a) eqn:Hp.
  - intros _. exists a. split; [done|]. split; [by left|done].
  - intros (x & Hx & Hin & Hpx)%IH. exists x. split; [done|].
    split; [by right|done].
Qed.

(** The run command chosen from the file names is empty exactly when no
    rule applies, and for a Python project it runs one of the project's
    files. *)
Lemma sniff_command_rules projectFiles :
  truthy (sniff_command projectFiles) = runnable projectFiles
  ∧ (existsb (endsWith (T ".py")) projectFiles = true →
     ∃ f, f ∈ projectFiles ∧ sniff_command projectFiles = T "py " ++ f).
Proof.
  unfold sniff_command, runnable. split.
  - destruct (existsb (endsWith (T ".py")) projectFiles); [done|].
    destruct (existsb (endsWith (T ".go")) projectFiles); [done|].
    destruct (existsb _ projectFiles); [done|].
    destruct (existsb (endsWith (T ".java")) projectFiles); [|done].
    by destruct (find _ projectFiles).
  - intros Hpy. rewrite Hpy.
    destruct (find_existsb _ _ Hpy) as (f & Hf & Hin & _).
    destruct (find (λ f0, includes (T "main.py") f0 || includes (T "app.py") f0)
                   projectFiles) as [g|] eqn:Hg.
    + exists g. split; [|done]. apply find_some in Hg as [Hin' _].
      by apply list_elem_of_In.
    + exists f. split; [done|]. by rewrite Hf.
Qed.

Section Choice.
Context {W : Type} `{Services W}.

(** X4.  When a request gives no run command, the handler runs something
    exactly when a rule applies to the names of the project's files (a
    Python, Go or Java file, or a JavaScript file with server in its name);
    otherwise it abandons the request without running anything.  For a
    project with a Python file the first thing run is py followed by the
    name of one of the project's files, whatever other files there are. *)
Theorem run_command_chosen project (st : state W) projectFiles w1 :
  truthy project = true →
  db_getAllProjectFiles project (world st) = (Ok projectFiles, w1) →
  ∃ resp st' new,
    auto_fix project [] st = Some (resp, st')
    ∧ log st' = log st ++ EGetAllProjectFiles project :: new
    ∧ (runnable projectFiles = false →
       resp = Report false no_command_message [] None ∧ new = [])
    ∧ (runnable projectFiles = true →
       ∃ command rest, new = EExec command :: rest ∧ command ≠ []
         ∧ (existsb (endsWith (T ".py")) projectFiles = true →
            ∃ f, f ∈ projectFiles ∧ command = T "py " ++ f)).
Proof.
  intros Hp Hfiles. rewrite auto_fix_unfold, Hp. simpl negb. cbv iota zeta.
  rewrite Hfiles. cbn [fst snd]. unfold determine_command. cbn [truthy].
  destruct (sniff_command_rules projectFiles) as [Hrun Hpy].
  destruct (runnable projectFiles).
  - rewrite Hrun. simpl negb. cbv iota.
    destruct (attempts_trace project (sniff_command projectFiles) projectFiles
                maxAttempts 1 [] (State w1 (log st ++ [EGetAllProjectFiles project])))
      as (resp & st' & new & n & h & rn & cn & -> & Hlog & _ & _ & _ & _ & Hfirst).
    destruct (Hfirst ltac:(unfold maxAttempts; lia)) as [rest ->].
    exists resp, st', (EExec (sniff_command projectFiles) :: rest).
    split; [done|]. split; [by rewrite Hlog; simpl; rewrite <-(assoc (++))|].
    split; [done|]. intros _. exists (sniff_command projectFiles), rest.
    split; [done|]. split; [|exact Hpy].
    by destruct (sniff_command projectFiles).
  - rewrite Hrun. simpl negb. cbv iota.
    eexists _, _, []. split; [done|]. split; [done|]. split; [done|]. done.
Qed.

End Choice.

End HistoryFacts.

Module CallFacts.
Import AutoFix CallRules Progress Protocol Prompts.
Import RegexFacts EffectFacts ParserFacts SoundFacts AutoFixFacts.

Section Facts.
Context {W : Type} `{Services W}.

Lemma read_files_log project names files : ∀ fileContents (st : state W),
  (∀ f, f ∈ files → f ∈ names) →
  ∃ fileContents' st' new,
    read_files project files fileContents st = Some (fileContents', st')
    ∧ log st' = log st ++ new
    ∧ ∀ command, Forall (repair_call project command names) new.
Proof.
  induction files as [|file files IH]; intros fileContents st Hin; simpl.
  - exists fileContents, st, []. rewrite app_nil_r. by split.
  - unfold bind at 1, readFile. rewrite call_Some.
    set (st1 := State _ _).
    assert (Hin' : ∀ f, f ∈ files → f ∈ names).
    { intros f Hf. apply Hin. apply elem_of_cons. by right. }
    assert (Hfile : file ∈ names) by (apply Hin; apply elem_of_cons; by left).
    destruct (db_readFile _ _ _).1 as [content|].
    + destruct (IH (JsObject.assign file content fileContents) st1 Hin')
        as (fc' & st' & new & -> & Hlog & Hall).
      exists fc', st', (EReadFile project file :: new).
      split; [done|]. split; [by rewrite Hlog; subst st1; simpl; rewrite <-(assoc (++))|].
      intros command. constructor; [done|]. apply Hall.
    + destruct (IH fileContents st1 Hin') as (fc' & st' & new & -> & Hlog & Hall).
      exists fc', st', (EReadFile project file :: new).
      split; [done|]. split; [by rewrite Hlog; subst st1; simpl; rewrite <-(assoc (++))|].
      intros command. constructor; [done|]. apply Hall.
Qed.

Lemma write_fixes_log project edits : ∀ fixedFiles (st : state W),
  Forall sound_edit edits →
  ∃ fixedFiles' st' new,
    write_fixes project edits fixedFiles st = Some (fixedFiles', st')
    ∧ log st' = log st ++ new
    ∧ ∀ command names, Forall (repair_call project command names) new.
Proof.
  induction edits as [|e edits IH]; intros fixedFiles st Hsound; simpl.
  - exists fixedFiles, st, []. rewrite app_nil_r. by split.
  - unfold bind at 1, writeFile. rewrite call_Some.
    set (st1 := State _ _).
    apply Forall_cons in Hsound as [(Hp & Hc & _) Hsound].
    destruct (db_writeFile _ _ _ _).1 as [[]|].
    + destruct (IH (fixedFiles ++ [filepath e]) st1 Hsound)
        as (f' & st' & new & -> & Hlog & Hall).
      exists f', st', (EWriteFile project (filepath e) (content e) :: new).
      split; [done|]. split; [by rewrite Hlog; subst st1; simpl; rewrite <-(assoc (++))|].
      intros command names. constructor; [done|]. apply Hall.
    + destruct (IH fixedFiles st1 Hsound) as (f' & st' & new & -> & Hlog & Hall).
      exists f', st', (EWriteFile project (filepath e) (content e) :: new).
      split; [done|]. split; [by rewrite Hlog; subst st1; simpl; rewrite <-(assoc (++))|].
      intros command names. constructor; [done|]. apply Hall.
Qed.

Lemma attempts_calls project command projectFiles :
  ∀ remaining attempt fixes (st : state W),
  ∃ resp st' new,
    attempts remaining attempt project command projectFiles fixes st = Some (resp, st')
    ∧ log st' = log st ++ new
    ∧ Forall (repair_call project command (substring0 10 projectFiles)) new.
Proof.
  induction remaining as [|remaining IH]; intros attempt fixes st.
  { eexists _, st, []. simpl. rewrite app_nil_r. by split. }
  rewrite attempts_unfold. cbv zeta.
  set (st1 := State _ _).
  destruct (sys_exec command (world st)).1 as [r|message].
  2:{ eexists _, _, [EExec command]. split; [done|]. split; [done|].
      by constructor. }
  destruct (ro_success (run_output_of r)).
  { eexists _, _, [EExec command]. split; [done|]. split; [done|]. by constructor. }
  destruct (read_files_log project (substring0 10 projectFiles)
              (substring0 10 projectFiles) [] st1)
    as (fc & st2 & new2 & -> & Hlog2 & Hall2); [done|].
  set (prompt := fixPrompt fc command _).
  set (st3 := State _ _).
  assert (Hlog3 : log st3 = log st ++ [EExec command] ++ new2 ++ [ECallHF prompt []]).
  { subst st3. simpl. rewrite Hlog2. subst st1. simpl. by rewrite <-!(assoc (++)). }
  assert (Hpre : Forall (repair_call project command (substring0 10 projectFiles))
                   ([EExec command] ++ new2 ++ [ECallHF prompt []])).
  { constructor; [done|]. apply Forall_app. split; [apply Hall2|]. by constructor. }
  destruct (hf_call prompt [] (world st2)).1 as [aiResponse|message].
  2:{ eexists _, st3, _. split; [done|]. split; [exact Hlog3|]. exact Hpre. }
  destruct (file_edits_total aiResponse) as [edits Hedits].
  pose proof (file_edits_sound _ _ Hedits) as Hsound. rewrite Hedits.
  destruct (write_fixes_log project edits [] st3 Hsound)
    as (fixed & st4 & new4 & -> & Hlog4 & Hall4).
  destruct (0 <? length fixed).
  - destruct (IH (S attempt)
        ((fixes ++ [ErrorDetected attempt (ro_output (run_output_of r))]) ++
         [AppliedFix attempt (or_else (explanation_of aiResponse) (T "Fixed the error")) fixed])
        st4)
      as (resp & st' & new & -> & Hlog & Hall).
    exists resp, st', (([EExec command] ++ new2 ++ [ECallHF prompt []]) ++ new4 ++ new).
    split; [done|]. split.
    { rewrite Hlog, Hlog4, Hlog3. by rewrite <-!(assoc (++)). }
    apply Forall_app. split; [done|]. apply Forall_app. split; [apply Hall4|done].
  - eexists _, st4, (([EExec command] ++ new2 ++ [ECallHF prompt []]) ++ new4).
    split; [done|]. split.
    { rewrite Hlog4, Hlog3. by rewrite <-!(assoc (++)). }
    apply Forall_app. split; [done|apply Hall4].
Qed.

(** X20.  The calls of an auto-repair invocation: none at all; or the
    listing of the project's files alone, when it fails; or that listing,
    made once and first, and after it only runs of the one command chosen
    before the loop (the same in every round), reads of files among the
    first ten of that listing (the files are not listed again, so files
    written by a fix are not read unless they were there before), calls of
    the provider without an image, and writes of files of the project with
    a path and a content that are not empty.  It never starts a server
    command, kills no process and never touches the chat history. *)
Theorem auto_fix_calls project runCommand (st : state W) :
  ∃ resp st' new,
    auto_fix project runCommand st = Some (resp, st')
    ∧ log st' = log st ++ new
    ∧ (new = []
       ∨ (∃ message, new = [EGetAllProjectFiles project]
                     ∧ (db_getAllProjectFiles project (world st)).1 = Throws message)
       ∨ ∃ projectFiles rest,
           (db_getAllProjectFiles project (world st)).1 = Ok projectFiles
           ∧ new = EGetAllProjectFiles project :: rest
           ∧ Forall (repair_call project (determine_command runCommand projectFiles)
                       (substring0 10 projectFiles)) rest).
Proof.
  rewrite auto_fix_unfold. destruct (truthy project); simpl negb; cbv iota.
  2:{ exists (BadRequest (T "Project required")), st, []. rewrite app_nil_r.
      split; [done|]. split; [done|]. by left. }
  cbv zeta. set (st1 := State _ _).
  destruct (db_getAllProjectFiles project (world st)).1 as [projectFiles|message].
  2:{ exists (ServerError message []), st1, [EGetAllProjectFiles project].
      split; [done|]. split; [done|]. right. left. by exists message. }
  destruct (truthy (determine_command runCommand projectFiles)) eqn:Hc;
    simpl negb; cbv iota.
  2:{ exists (Report false no_command_message [] None), st1,
        [EGetAllProjectFiles project].
      split; [done|]. split; [done|]. right. right. exists projectFiles, [].
      split; [done|]. split; [done|]. constructor. }
  destruct (attempts_calls project (determine_command runCommand projectFiles)
              projectFiles maxAttempts 1 [] st1)
    as (resp & st' & new & -> & Hlog & Hall).
  exists resp, st', (EGetAllProjectFiles project :: new).
  split; [done|]. split; [by rewrite Hlog; subst st1; simpl; rewrite <-(assoc (++))|].
  right. right. by exists projectFiles, new.
Qed.

End Facts.

Lemma exec_all_in_order ci r s : 0 < min_len r → ∀ fuel last_ l,
  exec_all fuel ci r s last_ = Some l → in_order last_ (length s) l.
Proof.
  intros Hr. induction fuel as [|fuel IH]; intros last_ l; cbn [exec_all]; [done|].
  destruct (exec ci r s last_) as [x|] eqn:E.
  - destruct (exec_all fuel ci r s (m_end x)) as [l'|] eqn:E'; [|done].
    intros [= <-]. apply exec_bounds in E as (H1 & H2 & H3).
    cbn [in_order]. split; [done|]. split; [lia|]. split; [done|]. by apply IH.
  - by intros [= <-].
Qed.

(** X21.  The extraction loops of the three grammars always end, and the
    matches they find follow one another in the answer: each is not empty,
    starts at or after the end of the one before and ends within the
    answer, so no part of an answer is used for two edits. *)
Theorem matches_in_order (s : text) :
  (∃ l, matches fileRegex s = Some l ∧ in_order 0 (length s) l)
  ∧ (∃ l, matches altRegex1 s = Some l ∧ in_order 0 (length s) l)
  ∧ (∃ l, matches createRegex s = Some l ∧ in_order 0 (length s) l).
Proof.
  assert (Hall : ∀ r, 0 < min_len r →
            ∃ l, matches r s = Some l ∧ in_order 0 (length s) l).
  { intros r Hr. destruct (matches_total r s Hr) as [l Hl]. exists l.
    split; [done|]. unfold matches in Hl. by eapply exec_all_in_order. }
  split; [|split]; apply Hall.
  - apply fileRegex_min_len.
  - apply altRegex1_min_len.
  - apply createRegex_min_len.
Qed.

End CallFacts.

Module RegistryFacts.
Import Terminal Registry EffectFacts TerminalFacts.

Lemma get_set_same {V} k (v : V) m : JsMap.get k (JsMap.set k v m) = Some v.
Proof.
  induction m as [|[k' v'] m IH]; simpl.
  - by rewrite bool_decide_true.
  - case_bool_decide as Hk; simpl.
    + by rewrite bool_decide_true.
    + by rewrite bool_decide_false.
Qed.

Lemma get_set_other {V} k k0 (v : V) m :
  k0 ≠ k → JsMap.get k0 (JsMap.set k v m) = JsMap.get k0 m.
Proof.
  intros Hne. induction m as [|[k' v'] m IH]; simpl.
  - by rewrite bool_decide_false.
  - case_bool_decide as Hk; simpl.
    + subst k'. rewrite !bool_decide_false by done. done.
    + case_bool_decide; [done|]. exact IH.
Qed.

Lemma set_keys_in {V} k (v : V) m k0 :
  k0 ∈ (JsMap.set k v m).*1 → k0 = k ∨ k0 ∈ m.*1.
Proof.
  induction m as [|[k' v'] m IH]; simpl.
  - intros ->%list_elem_of_singleton. by left.
  - case_bool_decide as Hk; simpl.
    + subst k'. intros [->|Hin]%elem_of_cons; [by left|].
      right. apply elem_of_cons. by right.
    + intros [->|Hin]%elem_of_cons; [right; apply elem_of_cons; by left|].
      destruct (IH Hin) as [->|Hin']; [by left|].
      right. apply elem_of_cons. by right.
Qed.

Lemma set_NoDup {V} k (v : V) m : NoDup m.*1 → NoDup (JsMap.set k v m).*1.
Proof.
  induction m as [|[k' v'] m IH]; simpl.
  - intros _. apply NoDup_singleton.
  - intros [Hnotin Hnd]%NoDup_cons. case_bool_decide as Hk; simpl.
    + subst k'. by apply NoDup_cons.
    + apply NoDup_cons. split; [|by apply IH].
      intros [->|Hin]%set_keys_in; [done|]. by apply Hnotin.
Qed.

Lemma set_Forall {V} (P : text * V → Prop) k (v : V) m :
  P (k, v) → Forall P m → Forall P (JsMap.set k v m).
Proof.
  intros Hv. induction m as [|[k' v'] m IH]; simpl.
  - intros _. by constructor.
  - intros [Hh Ht]%Forall_cons. case_bool_decide; constructor; auto.
Qed.

Lemma delete_sublist {V} k (m : JsMap.t V) : sublist (JsMap.delete k m) m.
Proof.
  induction m as [|[k' v'] m IH]; simpl; [done|].
  case_bool_decide; [by apply sublist_cons|by apply sublist_skip].
Qed.

Lemma delete_absent {V} k (m : JsMap.t V) : k ∉ m.*1 → JsMap.delete k m = m.
Proof.
  induction m as [|[k' v'] m IH]; simpl; [done|].
  intros Hnotin. rewrite bool_decide_false.
  - f_equal. apply IH. intros Hin. apply Hnotin. apply elem_of_cons. by right.
  - intros ->. apply Hnotin. apply elem_of_cons. by left.
Qed.

Lemma delete_middle {V} k (v : V) kept rest :
  k ∉ kept.*1 → JsMap.delete k (kept ++ (k, v) :: rest) = kept ++ rest.
Proof.
  induction kept as [|[k' v'] kept IH]; simpl.
  - intros _. by rewrite bool_decide_true.
  - intros Hnotin. rewrite bool_decide_false.
    + f_equal. apply IH. intros Hin. apply Hnotin. apply elem_of_cons. by right.
    + intros ->. apply Hnotin. apply elem_of_cons. by left.
Qed.

Lemma get_delete {V} k (m : JsMap.t V) :
  NoDup m.*1 → JsMap.get k (JsMap.delete k m) = None.
Proof.
  induction m as [|[k' v'] m IH]; simpl; [done|].
  intros [Hnotin Hnd]%NoDup_cons. case_bool_decide as Hk; simpl.
  - subst k'. clear IH. induction m as [|[k2 v2] m IH2]; simpl; [done|].
    rewrite bool_decide_false.
    + apply IH2.
      * intros Hin. apply Hnotin. apply elem_of_cons. by right.
      * by apply NoDup_cons in Hnd as [_ ?].
    + intros ->. apply Hnotin. apply elem_of_cons. by left.
  - rewrite bool_decide_false by done. by apply IH.
Qed.

Lemma get_delete_other {V} k k0 (m : JsMap.t V) :
  k0 ≠ k → JsMap.get k0 (JsMap.delete k m) = JsMap.get k0 m.
Proof.
  intros Hne. induction m as [|[k' v'] m IH]; simpl; [done|].
  case_bool_decide as Hk; simpl.
  - subst k'. by rewrite bool_decide_false.
  - case_bool_decide; [done|]. exact IH.
Qed.

Lemma tracked_ok_sublist m m' : sublist m' m → tracked_ok m → tracked_ok m'.
Proof.
  intros Hsub [Hnd Hall]. split.
  - eapply sublist_NoDup; [exact Hnd|by apply fmap_sublist].
  - clear Hnd. induction Hsub as [|x l1 l2 _ IH|x l1 l2 _ IH]; [done| |].
    + apply Forall_cons in Hall as [??]. constructor; auto.
    + apply Forall_cons in Hall as [??]. auto.
Qed.

Section Facts.
Context {W : Type} `{Services W}.

(** The loop of [kill] over the entries, on a registry whose keys are
    distinct: the entries seen so far that were kept, then those to come. *)
Lemma remove_tracked_spec p : ∀ entries kept (st : state W),
  NoDup (kept ++ entries).*1 →
  ∃ st',
    remove_tracked p entries (kept ++ entries) st
    = Some (kept ++ List.filter (other_than p) entries, st')
    ∧ log st' = log st ++ kills_of p entries.
Proof.
  induction entries as [|[key process] entries IH]; intros kept st Hnd.
  - exists st. simpl. rewrite !app_nil_r. by split.
  - cbn [remove_tracked]. unfold kills_of. cbn [List.filter].
    change (other_than p (key, process))
      with (negb (bool_decide (pid process = Some p))).
    destruct (bool_decide (pid process = Some p)); cbn [negb map].
    + unfold bind, child_kill. rewrite call_Some. cbn [fst snd].
      set (st1 := State _ _).
      rewrite delete_middle.
      2:{ rewrite fmap_app in Hnd. apply NoDup_app in Hnd as (_ & Hdis & _).
          intros Hin. apply (Hdis _ Hin). simpl. apply elem_of_cons. by left. }
      destruct (IH kept st1) as (st' & -> & Hlog).
      { rewrite fmap_app in *. simpl in Hnd.
        apply NoDup_app in Hnd as (H1 & H2 & H3).
        apply NoDup_cons in H3 as [H3 H4].
        apply NoDup_app. split; [done|]. split; [|done].
        intros x Hx Hx'. apply (H2 x Hx). apply elem_of_cons. by right. }
      exists st'. split; [done|]. rewrite Hlog. subst st1. simpl.
      by rewrite <-(assoc (++)).
    + fold (kills_of p entries).
      replace (kept ++ (key, process) :: entries)
        with ((kept ++ [(key, process)]) ++ entries) by by rewrite <-(assoc (++)).
      destruct (IH (kept ++ [(key, process)]) st) as (st' & -> & Hlog).
      { by rewrite <-(assoc (++)). }
      exists st'. split; [by rewrite <-(assoc (++))|]. done.
Qed.

Lemma filter_sublist {A} (p : A → bool) l : sublist (List.filter p l) l.
Proof.
  induction l as [|a l IH]; simpl; [done|].
  destruct (p a); [by apply sublist_skip|by apply sublist_cons].
Qed.

(** Every handler and every exit event keeps the registry as it should be. *)
Lemma handle_tracked_ok q sv (st : state W) r sv' st' :
  handle q sv st = Some ((r, sv'), st') →
  tracked_ok (runningProcesses sv) → tracked_ok (runningProcesses sv').
Proof.
  destruct q as [[command|] project|project requestedPort|project|[[|p]|]|];
    cbn [handle].
  - rewrite run_unfold. cbv zeta.
    destruct (isServerCommand command).
    + destruct (sys_spawn _ _).1 as [[[[|?]|] ? ?|?]|?]; intros [= <- <- <-];
        try done.
      intros [Hnd Hall]. split; [by apply set_NoDup|]. by apply set_Forall.
    + destruct (sys_exec _ _).1 as [r0|?]; [|by intros [= <- <- <-]].
      destruct (error _); by intros [= <- <- <-].
  - by intros [= <- <- <-].
  - unfold host. destruct (negb (truthy project)); by intros [= <- <- <-].
  - unfold stop. destruct (negb (truthy project)); [by intros [= <- <- <-]|].
    destruct (JsMap.get project (previewServers sv)); simpl.
    + unfold bind, note. rewrite call_Some. by intros [= <- <- <-].
    + by intros [= <- <- <-].
  - by intros [= <- <- <-].
  - rewrite kill_unfold. cbv zeta.
    destruct (sys_exec _ _).1 as [r0|?]; [|by intros [= <- <- <-]].
    destruct (error _); [by intros [= <- <- <-]|].
    intros E Hok.
    destruct (remove_tracked_spec (S p) (runningProcesses sv) []
                (State (sys_exec (T "taskkill /F /PID " ++ show_nat (S p)) (world st)).2
                       (log st ++ [EExec (T "taskkill /F /PID " ++ show_nat (S p))])))
      as (st2 & Hrm & _); [by destruct Hok|].
    cbn [app] in Hrm. rewrite Hrm in E. injection E as <- <- <-. simpl.
    eapply tracked_ok_sublist; [|exact Hok]. apply filter_sublist.
  - by intros [= <- <- <-].
  - by intros [= <- <- <-].
Qed.

Lemma reachable_tracked_ok sv :
  reachable (W:=W) sv → tracked_ok (runningProcesses sv).
Proof.
  induction 1 as [|q sv st r sv' st' _ IH Hh|project sv _ IH].
  - split; [constructor|constructor].
  - by eapply handle_tracked_ok.
  - simpl. eapply tracked_ok_sublist; [|exact IH]. apply delete_sublist.
Qed.

Lemma reachable_no_preview sv : reachable (W:=W) sv → previewServers sv = [].
Proof.
  induction 1 as [|q sv st r sv' st' _ IH Hh|project sv _ IH]; [done| |done].
  by eapply handle_previewServers.
Qed.

(** X5.  In every state the server can reach, the registry of running
    processes holds one entry for a key and every tracked child has a
    process id; the list of processes then shows every tracked child, in
    the order of the registry, and no other row. *)
Theorem registry_invariant sv :
  reachable (W:=W) sv →
  NoDup (runningProcesses sv).*1
  ∧ Forall (λ e, has_pid e.2 = true) (runningProcesses sv)
  ∧ processes sv = Processes (map row (runningProcesses sv)).
Proof.
  intros Hr. destruct (reachable_tracked_ok sv Hr) as [Hnd Hall].
  split; [done|]. split; [done|].
  unfold processes. rewrite (reachable_no_preview sv Hr). cbn [map].
  rewrite app_nil_r. f_equal. clear Hnd.
  induction Hall as [|[key c] m Hc _ IH]; [done|].
  cbn [omap list_omap map]. rewrite IH. unfold row, has_pid in *. cbn [fst snd] in *.
  by destruct (pid c) as [[|p]|].
Qed.

(** X6.  When the termination command succeeds, the kill request answers
    with success, whether or not a tracked child has the process id; the
    registry loses exactly the children with that id and keeps the others
    in their order, and each child removed is killed once. *)
Theorem kill_success_removes p sv (st : state W) r w' :
  reachable (W:=W) sv →
  sys_exec (T "taskkill /F /PID " ++ show_nat (S p)) (world st) = (Ok r, w') →
  error r = None →
  ∃ st',
    kill (Some (S p)) sv st
    = Some ((Outcome true (T "Process " ++ show_nat (S p) ++ T " killed"),
             Server (previewServers sv)
                    (List.filter (other_than (S p)) (runningProcesses sv))), st')
    ∧ log st' = log st ++ EExec (T "taskkill /F /PID " ++ show_nat (S p))
                       :: kills_of (S p) (runningProcesses sv).
Proof.
  intros Hr Hexec Herr. rewrite kill_unfold. cbv zeta. rewrite Hexec. cbn [fst snd].
  rewrite Herr.
  destruct (reachable_tracked_ok sv Hr) as [Hnd _].
  destruct (remove_tracked_spec (S p) (runningProcesses sv) []
              (State w' (log st ++ [EExec (T "taskkill /F /PID " ++ show_nat (S p))])))
    as (st2 & Hrm & Hlog); [done|].
  cbn [app] in Hrm. rewrite Hrm. exists st2. split; [done|].
  rewrite Hlog. simpl. by rewrite <-(assoc (++)).
Qed.

(** X7.  A server command that starts is tracked under its project ([default]
    when none is given): the registry then answers that key with the new
    child and every other key as before, and nothing but the start of the
    command happens (a child tracked before under the key is replaced, not
    killed).  After an exit event for the project the key is free again
    and the other keys are untouched. *)
Theorem server_tracked_until_exit command project sv (st : state W) p output
    hasOutput w' :
  reachable (W:=W) sv →
  isServerCommand command = true →
  sys_spawn (server_cmd command) (world st)
  = (Ok (Spawned (Some (S p)) output hasOutput), w') →
  ∃ r sv',
    run (Some command) project sv st
    = Some ((r, sv'), State w' (log st ++ [ESpawn (server_cmd command)]))
    ∧ JsMap.get (key_of project) (runningProcesses sv') = Some (Child (Some (S p)))
    ∧ (∀ k, k ≠ key_of project →
         JsMap.get k (runningProcesses sv') = JsMap.get k (runningProcesses sv))
    ∧ JsMap.get (key_of project) (runningProcesses (child_exit project sv')) = None
    ∧ (∀ k, k ≠ key_of project →
         JsMap.get k (runningProcesses (child_exit project sv'))
         = JsMap.get k (runningProcesses sv)).
Proof.
  intros Hr Hs Hspawn. rewrite run_unfold, Hs. cbv zeta. rewrite Hspawn. cbn [fst snd].
  destruct (reachable_tracked_ok sv Hr) as [Hnd _].
  eexists _, _. split; [reflexivity|]. cbn [runningProcesses child_exit].
  split; [apply get_set_same|]. split; [intros k Hk; by apply get_set_other|].
  split; [by apply get_delete, set_NoDup|].
  intros k Hk. rewrite get_delete_other by done. by apply get_set_other.
Qed.

End Facts.
End RegistryFacts.

Module CommandFacts.
Import Terminal Commands MatchFacts.

#[local] Arguments is_digit : simpl never.

Lemma lits_match_startsWith l : ∀ s, lits_match false l s = startsWith l s.
Proof. induction l as [|a l IH]; intros [|x s]; simpl; try done. by rewrite IH. Qed.

(** A pattern anchored at the start matches nowhere else. *)
Lemma search_bos r s : ∀ pos, 0 < pos → search false (Cat Bos r) pos s = None.
Proof.
  induction s as [|x s IH]; intros pos Hpos; simpl;
    unfold match_at; simpl; destruct pos; try lia; simpl; [done|].
  apply IH. lia.
Qed.

Lemma match_python s :
  match_ false pythonRegex s =
  if startsWith (T "python") s then Some (Match 0 6 []) else None.
Proof.
  unfold match_, exec. simpl Nat.leb. cbv iota. rewrite drop_0.
  destruct s as [|x s].
  - done.
  - cbn [search]. unfold match_at at 1, pythonRegex. cbn [m Nat.eqb].
    rewrite m_Str, lits_match_startsWith.
    destruct (startsWith (T "python") (x :: s)); [done|].
    apply search_bos. lia.
Qed.

Lemma startsWith_shorter p q : ∀ s,
  startsWith (p ++ q) s = true → startsWith p s = true.
Proof.
  induction p as [|a p IH]; intros [|x s]; simpl; try done.
  intros [-> Hs]%andb_prop. by apply IH.
Qed.

Lemma startsWith_python_space s :
  startsWith (T "python ") s = true → startsWith (T "python") s = true.
Proof. apply (startsWith_shorter (T "python") (T " ")). Qed.

Lemma includes_prefix p s : startsWith p s = true → includes p s = true.
Proof.
  intros Hp. unfold includes, indexOf. apply bool_decide_eq_true.
  destruct s; simpl; rewrite Hp; by eexists.
Qed.

(** X8.  The rewriting of the Python launcher: a regular command has its
    first word [python] replaced by [py] when a space follows it and is
    left as it is otherwise; a server command has a leading [python]
    replaced by [py] whatever follows it (so [python3] becomes [py3]) and
    is left as it is when [python] occurs elsewhere or not at all. *)
Theorem python_launcher command :
  regular_cmd command
  = (if startsWith (T "python ") command then T "py" ++ drop 6 command else command)
  ∧ server_cmd command
    = (if startsWith (T "python") command then T "py" ++ drop 6 command else command).
Proof.
  unfold regular_cmd, server_cmd, replace_first. rewrite match_python. split.
  - destruct (startsWith (T "python ") command) eqn:Hs; [|done].
    by rewrite (startsWith_python_space _ Hs).
  - destruct (startsWith (T "python") command) eqn:Hs.
    + by rewrite (includes_prefix _ _ Hs).
    + by destruct (includes (T "python") command).
Qed.

(** The port pattern at one position: the rest of the text is four or five
    digits. *)
Lemma match_at_port pos s :
  match_at false portRegex pos s =
  if is_port s then Some (Match pos (pos + length s) []) else None.
Proof.
  unfold match_at, portRegex, is_port, Opt.
  destruct s as [|c1 [|c2 [|c3 [|c4 [|c5 [|c6 s]]]]]]; cbn [Seq m forallb length];
    repeat match goal with
           | |- context [is_digit ?c] => destruct (is_digit c); cbn [andb]
           end;
    cbn; try done.
  - do 2 f_equal. lia.
  - do 2 f_equal. lia.
  - by rewrite andb_false_r.
Qed.

Lemma search_port s : ∀ pos,
  search false portRegex pos s =
  if is_port s then Some (Match pos (pos + length s) [])
  else match s with
       | [] => None
       | _ :: s' => search false portRegex (S pos) s'
       end.
Proof.
  intros pos. destruct s as [|x s]; cbn [search]; rewrite match_at_port;
    by destruct (is_port _).
Qed.

(** Where the first port is found in [pre ++ ds]: after [pre], when no
    suffix that starts in [pre] is a port. *)
Lemma search_port_after ds : ∀ pre pos,
  (∀ j, j < length pre → is_port (drop j pre ++ ds) = false) →
  search false portRegex pos (pre ++ ds)
  = search false portRegex (pos + length pre) ds.
Proof.
  induction pre as [|x pre IH]; intros pos Hno.
  - simpl. by rewrite Nat.add_0_r.
  - rewrite search_port. pose proof (Hno 0 ltac:(simpl; lia)) as H0.
    rewrite drop_0 in H0. rewrite H0.
    cbn [app]. rewrite IH.
    + f_equal. simpl. lia.
    + intros j Hj. apply (Hno (S j)). simpl. lia.
Qed.

Lemma search_port_none s : ∀ pos,
  (∀ j, j ≤ length s → is_port (drop j s) = false) →
  search false portRegex pos s = None.
Proof.
  induction s as [|x s IH]; intros pos Hno; rewrite search_port;
    pose proof (Hno 0 ltac:(simpl; lia)) as H0; rewrite drop_0 in H0; rewrite H0.
  - done.
  - apply IH. intros j Hj. apply (Hno (S j)). simpl. lia.
Qed.

Lemma port_of_search command :
  port_of command =
  match search false portRegex 0 command with
  | Some x => whole command x
  | None => T "8000"
  end.
Proof. unfold port_of, match_, exec. simpl Nat.leb. cbv iota. by rewrite drop_0. Qed.

Lemma is_port_digits s : is_port s = true → forallb is_digit s = true.
Proof. unfold is_port. by intros [? _]%andb_prop. Qed.

Lemma ends_without_digit_drop pre j ds :
  ends_without_digit pre = true → j < length pre →
  forallb is_digit (drop j pre ++ ds) = false.
Proof.
  revert j. induction pre as [|x pre IH]; intros j Hend Hj; [simpl in Hj; lia|].
  destruct pre as [|y pre].
  - destruct j; [|simpl in Hj; lia]. simpl in *.
    unfold ends_without_digit in Hend. simpl in Hend.
    by destruct (is_digit x).
  - destruct j as [|j].
    + rewrite drop_0. cbn [app forallb].
      specialize (IH 0 Hend ltac:(simpl; lia)). rewrite drop_0 in IH.
      cbn [app forallb] in IH. rewrite IH. apply andb_false_r.
    + simpl. apply (IH j Hend). simpl in *. lia.
Qed.

(** X9.  The port shown for a server command is read off the end of the
    command: its last five characters when they are digits; its last four
    characters when they are digits and no digit comes before them; and
    8000 when the command ends with fewer than four digits. *)
Theorem port_of_command pre ds :
  forallb is_digit ds = true →
  (length ds = 5 → port_of (pre ++ ds) = ds)
  ∧ (length ds = 4 → ends_without_digit pre = true → port_of (pre ++ ds) = ds)
  ∧ (length ds < 4 → ends_without_digit pre = true → port_of (pre ++ ds) = T "8000").
Proof.
  intros Hds. rewrite port_of_search. split; [|split].
  - intros Hlen. rewrite search_port_after.
    + rewrite search_port. unfold is_port. rewrite Hds, Hlen. simpl.
      unfold whole. cbn [m_start m_end].
      replace (length pre + 5 - length pre) with 5 by lia.
      rewrite drop_app_length. rewrite take_ge by lia. done.
    + intros j Hj. unfold is_port. rewrite length_app, length_drop, Hlen.
      apply andb_false_iff. right. apply orb_false_iff.
      split; apply Nat.eqb_neq; lia.
  - intros Hlen Hend. rewrite search_port_after.
    + rewrite search_port. unfold is_port. rewrite Hds, Hlen. simpl.
      unfold whole. cbn [m_start m_end].
      replace (length pre + 4 - length pre) with 4 by lia.
      rewrite drop_app_length. rewrite take_ge by lia. done.
    + intros j Hj. unfold is_port.
      by rewrite (ends_without_digit_drop pre j ds Hend Hj).
  - intros Hlen Hend. rewrite search_port_none; [done|].
    intros j Hj. rewrite length_app in Hj.
    destruct (decide (j < length pre)) as [Hlt|Hge].
    + unfold is_port. rewrite drop_app_le by lia.
      by rewrite (ends_without_digit_drop pre j ds Hend Hlt).
    + unfold is_port. rewrite drop_app_ge by lia.
      apply andb_false_iff. right. rewrite length_drop.
      apply orb_false_iff. split; apply Nat.eqb_neq; lia.
Qed.

End CommandFacts.

Module ChatEffects.
Import Chat Dialogue EffectFacts ParserFacts SoundFacts.

Section Facts.
Context {W : Type} `{Services W}.
Variable generateFileTemplate : text → text → text → text.

(** The completion stage with its calls written out. *)
Lemma complete_unfold prompt code_ filename project image (st : state W) :
  complete generateFileTemplate prompt code_ filename project image st =
  let fileOp := isFileOperation (toLowerCase prompt) in
  let h := (db_loadChatHistory project (world st)).1 in
  let st1 := State (db_loadChatHistory project (world st)).2
                   (log st ++ [ELoadChatHistory project]) in
  match h with
  | Throws message => Some (failure message, st1)
  | Ok chatHistory =>
      let fs := (db_getAllProjectFiles project (world st1)).1 in
      let st2 := if truthy project
                 then State (db_getAllProjectFiles project (world st1)).2
                            (log st1 ++ [EGetAllProjectFiles project])
                 else st1 in
      let contextInfo :=
        (history_context chatHistory ++
         (if truthy project
          then match fs with
               | Ok projectFiles => project_context project projectFiles
               | Throws _ => []
               end
          else [])) ++ open_file_context code_ filename in
      let systemPrompt :=
        if fileOp then fileOperationPrompt prompt contextInfo
        else questionPrompt prompt contextInfo in
      if truthy image then
        Some (failure (T "isCreateRequest is not defined"), st2)
      else
        let a := (hf_call systemPrompt [] (world st2)).1 in
        let st3 := State (hf_call systemPrompt [] (world st2)).2
                         (log st2 ++ [ECallHF systemPrompt []]) in
        match a with
        | Throws message => Some (failure message, st3)
        | Ok aiResponse =>
            match chat_edits fileOp aiResponse with
            | None => None
            | Some files =>
                let saved (response : text) (act : option action) :=
                  let s := (db_saveChatHistory project prompt response (world st3)).1 in
                  let st4 := State (db_saveChatHistory project prompt response (world st3)).2
                                   (log st3 ++ [ESaveChatHistory project prompt response]) in
                  match s with
                  | Throws message => Some (failure message, st4)
                  | Ok _ => Some (Reply response act, st4)
                  end in
                match files with
                | f :: rest =>
                    saved (files_message (explanation_of aiResponse) files)
                          (Some (match rest with
                                 | [] => WriteFile (filepath f) (content f)
                                 | _ :: _ => WriteMultipleFiles files
                                 end))
                | [] =>
                    match match_ true simpleCreateRegex prompt with
                    | Some x =>
                        if negb (includes fence aiResponse) then
                          saved (T "✅ Created `" ++ group 1 x ++
                                 T "` with a starter template. The file is now open in the editor.")
                                (Some (WriteFile (group 1 x)
                                         (generateFileTemplate (group 1 x)
                                            (toLowerCase (after_last_dot (group 1 x)))
                                            prompt)))
                        else saved aiResponse None
                    | None => saved aiResponse None
                    end
                end
            end
        end
  end.
Proof.
  unfold complete. cbv zeta.
  unfold bind at 1, loadChatHistory. rewrite call_Some.
  destruct (db_loadChatHistory project (world st)).1 as [chatHistory|message]; [|done].
  set (st1 := State _ _).
  unfold bind at 1.
  destruct (truthy project) eqn:Hp.
  - unfold bind at 1, getAllProjectFiles. rewrite call_Some.
    set (st2 := State _ _).
    destruct (db_getAllProjectFiles project (world st1)).1 as [projectFiles|m];
      unfold ret; cbv beta iota.
    + destruct (truthy image); [by rewrite app_nil_r || done|].
      unfold bind at 1, callHF. rewrite call_Some.
      destruct (hf_call _ _ _).1 as [aiResponse|m]; [|done].
      unfold bind at 1, lift.
      destruct (chat_edits _ aiResponse) as [[|f rest]|]; [| |done].
      * destruct (match_ true simpleCreateRegex prompt) as [x|].
        -- destruct (negb (includes fence aiResponse)).
           ++ unfold bind, saveChatHistory. rewrite call_Some.
              by destruct (db_saveChatHistory _ _ _ _).1.
           ++ unfold bind, saveChatHistory. rewrite call_Some.
              by destruct (db_saveChatHistory _ _ _ _).1.
        -- unfold bind, saveChatHistory. rewrite call_Some.
           by destruct (db_saveChatHistory _ _ _ _).1.
      * unfold bind, saveChatHistory. rewrite call_Some.
        destruct (db_saveChatHistory _ _ _ _).1; [|done]. by destruct rest.
    + rewrite app_nil_r.
      destruct (truthy image); [done|].
      unfold bind at 1, callHF. rewrite call_Some.
      destruct (hf_call _ _ _).1 as [aiResponse|m']; [|done].
      unfold bind at 1, lift.
      destruct (chat_edits _ aiResponse) as [[|f rest]|]; [| |done].
      * destruct (match_ true simpleCreateRegex prompt) as [x|].
        -- destruct (negb (includes fence aiResponse)).
           ++ unfold bind, saveChatHistory. rewrite call_Some.
              by destruct (db_saveChatHistory _ _ _ _).1.
           ++ unfold bind, saveChatHistory. rewrite call_Some.
              by destruct (db_saveChatHistory _ _ _ _).1.
        -- unfold bind, saveChatHistory. rewrite call_Some.
           by destruct (db_saveChatHistory _ _ _ _).1.
      * unfold bind, saveChatHistory. rewrite call_Some.
        destruct (db_saveChatHistory _ _ _ _).1; [|done]. by destruct rest.
  - unfold ret. cbv beta iota. rewrite app_nil_r.
    destruct (truthy image); [done|].
    unfold bind at 1, callHF. rewrite call_Some.
    destruct (hf_call _ _ _).1 as [aiResponse|m']; [|done].
    unfold bind at 1, lift.
    destruct (chat_edits _ aiResponse) as [[|f rest]|]; [| |done].
    * destruct (match_ true simpleCreateRegex prompt) as [x|].
      -- destruct (negb (includes fence aiResponse)).
         ++ unfold bind, saveChatHistory. rewrite call_Some.
            by destruct (db_saveChatHistory _ _ _ _).1.
         ++ unfold bind, saveChatHistory. rewrite call_Some.
            by destruct (db_saveChatHistory _ _ _ _).1.
      -- unfold bind, saveChatHistory. rewrite call_Some.
         by destruct (db_saveChatHistory _ _ _ _).1.
    * unfold bind, saveChatHistory. rewrite call_Some.
      destruct (db_saveChatHistory _ _ _ _).1; [|done]. by destruct rest.
Qed.

Ltac sub_list :=
  repeat first [apply sublist_nil | apply sublist_skip | apply sublist_cons].

Ltac chat_branch :=
  eexists _, _, _, _, _; split; [reflexivity|];
  split; [cbn [log]; rewrite <-?(assoc (++)); reflexivity|];
  split; [cbn [app]; unfold chat_calls; sub_list|];
  split; [unfold saves, provider_calls, prompts;
          cbn [app List.filter is_save omap list_omap length]; intros; congruence|];
  cbn [reply_text]; intros ? ?; simplify_eq;
  (by left) ||
  (right; unfold saves; cbn [app List.filter is_save length]; by split).

(** X10.  The chat handler always answers, and the only calls it makes are,
    in this order and each at most once: loading the chat history, listing
    the project's files, one call to the provider (never with an image)
    and one write to the chat history.  It never runs a command and never
    reads or writes a file.  The history is written only after the provider
    answered, and a reply that follows any call is the text that was
    written to the history. *)
Theorem chat_calls_in_order prompt code_ filename project image (st : state W) :
  ∃ resp st' new p response,
    chat generateFileTemplate prompt code_ filename project image st
    = Some (resp, st')
    ∧ log st' = log st ++ new
    ∧ new `sublist_of` chat_calls project prompt p response
    ∧ (saves new = 1 → provider_calls new = 1)
    ∧ (∀ text, reply_text resp = Some text →
         new = [] ∨ (saves new = 1 ∧ text = response)).
Proof.
  unfold chat.
  destruct (negb (truthy prompt)).
  { exists PromptRequired, st, [], [], []. rewrite app_nil_r.
    split; [done|]. split; [done|]. split; [apply sublist_nil_l|].
    split; [done|]. by left. }
  cbv zeta. destruct (needs_project prompt project).
  { eexists _, st, [], [], []. rewrite app_nil_r.
    split; [done|]. split; [done|]. split; [apply sublist_nil_l|].
    split; [done|]. by left. }
  destruct (match_ true deleteRegex prompt).
  { eexists _, st, [], [], []. rewrite app_nil_r.
    split; [done|]. split; [done|]. split; [apply sublist_nil_l|].
    split; [done|]. by left. }
  destruct (match_ true readRegex prompt).
  { eexists _, st, [], [], []. rewrite app_nil_r.
    split; [done|]. split; [done|]. split; [apply sublist_nil_l|].
    split; [done|]. by left. }
  destruct (isFixCommand (toLowerCase prompt) && truthy project).
  { eexists _, st, [], [], []. rewrite app_nil_r.
    split; [done|]. split; [done|]. split; [apply sublist_nil_l|].
    split; [done|]. by left. }
  rewrite complete_unfold. cbv zeta.
  destruct (db_loadChatHistory project (world st)).1 as [chatHistory|message].
  2:{ unfold failure. destruct (includes _ message).
      - eexists _, _, _, [], []. split; [reflexivity|]. split; [reflexivity|].
        split; [unfold chat_calls; sub_list|]. split; [by vm_compute|]. done.
      - eexists _, _, _, [], []. split; [reflexivity|]. split; [reflexivity|].
        split; [unfold chat_calls; sub_list|]. split; [by vm_compute|]. done. }
  set (fileOp := isFileOperation _).
  destruct (truthy project).
  - destruct (truthy image).
    { unfold failure. destruct (includes _ _).
      - eexists _, _, _, [], []. split; [reflexivity|].
        split; [cbn [log]; rewrite <-?(assoc (++)); reflexivity|].
        split; [cbn [app]; unfold chat_calls; sub_list|]. split; [by vm_compute|]. done.
      - eexists _, _, _, [], []. split; [reflexivity|].
        split; [cbn [log]; rewrite <-?(assoc (++)); reflexivity|].
        split; [cbn [app]; unfold chat_calls; sub_list|]. split; [by vm_compute|]. done. }
    set (systemPrompt := if fileOp then _ else _). clearbody systemPrompt.
    destruct (hf_call systemPrompt [] _).1 as [aiResponse|message].
    2:{ unfold failure. destruct (includes _ message).
        - eexists _, _, _, systemPrompt, []. split; [reflexivity|].
          split; [cbn [log]; rewrite <-?(assoc (++)); reflexivity|].
          split; [cbn [app]; unfold chat_calls; sub_list|]. split; [by vm_compute|]. done.
        - eexists _, _, _, systemPrompt, []. split; [reflexivity|].
          split; [cbn [log]; rewrite <-?(assoc (++)); reflexivity|].
          split; [cbn [app]; unfold chat_calls; sub_list|]. split; [by vm_compute|]. done. }
    destruct (chat_edits_total fileOp aiResponse) as [files ->].
    destruct files as [|f rest].
    + destruct (match_ true simpleCreateRegex prompt) as [x|];
        [destruct (negb (includes fence aiResponse))|];
        destruct (db_saveChatHistory _ _ _ _).1 as [[]|message];
        unfold failure; try destruct (includes _ message); chat_branch.
    + destruct (db_saveChatHistory _ _ _ _).1 as [[]|message];
        unfold failure; try destruct (includes _ message); chat_branch.
  - destruct (truthy image).
    { unfold failure. destruct (includes _ _).
      - eexists _, _, _, [], []. split; [reflexivity|].
        split; [cbn [log]; rewrite <-?(assoc (++)); reflexivity|].
        split; [cbn [app]; unfold chat_calls; sub_list|]. split; [by vm_compute|]. done.
      - eexists _, _, _, [], []. split; [reflexivity|].
        split; [cbn [log]; rewrite <-?(assoc (++)); reflexivity|].
        split; [cbn [app]; unfold chat_calls; sub_list|]. split; [by vm_compute|]. done. }
    set (systemPrompt := if fileOp then _ else _). clearbody systemPrompt.
    destruct (hf_call systemPrompt [] _).1 as [aiResponse|message].
    2:{ unfold failure. destruct (includes _ message).
        - eexists _, _, _, systemPrompt, []. split; [reflexivity|].
          split; [cbn [log]; rewrite <-?(assoc (++)); reflexivity|].
          split; [cbn [app]; unfold chat_calls; sub_list|]. split; [by vm_compute|]. done.
        - eexists _, _, _, systemPrompt, []. split; [reflexivity|].
          split; [cbn [log]; rewrite <-?(assoc (++)); reflexivity|].
          split; [cbn [app]; unfold chat_calls; sub_list|]. split; [by vm_compute|]. done. }
    destruct (chat_edits_total fileOp aiResponse) as [files ->].
    destruct files as [|f rest].
    + destruct (match_ true simpleCreateRegex prompt) as [x|];
        [destruct (negb (includes fence aiResponse))|];
        destruct (db_saveChatHistory _ _ _ _).1 as [[]|message];
        unfold failure; try destruct (includes _ message); chat_branch.
    + destruct (db_saveChatHistory _ _ _ _).1 as [[]|message];
        unfold failure; try destruct (includes _ message); chat_branch.
Qed.

(** X11.  A request that carries an image is never completed: it is
    answered by one of the intents that need no call, or it fails with
    status 500 before the provider is called and before anything is written
    to the chat history (the handler reads a variable that is not declared
    anywhere); once the chat history has loaded, the failure is the
    reference error of that variable. *)
Theorem image_request_fails prompt code_ filename project image (st : state W) :
  truthy image = true →
  ∃ resp st' new,
    chat generateFileTemplate prompt code_ filename project image st
    = Some (resp, st')
    ∧ log st' = log st ++ new
    ∧ provider_calls new = 0 ∧ saves new = 0
    ∧ (new = [] ∨ ∃ message, resp = Failed message)
    ∧ (∀ chatHistory w1,
         new ≠ [] →
         db_loadChatHistory project (world st) = (Ok chatHistory, w1) →
         resp = Failed (T "AI error: isCreateRequest is not defined")).
Proof.
  intros Himage. unfold chat.
  destruct (negb (truthy prompt)).
  { exists PromptRequired, st, []. rewrite app_nil_r.
    split; [done|]. split; [done|]. split; [done|]. split; [done|].
    split; [by left|done]. }
  cbv zeta. destruct (needs_project prompt project).
  { eexists _, st, []. rewrite app_nil_r.
    split; [done|]. split; [done|]. split; [done|]. split; [done|].
    split; [by left|done]. }
  destruct (match_ true deleteRegex prompt).
  { eexists _, st, []. rewrite app_nil_r.
    split; [done|]. split; [done|]. split; [done|]. split; [done|].
    split; [by left|done]. }
  destruct (match_ true readRegex prompt).
  { eexists _, st, []. rewrite app_nil_r.
    split; [done|]. split; [done|]. split; [done|]. split; [done|].
    split; [by left|done]. }
  destruct (isFixCommand (toLowerCase prompt) && truthy project).
  { eexists _, st, []. rewrite app_nil_r.
    split; [done|]. split; [done|]. split; [done|]. split; [done|].
    split; [by left|done]. }
  rewrite complete_unfold. cbv zeta. rewrite Himage.
  destruct (db_loadChatHistory project (world st)) as [[chatHistory|message] w1] eqn:Hload;
    cbn [fst snd].
  2:{ eexists _, _, [_]. split; [reflexivity|]. split; [reflexivity|].
      split; [done|]. split; [done|]. split.
      - right. unfold failure. destruct (includes _ _); by eexists.
      - by intros ? ? _ [=]. }
  destruct (truthy project).
  - eexists _, _, _. split; [reflexivity|].
    split; [cbn [log]; rewrite <-?(assoc (++)); reflexivity|].
    split; [done|]. split; [done|]. split; [right; by eexists|]. done.
  - eexists _, _, [_]. split; [reflexivity|]. split; [reflexivity|].
    split; [done|]. split; [done|]. split; [right; by eexists|]. done.
Qed.

End Facts.




End ChatEffects.

Module LanguageFacts.
Import Language Phrases RegexFacts MatchFacts TextFacts.

Lemma rep_greedy_sound {R} p (k : cont R) s : ∀ least pos c x,
  rep_greedy p least k pos s c = Some x →
  ∃ pre s', s = pre ++ s' ∧ least ≤ length pre ∧ forallb p pre = true
            ∧ k (pos + length pre) s' c = Some x.
Proof.
  induction s as [|y s IH]; intros least pos c x; cbn [rep_greedy].
  - destruct least; [|done]. intros Hk. exists [], []. simpl.
    rewrite Nat.add_0_r. auto with lia.
  - assert (Hstop : match least with 0 => k pos (y :: s) c | S _ => None end = Some x →
              ∃ pre s', y :: s = pre ++ s' ∧ least ≤ length pre
                        ∧ forallb p pre = true ∧ k (pos + length pre) s' c = Some x).
    { destruct least; [|done]. intros Hk. exists [], (y :: s). simpl.
      rewrite Nat.add_0_r. auto with lia. }
    destruct (p y) eqn:Hp; [|exact Hstop].
    destruct (rep_greedy p (pred least) k (S pos) s c) as [x'|] eqn:E; [|exact Hstop].
    intros [= ->]. destruct (IH _ _ _ _ E) as (pre & s' & -> & Hl & Hall & Hk).
    exists (y :: pre), s'. simpl. rewrite Hp, Hall.
    replace (pos + S (length pre)) with (S pos + length pre) by lia.
    split; [done|]. split; [lia|]. done.
Qed.

Lemma rep_lazy_sound {R} p (k : cont R) s : ∀ least pos c x,
  rep_lazy p least k pos s c = Some x →
  ∃ pre s', s = pre ++ s' ∧ least ≤ length pre ∧ forallb p pre = true
            ∧ k (pos + length pre) s' c = Some x.
Proof.
  induction s as [|y s IH]; intros least pos c x; destruct least; cbn [rep_lazy].
  - destruct (k pos [] c) eqn:E; [|done]. intros [= ->]. exists [], []. simpl.
    rewrite Nat.add_0_r. auto with lia.
  - done.
  - destruct (k pos (y :: s) c) eqn:E.
    + intros [= ->]. exists [], (y :: s). simpl. rewrite Nat.add_0_r. auto with lia.
    + destruct (p y) eqn:Hp; [|done]. intros (pre & s' & -> & Hl & Hall & Hk)%IH.
      exists (y :: pre), s'. simpl. rewrite Hp, Hall.
      replace (pos + S (length pre)) with (S pos + length pre) by lia.
      split; [done|]. split; [lia|]. done.
  - destruct (p y) eqn:Hp; [|done]. intros (pre & s' & -> & Hl & Hall & Hk)%IH.
    exists (y :: pre), s'. simpl. rewrite Hp, Hall.
    replace (pos + S (length pre)) with (S pos + length pre) by lia.
    split; [done|]. split; [lia|]. done.
Qed.

Lemma captured_none ci r : must r = [] → captured ci r [].
Proof. intros E. split; [constructor|]. rewrite E. constructor. Qed.

Lemma captured_app ci r1 r2 r n1 n2 :
  (∀ g, g ∈ groups r1 → g ∈ groups r) →
  (∀ g, g ∈ groups r2 → g ∈ groups r) →
  must r = must r1 ++ must r2 →
  captured ci r1 n1 → captured ci r2 n2 → captured ci r (n2 ++ n1).
Proof.
  intros H1 H2 Hm [Hc1 Hm1] [Hc2 Hm2]. split.
  - apply Forall_app. split.
    + eapply Forall_impl; [exact Hc2|]. intros it (sub & Hin & Hd).
      exists sub. split; [by apply H2|done].
    + eapply Forall_impl; [exact Hc1|]. intros it (sub & Hin & Hd).
      exists sub. split; [by apply H1|done].
  - rewrite Hm. apply Forall_app. split.
    + eapply Forall_impl; [exact Hm1|]. intros i Hi. rewrite fmap_app.
      apply elem_of_app. by right.
    + eapply Forall_impl; [exact Hm2|]. intros i Hi. rewrite fmap_app.
      apply elem_of_app. by left.
Qed.

Lemma captured_alt ci r r' new :
  (∀ g, g ∈ groups r → g ∈ groups r') → must r' = [] →
  captured ci r new → captured ci r' new.
Proof.
  intros Hsub Hm [Hc _]. split.
  - eapply Forall_impl; [exact Hc|].
    intros it (sub & Hin & Hd). exists sub. split; [by apply Hsub|done].
  - rewrite Hm. constructor.
Qed.

(** A match takes a text of the pattern, and every capture it makes is a
    text of its group. *)
Lemma m_sound ci r : ∀ R (k : cont R) pos s c x,
  m ci r k pos s c = Some x →
  ∃ pre s' new,
    s = pre ++ s' ∧ den ci r pre ∧ captured ci r new
    ∧ k (pos + length pre) s' (new ++ c) = Some x.
Proof.
  induction r as [a|p| | | |r1 IH1 r2 IH2|r1 IH1 r2 IH2|greedy least p|i r IH|r IH];
    intros R k pos s c x; cbn [m].
  - destruct s as [|y s]; [done|]. destruct (lit_eq ci a y) eqn:E; [|done].
    intros Hk. exists [y], s, []. simpl.
    replace (pos + 1) with (S pos) by lia.
    split; [done|]. split; [by exists y|]. split; [by apply captured_none|done].
  - destruct s as [|y s]; [done|]. destruct (p y) eqn:E; [|done].
    intros Hk. exists [y], s, []. simpl.
    replace (pos + 1) with (S pos) by lia.
    split; [done|]. split; [by exists y|]. split; [by apply captured_none|done].
  - destruct (pos =? 0); [|done]. intros Hk. exists [], s, []. simpl.
    rewrite Nat.add_0_r. split; [done|]. split; [done|].
    split; [by apply captured_none|done].
  - destruct s; [|done]. intros Hk. exists [], [], []. simpl.
    rewrite Nat.add_0_r. split; [done|]. split; [done|].
    split; [by apply captured_none|done].
  - intros Hk. exists [], s, []. simpl.
    rewrite Nat.add_0_r. split; [done|]. split; [done|].
    split; [by apply captured_none|done].
  - intros (p1 & s1 & n1 & -> & Hd1 & Hc1 & Hk)%IH1.
    apply IH2 in Hk as (p2 & s2 & n2 & -> & Hd2 & Hc2 & Hk).
    exists (p1 ++ p2), s2, (n2 ++ n1).
    split; [by rewrite <-(assoc (++))|]. split; [by exists p1, p2|]. split.
    + eapply captured_app; [| | |exact Hc1|exact Hc2]; [| |done].
      * intros g Hg. simpl. apply elem_of_app. by left.
      * intros g Hg. simpl. apply elem_of_app. by right.
    + rewrite length_app, <-(assoc (++)).
      by replace (pos + (length p1 + length p2)) with (pos + length p1 + length p2) by lia.
  - destruct (m ci r1 k pos s c) as [x'|] eqn:E.
    + intros [= ->]. apply IH1 in E as (pre & s' & new & -> & Hd & Hc & Hk).
      exists pre, s', new. split; [done|]. split; [by left|]. split; [|done].
      eapply captured_alt; [|done|exact Hc]. intros g Hg. simpl.
      apply elem_of_app. by left.
    + intros (pre & s' & new & -> & Hd & Hc & Hk)%IH2.
      exists pre, s', new. split; [done|]. split; [by right|]. split; [|done].
      eapply captured_alt; [|done|exact Hc]. intros g Hg. simpl.
      apply elem_of_app. by right.
  - destruct greedy.
    + intros (pre & s' & -> & Hl & Hall & Hk)%rep_greedy_sound.
      exists pre, s', []. split; [done|]. split; [done|].
      split; [by apply captured_none|done].
    + intros (pre & s' & -> & Hl & Hall & Hk)%rep_lazy_sound.
      exists pre, s', []. split; [done|]. split; [done|].
      split; [by apply captured_none|done].
  - intros (pre & s' & new & -> & Hd & [Hc Hm] & Hk)%IH.
    exists pre, s', ((i, pre) :: new). split; [done|]. split; [done|]. split.
    + split.
      * constructor.
        -- exists r. split; [simpl; apply elem_of_cons; by left|done].
        -- eapply Forall_impl; [exact Hc|]. intros it (sub & Hin & Hd').
           exists sub. split; [simpl; apply elem_of_cons; by right|done].
      * simpl. constructor; [apply elem_of_cons; by left|].
        eapply Forall_impl; [exact Hm|]. intros j Hj. apply elem_of_cons. by right.
    + replace (pos + length pre - pos) with (length pre) in Hk by lia.
      by rewrite take_app_length in Hk.
  - destruct (m ci r (λ _ _ c', Some c') pos s c) as [c'|] eqn:E; [|done].
    apply IH in E as (pre & s' & new & -> & Hd & Hc & [= <-]).
    intros Hk. exists [], (pre ++ s'), new. simpl. rewrite Nat.add_0_r.
    split; [done|]. split; [done|]. split; [|done].
    eapply captured_alt; [|done|exact Hc]. done.
Qed.

Lemma match_at_sound ci r pos s x :
  match_at ci r pos s = Some x → captured ci r (m_caps x).
Proof.
  unfold match_at. intros (pre & s' & new & -> & Hd & Hc & [= <-])%m_sound.
  simpl. by rewrite app_nil_r.
Qed.

Lemma search_sound ci r s : ∀ pos x,
  search ci r pos s = Some x → captured ci r (m_caps x).
Proof.
  induction s as [|y s IH]; intros pos x; cbn [search];
    destruct (match_at ci r pos _) as [x'|] eqn:E; try done.
  - intros [= <-]. by eapply match_at_sound.
  - intros [= <-]. by eapply match_at_sound.
  - apply IH.
Qed.

Lemma exec_sound ci r s last_ x :
  exec ci r s last_ = Some x → captured ci r (m_caps x).
Proof.
  unfold exec. destruct (last_ <=? length s); [|done]. apply search_sound.
Qed.

Lemma capture_first i (cs : caps) :
  i ∈ cs.*1 → ∃ t, capture i cs = Some t ∧ (i, t) ∈ cs.
Proof.
  induction cs as [|[j t] cs IH]; simpl.
  - by intros ?%elem_of_nil.
  - destruct (i =? j) eqn:E.
    + apply Nat.eqb_eq in E as ->. intros _. exists t. split; [done|].
      apply elem_of_cons. by left.
    + intros [->|Hin]%elem_of_cons; [by rewrite Nat.eqb_refl in E|].
      destruct (IH Hin) as (t' & Hc & Hin'). exists t'. split; [done|].
      apply elem_of_cons. by right.
Qed.

(** The text of a group that always takes part is a text of a group of the
    pattern with that number. *)
Lemma group_sound ci r x i :
  captured ci r (m_caps x) → i ∈ must r →
  ∃ sub, (i, sub) ∈ groups r ∧ den ci sub (group i x).
Proof.
  intros [Hc Hm] Hi. unfold group.
  rewrite Forall_forall in Hm. destruct (capture_first i _ (Hm i Hi)) as (t & -> & Hin).
  rewrite Forall_forall in Hc. destruct (Hc _ Hin) as (sub & Hg & Hd).
  by exists sub.
Qed.

(** What holds of the empty text and of every text of the groups numbered
    [i] holds of the text of group [i] in a match. *)
Lemma group_all ci r x i (P : text → Prop) :
  captured ci r (m_caps x) → P [] →
  (∀ sub t, (i, sub) ∈ groups r → den ci sub t → P t) →
  P (group i x).
Proof.
  intros [Hc _] Hnil Hall. unfold group.
  induction Hc as [|[j t] cs (sub & Hin & Hd) _ IH]; [done|].
  cbn [capture]. destruct (i =? j) eqn:E; [|exact IH].
  apply Nat.eqb_eq in E as ->. simpl. by eapply Hall.
Qed.

(** Where a block begins, the text starts with a text of the [FILE:]
    grammar. *)
Lemma begins_block_text s :
  Protocol.begins_block s = true →
  ∃ pre rest, s = pre ++ rest ∧ den true fileRegex pre.
Proof.
  unfold Protocol.begins_block, match_at.
  destruct (m true fileRegex _ 0 s []) eqn:E; [|done]. intros _.
  apply m_sound in E as (pre & s' & new & -> & Hd & _). by exists pre, s'.
Qed.

End LanguageFacts.

Module PathFacts.
Import Chat Language Phrases RegexFacts MatchFacts TextFacts TrimFacts QuoteFacts.
Import ParserFacts LanguageFacts ChatEffects.

#[local] Arguments is_space : simpl never.
#[local] Arguments is_word : simpl never.
#[local] Arguments is_quote : simpl never.
#[local] Arguments not_space_quote : simpl never.
#[local] Arguments not_nl_backtick : simpl never.
#[local] Arguments is_path_char : simpl never.
#[local] Arguments is_alnum : simpl never.

Lemma dot_only y : lit_eq true dot y = true → y = dot.
Proof. each_char y. Qed.

Lemma path_char_one_line y : is_path_char y = true → not_nl_backtick y = true.
Proof. each_char y. Qed.

Lemma alnum_path_char y : is_alnum y = true → is_path_char y = true.
Proof. each_char y. Qed.

Lemma forallb_impl {A} (p q : A → bool) l :
  (∀ y, p y = true → q y = true) → forallb p l = true → forallb q l = true.
Proof.
  intros Hpq. induction l as [|y l IH]; [done|]. cbn [forallb].
  intros [Hy Hl]%andb_prop. by rewrite (Hpq y Hy), IH.
Qed.

Lemma phrase_path_den t : den true phrase_path t → names_file t.
Proof.
  unfold phrase_path, plus. cbn [Seq den].
  intros (stem & rest & -> & [Hl Hstem] & dt & ext & -> & (y & -> & Hy) & Hle & Hext).
  apply dot_only in Hy as ->. exists stem, ext.
  split; [done|]. split; [by destruct stem; [simpl in Hl; lia|]|].
  split; [done|]. split; [by destruct ext; [simpl in Hle; lia|]|]. done.
Qed.

Lemma plain_path_den t : den true plain_path t → forallb is_path_char t = true.
Proof.
  unfold plain_path, plus. cbn [Seq den].
  intros (stem & rest & -> & [Hl Hstem] & dt & ext & -> & (y & -> & Hy) & Hle & Hext).
  apply dot_only in Hy as ->. rewrite !forallb_app, Hstem. cbn [forallb andb].
  replace (is_path_char dot) with true by by vm_compute.
  cbn [andb]. apply (forallb_impl is_alnum); [apply alnum_path_char|done].
Qed.

Lemma trimStart_forallb (p : ascii → bool) s :
  forallb p s = true → forallb p (trimStart s) = true.
Proof.
  destruct (trimStart_split s) as (lead & E & _). rewrite E at 1.
  rewrite forallb_app. by intros [_ ?]%andb_prop.
Qed.

Lemma trim_forallb (p : ascii → bool) s :
  forallb p s = true → forallb p (trim s) = true.
Proof.
  intros Hs. unfold trim.
  destruct (trimEnd_split (trimStart s)) as (trail & E & _).
  apply trimStart_forallb in Hs. rewrite E in Hs. rewrite forallb_app in Hs.
  by apply andb_prop in Hs as [? _].
Qed.

Lemma unquote_forallb (p : ascii → bool) s :
  forallb p s = true → forallb p (Protocol.unquote s) = true.
Proof.
  assert (Hd : ∀ t, forallb p t = true → forallb p (Protocol.drop_last_quote t) = true).
  { intros t Ht. unfold Protocol.drop_last_quote. destruct (last t); [|done].
    destruct (is_quote _); [by apply forallb_take|done]. }
  destruct s as [|c s]; [done|]. cbn [Protocol.unquote forallb].
  intros [Hc Hs]%andb_prop. destruct (is_quote c); apply Hd; [done|].
  cbn [forallb]. by rewrite Hc, Hs.
Qed.

Lemma edit_of_match_one_line s last_ x e :
  exec true fileRegex s last_ = Some x → edit_of_match x = Some e →
  one_line (filepath e) = true.
Proof.
  intros Hx%exec_sound. unfold edit_of_match.
  destruct (truthy _ && truthy _); [|done]. intros [= <-]. cbn [filepath].
  unfold one_line. rewrite strip_quotes_unquote.
  apply unquote_forallb, trim_forallb.
  apply (group_all true fileRegex x 1 (λ t, forallb not_nl_backtick t = true));
    [done|done|].
  intros sub t [[= ->]|Hin]%elem_of_cons.
  - by intros [_ ?].
  - apply elem_of_cons in Hin as [[=]|Hin]. by apply elem_of_nil in Hin.
Qed.

Lemma edit_of_alt1_plain s last_ x e :
  exec true altRegex1 s last_ = Some x → edit_of_alt1 x = Some e →
  forallb is_path_char (filepath e) = true.
Proof.
  intros Hx%exec_sound. unfold edit_of_alt1.
  destruct (_ && _); [|done]. intros [= <-]. cbn [filepath].
  apply trim_forallb.
  apply (group_all true altRegex1 x 1 (λ t, forallb is_path_char t = true));
    [done|done|].
  intros sub t [[= ->]|Hin]%elem_of_cons; [apply plain_path_den|].
  apply elem_of_cons in Hin as [[=]|Hin]. by apply elem_of_nil in Hin.
Qed.

Lemma edit_of_create_plain s last_ x e :
  exec true createRegex s last_ = Some x → edit_of_create x = Some e →
  forallb is_path_char (filepath e) = true.
Proof.
  intros Hx%exec_sound. unfold edit_of_create.
  destruct (_ && _); [|done]. intros [= <-]. cbn [filepath].
  apply trim_forallb.
  apply (group_all true createRegex x 1 (λ t, forallb is_path_char t = true));
    [done|done|].
  intros sub t [[= ->]|Hin]%elem_of_cons; [apply plain_path_den|].
  apply elem_of_cons in Hin as [[=]|Hin]. by apply elem_of_nil in Hin.
Qed.

Lemma collect_all (P : edit → Prop) f r s es :
  (∀ last_ x e, exec true r s last_ = Some x → f x = Some e → P e) →
  collect f (matches r s) = Some es → Forall P es.
Proof.
  intros Hf. unfold collect, matches.
  destruct (exec_all _ _ _ _ _) as [l|] eqn:E; [|done]. intros [= <-].
  apply exec_all_matches in E. apply Forall_forall. intros e He.
  apply list_elem_of_omap in He as (x & Hx & Hfx).
  rewrite Forall_forall in E. destruct (E x Hx) as [last_ Hl]. by eapply Hf.
Qed.

(** X13.  The path of every edit the parser extracts stays on one line and
    holds no backtick, under the [FILE:] grammar and under the fallbacks of
    the chat endpoint; a path found by a fallback is made of letters,
    digits and the characters [_], [-], [/] and [.] only. *)
Theorem edit_paths_one_line (s : text) (fileOp : bool) :
  (∃ es, file_edits s = Some es ∧ Forall (λ e, one_line (filepath e) = true) es)
  ∧ (∃ es, chat_edits fileOp s = Some es
           ∧ Forall (λ e, one_line (filepath e) = true) es
           ∧ (file_edits s = Some [] →
              Forall (λ e, forallb is_path_char (filepath e) = true) es)).
Proof.
  assert (Hfile : ∀ es, file_edits s = Some es →
            Forall (λ e, one_line (filepath e) = true) es).
  { intros es. apply collect_all. apply edit_of_match_one_line. }
  assert (Hplain : ∀ es, Forall (λ e, forallb is_path_char (filepath e) = true) es →
            Forall (λ e, one_line (filepath e) = true) es).
  { intros es Hes. eapply Forall_impl; [exact Hes|]. intros e.
    apply forallb_impl, path_char_one_line. }
  split.
  - destruct (file_edits_total s) as [es Hes]. exists es. split; [done|]. by apply Hfile.
  - destruct (chat_edits_total fileOp s) as [es Hes]. exists es. split; [done|].
    unfold chat_edits in Hes.
    destruct (file_edits s) as [files|] eqn:Ef; [|done].
    destruct ((length files =? 0) && fileOp) eqn:E1.
    + apply andb_prop in E1 as [Hlen ->]. apply Nat.eqb_eq in Hlen.
      destruct files; [|done].
      destruct (collect edit_of_alt1 (matches altRegex1 s)) as [alts|] eqn:Ea; [|done].
      pose proof (collect_all _ _ _ _ _ (edit_of_alt1_plain s) Ea) as Halts.
      destruct ((length alts =? 0) && true) eqn:E2.
      * pose proof (collect_all _ _ _ _ _ (edit_of_create_plain s) Hes) as Hcr.
        split; [by apply Hplain|done].
      * injection Hes as <-. split; [by apply Hplain|done].
    + assert (es = files) as ->.
      { destruct ((length files =? 0) && fileOp); [done|by injection Hes]. }
      split; [by apply Hfile|]. intros [= ->]. constructor.
Qed.

Section Facts.
Context {W : Type} `{Services W}.
Variable generateFileTemplate : text → text → text → text.

(** X14.  The path of every delete-file and read-file intent the chat
    handler returns names a file: a stem that is not empty and holds no
    white space and no quote, a dot, and an extension of letters, digits
    and underscores that is not empty. *)
Theorem intent_paths_name_files prompt code_ filename project image (st : state W)
    text_ act path st' :
  chat generateFileTemplate prompt code_ filename project image st
  = Some (Reply text_ (Some act), st') →
  act = DeleteFile path ∨ act = ReadFile path →
  names_file path.
Proof.
  unfold chat.
  destruct (negb (truthy prompt)); [done|]. cbv zeta.
  destruct (needs_project prompt project); [done|].
  destruct (match_ true deleteRegex prompt) as [x|] eqn:Ed.
  { intros [= <- <- <-] [[= <-]|[=]].
    apply exec_sound in Ed.
    destruct (group_sound true deleteRegex x 1 Ed) as (sub & Hin & Hd).
    - vm_compute. apply elem_of_cons. by left.
    - apply elem_of_cons in Hin as [[= ->]|Hin]; [|by apply elem_of_nil in Hin].
      by apply phrase_path_den. }
  destruct (match_ true readRegex prompt) as [x|] eqn:Er.
  { intros [= <- <- <-] [[=]|[= <-]].
    apply exec_sound in Er.
    destruct (group_sound true readRegex x 1 Er) as (sub & Hin & Hd).
    - vm_compute. apply elem_of_cons. by left.
    - apply elem_of_cons in Hin as [[= ->]|Hin]; [|by apply elem_of_nil in Hin].
      by apply phrase_path_den. }
  destruct (isFixCommand (toLowerCase prompt) && truthy project).
  { by intros [= <- <- <-] [[=]|[=]]. }
  rewrite complete_unfold. cbv zeta.
  destruct (db_loadChatHistory project (world st)).1; [|by unfold failure; destruct (includes _ _)].
  destruct (truthy image); [by unfold failure; destruct (includes _ _)|].
  destruct (hf_call _ _ _).1 as [aiResponse|m]; [|by unfold failure; destruct (includes _ _)].
  destruct (chat_edits _ aiResponse) as [[|f rest]|]; [| |done].
  - destruct (match_ true simpleCreateRegex prompt) as [x|];
      [destruct (negb (includes fence aiResponse))|];
      (destruct (db_saveChatHistory _ _ _ _).1;
       [|by unfold failure; destruct (includes _ _)]);
      by intros [= <- <- <-] [[=]|[=]].
  - destruct (db_saveChatHistory _ _ _ _).1; [|by unfold failure; destruct (includes _ _)].
    destruct rest; by intros [= <- <- <-] [[=]|[=]].
Qed.

End Facts.
End PathFacts.

Module ExplanationFacts.
Import Protocol Explanations RegexFacts MatchFacts TextFacts TrimFacts BlockFacts.
Import QuoteFacts PhraseFacts.

#[local] Arguments is_char : simpl never.
#[local] Arguments lit_eq : simpl never.
#[local] Arguments is_space : simpl never.
#[local] Arguments is_quote : simpl never.

Lemma marker_not_space y s : is_marker (y :: s) = true → is_space y = false.
Proof.
  unfold is_marker. cbn [T list_ascii_of_string lits_match].
  intros [Hy _]%andb_prop. revert Hy. each_char y.
Qed.

(** The look-ahead of the explanation pattern. *)
Lemma ahead_ends {R} (k : cont R) pos s c :
  m true (Ahead (Alt (Str (T "FILE:")) Eos)) k pos s c =
  if ends_explanation s then k pos s c else None.
Proof.
  cbn [m]. rewrite m_Str. fold (is_marker s). unfold ends_explanation.
  destruct s as [|y s]; [by destruct (is_marker [])|].
  by destruct (is_marker (y :: s)).
Qed.

Lemma m_star {R} ci p (k : cont R) pos s c :
  m ci (star p) k pos s c = rep_greedy p 0 k pos s c.
Proof. done. Qed.

Lemma m_lazy_star {R} ci p (k : cont R) pos s c :
  m ci (lazy_star p) k pos s c = rep_lazy p 0 k pos s c.
Proof. done. Qed.

Lemma m_Grp {R} ci i r (k : cont R) pos s c :
  m ci (Grp i r) k pos s c
  = m ci r (λ pos' s' c', k pos' s' ((i, take (pos' - pos) s) :: c')) pos s c.
Proof. done. Qed.

(** X15.  The explanation taken from an answer that starts with the label
    [EXPLANATION:], in any case of its letters, is the text between the
    label and the first [FILE:] marker, or the end of the answer when there
    is none, with the white space around it removed; an answer that holds
    no such label has the empty explanation. *)
Theorem explanation_between (s : text) :
  (∀ label gap tail,
     length label = 12 → is_label label = true →
     no_marker_in gap tail → ends_explanation tail = true →
     s = label ++ gap ++ tail →
     explanation_of s = trim gap)
  ∧ ((∀ j, j ≤ length s → is_label (drop j s) = false) →
     explanation_of s = []).
Proof.
  split.
  - intros label gap tail Hlen Hlabel Hgap Htail ->.
    destruct (trimStart_split gap) as (lead & Eg & Hlead & Hhead).
    set (body := trimStart gap) in *.
    assert (Htrim : trim gap = trim body).
    { rewrite Eg. by apply trim_spaces. }
    assert (Hm : match_at true explanationRegex 0 (label ++ gap ++ tail)
                 = Some (Match 0 (12 + length gap) [(1, body)])).
    { unfold match_at, explanationRegex. cbn [Seq].
      rewrite m_Cat_parts, m_Str.
      rewrite lits_match_app by (rewrite Hlen; by vm_compute).
      unfold is_label in Hlabel. rewrite Hlabel.
      replace (length (T "EXPLANATION:")) with (length label) by by rewrite Hlen.
      rewrite drop_app_length.
      rewrite m_Cat_parts, m_star.
      rewrite Eg, <-(assoc (++)).
      apply star_all; [done| |].
      { destruct body as [|y body']; [|done]. cbn [app].
        destruct tail as [|y tail']; [done|]. by apply (marker_not_space y tail'). }
      rewrite m_Cat_parts, m_Grp, m_lazy_star.
      apply (rep_lazy_at _ _ _ _ (length body)).
      - rewrite take_app_length. apply forallb_any.
      - rewrite length_app. lia.
      - intros j Hj. rewrite ahead_ends.
        assert (Hno : is_marker (drop j (body ++ tail)) = false).
        { specialize (Hgap (length lead + j)). rewrite Eg in Hgap.
          rewrite length_app, <-(assoc (++)), drop_app_ge in Hgap by lia.
          replace (length lead + j - length lead) with j in Hgap by lia.
          apply Hgap. lia. }
        unfold ends_explanation. rewrite Hno.
        destruct (drop j (body ++ tail)) eqn:Ed; [|done].
        apply (f_equal length) in Ed. rewrite length_drop, length_app in Ed.
        simpl in Ed. lia.
      - rewrite ahead_ends, drop_app_length, Htail.
        do 2 f_equal.
        + rewrite length_app, Hlen. lia.
        + do 2 f_equal.
          replace (0 + length label + length lead + length body
                   - (0 + length label + length lead))
            with (length body) by lia.
          by rewrite take_app_length. }
    unfold explanation_of, match_, exec. cbn [Nat.leb]. rewrite drop_0.
    rewrite (search_here _ _ _ _ _ Hm). unfold group. cbn [m_caps capture Nat.eqb default].
    by rewrite Htrim.
  - intros Hno. unfold explanation_of, match_, exec. cbn [Nat.leb]. rewrite drop_0.
    assert (Hs : ∀ t pos, (∀ j, j ≤ length t → is_label (drop j t) = false) →
               search true explanationRegex pos t = None).
    { induction t as [|y t IH]; intros pos Ht.
      - cbn [search]. unfold match_at, explanationRegex. cbn [Seq].
        rewrite m_Cat_parts, m_Str.
        pose proof (Ht 0 ltac:(simpl; lia)) as H0. rewrite drop_0 in H0.
        unfold is_label in H0. by rewrite H0.
      - cbn [search]. unfold match_at at 1, explanationRegex. cbn [Seq].
        rewrite m_Cat_parts, m_Str.
        pose proof (Ht 0 ltac:(simpl; lia)) as H0. rewrite drop_0 in H0.
        unfold is_label in H0. rewrite H0. apply IH.
        intros j Hj. apply (Ht (S j)). simpl. lia. }
    by rewrite Hs.
Qed.

(** X16.  Stripping the quotes of a path removes one quote character at
    its start, if there is one, and then one at the end of what is left, if
    there is one, and nothing else: quotes inside the path and a second
    quote at either end are kept, and the two quotes removed need not be of
    the same kind. *)
Theorem quotes_stripped_once (s : text) :
  ∃ a b,
    s = a ++ strip_quotes s ++ b
    ∧ forallb is_quote a = true ∧ forallb is_quote b = true
    ∧ length a = (if forallb is_quote (take 1 s) && truthy s then 1 else 0)
    ∧ length b = (match last (drop (length a) s) with
                  | Some c => if is_quote c then 1 else 0
                  | None => 0
                  end).
Proof.
  rewrite strip_quotes_unquote.
  assert (Hd : ∀ t, ∃ b, t = drop_last_quote t ++ b ∧ forallb is_quote b = true
             ∧ length b = match last t with
                          | Some c => if is_quote c then 1 else 0
                          | None => 0
                          end).
  { intros t. unfold drop_last_quote. destruct (last t) as [c|] eqn:El.
    - destruct (is_quote c) eqn:Hq.
      + apply last_Some in El as [t' ->]. exists [c].
        rewrite length_app. simpl. replace (length t' + 1 - 1) with (length t') by lia.
        rewrite take_app_length. by rewrite Hq.
      + exists []. by rewrite app_nil_r.
    - exists []. apply last_None in El as ->. done. }
  destruct s as [|c s]; [by exists [], []|].
  cbn [unquote take forallb truthy]. rewrite andb_true_r.
  destruct (is_quote c) eqn:Hq; cbn [andb].
  - destruct (Hd s) as (b & Eb & Hb & Hlen). exists [c], b.
    cbn [app length drop forallb]. rewrite Hq.
    split; [by rewrite <-Eb|]. done.
  - destruct (Hd (c :: s)) as (b & Eb & Hb & Hlen). exists [], b.
    cbn [app length drop]. split; [done|]. done.
Qed.

End ExplanationFacts.

Module TemplateFacts.
Import Chat Templates Language Phrases Protocol Intents.
Import RegexFacts MatchFacts TextFacts ParserFacts SoundFacts LanguageFacts PathFacts.
Import PhraseFacts ChatEffects.

#[local] Arguments is_char : simpl never.
#[local] Arguments is_word : simpl never.
#[local] Arguments is_sep : simpl never.
#[local] Arguments upper_char : simpl never.

Lemma upper_not_sep c : is_sep c = false → existsb is_sep (upper_char c) = false.
Proof. each_char c. Qed.

Lemma dot_not_word : is_word dot = false.
Proof. done. Qed.

Lemma dot_exact y : lit_eq false dot y = true → y = dot.
Proof. each_char y. Qed.

Lemma after_last_none a s : existsb (is_char a) s = false → after_last a s = s.
Proof.
  destruct s as [|c s]; [done|]. cbn [existsb after_last].
  intros [Hc Hs]%orb_false_elim. by rewrite Hs, Hc.
Qed.

Lemma after_last_app a dir base :
  existsb (is_char a) base = false →
  dir = [] ∨ last dir = Some a →
  after_last a (dir ++ base) = base.
Proof.
  intros Hbase. induction dir as [|c dir IH]; intros Hdir.
  - by apply after_last_none.
  - destruct Hdir as [|Hlast]; [done|]. cbn [app after_last].
    destruct dir as [|c' dir].
    + cbn [app]. rewrite Hbase. simpl in Hlast. injection Hlast as ->.
      replace (is_char a a) with true; [done|].
      symmetry. apply Ascii.eqb_refl.
    + assert (Hin : existsb (is_char a) ((c' :: dir) ++ base) = true).
      { apply last_Some in Hlast as [l' Hl].
        assert (Hcd : ∃ l'', c' :: dir = l'' ++ [a]).
        { destruct l' as [|x l']; [by injection Hl|].
          injection Hl as _ Hl. by exists l'. }
        destruct Hcd as [l'' ->]. rewrite <-(assoc (++)), existsb_app. cbn [app existsb].
        replace (is_char a a) with true by (symmetry; apply Ascii.eqb_refl).
        cbn [orb]. apply orb_true_r. }
      rewrite Hin. apply IH. right. done.
Qed.

(** The extension pattern at one position: a dot and word characters up to
    the end of the text. *)
Lemma match_at_ext pos t x :
  match_at false extRegex pos t = Some x →
  ∃ w, t = dot :: w ∧ forallb is_word w = true.
Proof.
  unfold match_at, extRegex. cbn [Seq]. rewrite !BlockFacts.m_Cat_parts.
  destruct t as [|y t]; [done|]. cbn [m].
  destruct (lit_eq false "." y) eqn:Hy; [|done]. apply dot_exact in Hy as ->.
  intros (pre & s' & -> & _ & Hall & Hk)%rep_greedy_sound.
  destruct s'; [|done]. exists pre. by rewrite app_nil_r.
Qed.

Lemma match_at_ext_here pos ext :
  ext ≠ [] → forallb is_word ext = true →
  match_at false extRegex pos (dot :: ext)
  = Some (Match pos (pos + S (length ext)) []).
Proof.
  intros Hne Hext. unfold match_at, extRegex. cbn [Seq].
  rewrite !BlockFacts.m_Cat_parts. cbn [m].
  replace (lit_eq false "." dot) with true by by vm_compute.
  rewrite <-(app_nil_r ext).
  apply (rep_greedy_at _ _ _ _ _ (length ext) (length ext)).
  - by rewrite take_app_length.
  - rewrite length_app. simpl. lia.
  - by rewrite drop_app_length.
  - destruct ext; [done|simpl; lia].
  - lia.
  - intros; lia.
  - rewrite drop_app_length. cbn [m]. do 2 f_equal. rewrite length_app. simpl. lia.
Qed.

Lemma search_ext ext : ext ≠ [] → forallb is_word ext = true → ∀ stem pos,
  search false extRegex pos (stem ++ dot :: ext)
  = Some (Match (pos + length stem) (pos + length stem + S (length ext)) []).
Proof.
  intros Hne Hext. induction stem as [|y stem IH]; intros pos.
  - cbn [app length]. rewrite Nat.add_0_r.
    apply search_here. by apply match_at_ext_here.
  - cbn [app search].
    destruct (match_at false extRegex pos (y :: stem ++ dot :: ext)) as [x|] eqn:E.
    + apply match_at_ext in E as (w & [= -> Hw] & Hall).
      rewrite <-Hw, forallb_app in Hall. cbn [forallb] in Hall.
      rewrite dot_not_word in Hall. cbn [andb] in Hall. by rewrite andb_false_r in Hall.
    + rewrite IH. do 2 f_equal; simpl; lia.
Qed.

Lemma split_on_nonempty p s : split_on p s ≠ [].
Proof.
  destruct s as [|c s]; [done|]. cbn [split_on].
  destruct (p c); [done|]. by destruct (split_on p s).
Qed.

Lemma split_on_whole p w : existsb p w = false → split_on p w = [w].
Proof.
  induction w as [|c w IH]; [done|]. cbn [existsb split_on].
  intros [-> Hw]%orb_false_elim. by rewrite (IH Hw).
Qed.

Lemma split_on_first p w c rest :
  existsb p w = false → p c = true →
  split_on p (w ++ c :: rest) = w :: split_on p rest.
Proof.
  intros Hw Hc. induction w as [|y w IH]; cbn [app split_on].
  - by rewrite Hc.
  - cbn [existsb] in Hw. apply orb_false_elim in Hw as [-> Hw]. by rewrite (IH Hw).
Qed.

Lemma split_on_pieces p s : Forall (λ w, existsb p w = false) (split_on p s).
Proof.
  induction s as [|c s IH]; cbn [split_on]; [by constructor|].
  destruct (p c) eqn:Hc; [by constructor|].
  destruct (split_on p s) as [|w ws]; [by constructor; [simpl; rewrite Hc|]|].
  apply Forall_cons in IH as [Hw Hws]. constructor; [|done].
  cbn [existsb]. by rewrite Hc, Hw.
Qed.

Lemma capitalize_no_sep w : existsb is_sep w = false → existsb is_sep (capitalize w) = false.
Proof.
  destruct w as [|c w]; [done|]. cbn [existsb capitalize].
  intros [Hc Hw]%orb_false_elim. by rewrite existsb_app, upper_not_sep, Hw.
Qed.

Lemma join_no_sep l :
  Forall (λ w, existsb is_sep w = false) l → existsb is_sep (join (T " ") l) = false.
Proof.
  induction 1 as [|w l Hw _ IH]; [done|]. destruct l as [|w' l]; [done|].
  change (join (T " ") (w :: w' :: l)) with (w ++ T " " ++ join (T " ") (w' :: l)).
  by rewrite !existsb_app, Hw, IH.
Qed.

(** X17.  The names a starter template is built from.  The file name is
    what follows the last slash of the path, without its last extension
    (dots inside the name are kept).  The title is the file name with each
    word between [-] and [_] capitalised and the words joined by one space
    each, so it holds neither [-] nor [_]. *)
Theorem template_names :
  (∀ dir stem ext,
     dir = [] ∨ last dir = Some "/"%char →
     existsb (is_char "/") stem = false →
     ext ≠ [] → forallb is_word ext = true →
     file_stem (dir ++ stem ++ [dot] ++ ext) = stem)
  ∧ (∀ w, existsb is_sep w = false → title_of w = capitalize w)
  ∧ (∀ w c rest,
       existsb is_sep w = false → is_sep c = true →
       title_of (w ++ c :: rest) = capitalize w ++ T " " ++ title_of rest)
  ∧ (∀ filename, existsb is_sep (title_of filename) = false).
Proof.
  split; [|split; [|split]].
  - intros dir stem ext Hdir Hstem Hne Hext. unfold file_stem.
    rewrite after_last_app; [|..|done].
    2:{ rewrite !existsb_app, Hstem. cbn [existsb orb].
        assert (He : existsb (is_char "/") ext = false).
        { clear -Hext. induction ext as [|y ext IH]; [done|].
          cbn [forallb existsb] in *. apply andb_prop in Hext as [Hy Hext].
          rewrite (IH Hext). revert Hy. each_char y. }
        by rewrite He. }
    unfold replace_first, match_, exec. cbn [Nat.leb]. rewrite drop_0.
    cbn [app]. rewrite (search_ext ext Hne Hext stem 0). cbn [m_start m_end].
    rewrite !Nat.add_0_l, take_app_length.
    rewrite drop_ge; [by rewrite app_nil_r|].
    rewrite length_app. simpl. lia.
  - intros w Hw. unfold title_of. by rewrite split_on_whole.
  - intros w c rest Hw Hc. unfold title_of. rewrite split_on_first by done.
    cbn [map]. destruct (split_on is_sep rest) as [|w' ws] eqn:E; [|done].
    by apply split_on_nonempty in E.
  - intros filename. unfold title_of. apply join_no_sep.
    apply Forall_map. eapply Forall_impl; [apply split_on_pieces|].
    intros w. apply capitalize_no_sep.
Qed.

Lemma template_nonempty filepath ext prompt :
  truthy (generateFileTemplate filepath ext prompt) = true.
Proof.
  unfold generateFileTemplate. cbv zeta.
  repeat match goal with
         | |- context [bool_decide ?P] => destruct (bool_decide P); cbn [orb]
         end; done.
Qed.

(** The pattern of the path in a simple create request. *)
Lemma simple_create_path prompt x :
  match_ true simpleCreateRegex prompt = Some x → group 1 x ≠ [].
Proof.
  intros Hx%exec_sound.
  destruct (group_sound true simpleCreateRegex x 1 Hx) as (sub & Hin & Hd).
  - vm_compute. apply elem_of_cons. by left.
  - apply elem_of_cons in Hin as [[= ->]|Hin].
    + destruct Hd as (p1 & p2 & -> & [Hl _] & _). destruct p1; [simpl in Hl; lia|done].
    + apply elem_of_cons in Hin as [[=]|Hin]. by apply elem_of_nil in Hin.
Qed.

Lemma names_file_nonempty path : names_file path → path ≠ [].
Proof. intros (stem & ext & -> & Hs & _). by destruct stem. Qed.

Section Facts.
Context {W : Type} `{Services W}.

(** X18.  Every intent the chat handler returns can be carried out: the
    path of a delete, read or write intent is not empty, the content of a
    write intent is not empty (whether it was extracted from the answer of
    the provider or is a starter template), an auto-repair intent names a
    project, and an intent to write several files holds at least two. *)
Theorem chat_intents_well_formed prompt code_ filename project image
    (st : state W) text_ act st' :
  chat generateFileTemplate prompt code_ filename project image st
  = Some (Reply text_ (Some act), st') →
  well_formed_action act.
Proof.
  unfold chat.
  destruct (negb (truthy prompt)); [done|]. cbv zeta.
  destruct (needs_project prompt project); [done|].
  destruct (match_ true deleteRegex prompt) as [x|] eqn:Ed.
  { intros [= <- <- <-]. apply exec_sound in Ed.
    destruct (group_sound true deleteRegex x 1 Ed) as (sub & Hin & Hd).
    - vm_compute. apply elem_of_cons. by left.
    - apply elem_of_cons in Hin as [[= ->]|Hin]; [|by apply elem_of_nil in Hin].
      by apply names_file_nonempty, phrase_path_den. }
  destruct (match_ true readRegex prompt) as [x|] eqn:Er.
  { intros [= <- <- <-]. apply exec_sound in Er.
    destruct (group_sound true readRegex x 1 Er) as (sub & Hin & Hd).
    - vm_compute. apply elem_of_cons. by left.
    - apply elem_of_cons in Hin as [[= ->]|Hin]; [|by apply elem_of_nil in Hin].
      by apply names_file_nonempty, phrase_path_den. }
  destruct (isFixCommand (toLowerCase prompt) && truthy project) eqn:Ef.
  { intros [= <- <- <-]. apply andb_prop in Ef as [_ Hp]. simpl.
    by apply truthy_nonempty. }
  rewrite complete_unfold. cbv zeta.
  destruct (db_loadChatHistory project (world st)).1; [|by unfold failure; destruct (includes _ _)].
  destruct (truthy image); [by unfold failure; destruct (includes _ _)|].
  destruct (hf_call _ _ _).1 as [aiResponse|m]; [|by unfold failure; destruct (includes _ _)].
  destruct (chat_edits _ aiResponse) as [[|f rest]|] eqn:Ee; [| |done].
  - destruct (match_ true simpleCreateRegex prompt) as [x|] eqn:Es;
      [destruct (negb (includes fence aiResponse))|];
      (destruct (db_saveChatHistory _ _ _ _).1;
       [|by unfold failure; destruct (includes _ _)]);
      intros [= <- <- <-].
    simpl. split; [by eapply simple_create_path|].
    apply truthy_nonempty, template_nonempty.
  - apply chat_edits_sound in Ee.
    destruct (db_saveChatHistory _ _ _ _).1; [|by unfold failure; destruct (includes _ _)].
    destruct rest; intros [= <- <- <-]; simpl.
    + apply Forall_cons in Ee as [(Hp & Hc & _) _]. done.
    + split; [lia|done].
Qed.

End Facts.
End TemplateFacts.

Module ProviderFacts.
Import Provider Chat.

Lemma or_else_truthy a b : truthy b = true → truthy (or_else a b) = true.
Proof. unfold or_else. by destruct (truthy a) eqn:E. Qed.

Lemma answer_nonempty c : truthy (answer_of c) = true.
Proof. unfold answer_of. by apply or_else_truthy, or_else_truthy. Qed.

(** X19.  A call to the provider never gives an empty answer: when the
    completion holds no text, or only white space in its message and no
    other text, the answer is the fixed text [No response.].  Without a
    token no request is made and the error names the token, which the chat
    handler reports as a missing token; with a token one request is made,
    to the vision model exactly when an image is given. *)
Theorem callHF_answer HF_TOKEN fetch image :
  (∀ answer, (callHF HF_TOKEN fetch image).2 = Ok answer → answer ≠ [])
  ∧ (∀ content,
       forallb is_space content = true →
       answer_of (Some (Choice (Some content) None)) = T "No response.")
  ∧ (HF_TOKEN = [] →
     callHF HF_TOKEN fetch image = (None, Throws (T "HF_TOKEN missing"))
     ∧ failure (T "HF_TOKEN missing") = Failed (T "HF_TOKEN missing. Set env variable."))
  ∧ (HF_TOKEN ≠ [] →
     (callHF HF_TOKEN fetch image).1
     = Some (if truthy image then VisionModel else TextModel)).
Proof.
  split; [|split; [|split]].
  - intros answer. unfold callHF.
    assert (Hr : ∀ label r, read_response label r = Ok answer → answer ≠ []).
    { intros label [ok status body [c|m]|m]; simpl; try done.
      - destruct ok; simpl; [|done]. intros [= <-].
        pose proof (answer_nonempty c) as Hn. by destruct (answer_of c).
      - by destruct ok. }
    destruct (negb (truthy HF_TOKEN)); [done|].
    destruct (truthy image); simpl; apply Hr.
  - intros content Hc. unfold answer_of. cbn [message_content choice_text fmap option_fmap option_map default].
    replace (trim content) with (@nil ascii); [done|].
    symmetry. rewrite <-(app_nil_r content). by rewrite TextFacts.trim_spaces.
  - intros ->. split; [done|by vm_compute].
  - intros Hne. unfold callHF. destruct HF_TOKEN; [done|]. simpl.
    by destruct (truthy image).
Qed.

End ProviderFacts.

Module Witnesses.
Import Protocol Phrases Scripted Scenarios AutoFix.
Import AutoFixFacts SoundFacts DirectiveFacts TerminalFacts ChatFacts.

(** C1, counterexample: with no run command given and none to be found,
    the request is answered with an empty history. *)
Lemma abandoned_history_is_empty :
  ∃ resp st',
    auto_fix (T "docs") [] (start notes) = Some (resp, st')
    ∧ resp = Report false no_command_message [] None
    ∧ ¬ (1 ≤ length (fixes_of resp)).
Proof.
  eexists _, _. split; [vm_compute; reflexivity|]. split; [reflexivity|].
  simpl. lia.
Qed.

(** C1 on a project whose program runs: the history holds an entry. *)
Lemma auto_fix_attempts_bounded_witness :
  ∃ resp st',
    auto_fix (T "demo") [] (start healthy) = Some (resp, st')
    ∧ 1 ≤ length (fixes_of resp).
Proof.
  destruct (auto_fix_attempts_bounded (T "demo") [] (start healthy))
    as (resp & st' & new & He & _ & _ & _ & Hne & _).
  exists resp, st'. split; [exact He|].
  destruct (Hne [T "app.py"; T "requirements.txt"] healthy (T "py app.py")
              eq_refl eq_refl eq_refl) as [Hrun _].
  destruct (Hrun eq_refl) as [Hok _].
  apply (Hok (ExecResult None (T "1") [])). reflexivity.
Defined.

(** C1 on a run command that [exec] refuses: the loop is entered, the
    answer has status 500 and the history is empty. *)
Lemma refused_run_history_is_empty :
  ∃ st',
    auto_fix (T "demo") refused_command (start refused)
    = Some (ServerError refused_message [], st')
    ∧ log st' = [EGetAllProjectFiles (T "demo"); EExec refused_command].
Proof. eexists. split; by vm_compute. Qed.

(** C3 on a failing program and a provider that answers with prose. *)
Lemma no_fix_found_terminates_witness :
  ∃ st' history,
    attempts 5 1 (T "demo") (T "py app.py") [T "app.py"] [] (start hopeless)
      = Some (Report false exhausted_message history None, st')
    ∧ last history
      = Some (NoFixFound 1 (T "I am not sure what is wrong here."))
    ∧ runs (log st') = 1.
Proof.
  edestruct (no_fix_found_terminates 4 1 (T "demo") (T "py app.py")
               [T "app.py"] [] (start hopeless))
    as (st' & history & He & Hlast & _ & Hruns).
  - reflexivity.
  - reflexivity.
  - vm_compute. reflexivity.
  - vm_compute. reflexivity.
  - vm_compute. reflexivity.
  - exists st', history. split; [exact He|]. split; [exact Hlast|]. exact Hruns.
Defined.

(** C4 on a project whose program runs at the first attempt. *)
Lemma first_run_success_witness :
  ∃ st' output,
    auto_fix (T "demo") [] (start healthy)
      = Some (Report true (success_message 1) [Success 1 output] (Some output), st')
    ∧ provider_calls (log st') = 0.
Proof.
  edestruct (first_run_success (T "demo") [] (start healthy))
    as (st' & output & He & _ & Hcalls).
  - reflexivity.
  - reflexivity.
  - reflexivity.
  - reflexivity.
  - reflexivity.
  - exists st', output. split; [exact He|exact Hcalls].
Defined.

(** C2 on an answer of two blocks: a quoted path with a language word, and
    a block whose fence line ends with a carriage return; the text before
    the first block reads [file:] inside a word, where no block begins. *)
Lemma file_edits_of_document_witness :
  file_edits (document two_blocks (T "
Done."))
  = Some [Edit (T "src/app.py") (T "print(1)");
          Edit (T "notes/todo.txt") (T "buy `milk`")].
Proof.
  destruct (proj2 (proj1 (file_edits_of_document two_blocks (T "
Done.")) eq_refl) eq_refl) as (edits & He & _ & ->).
  exact He.
Defined.

(** C2, counterexample: a well-formed block whose body is a blank line gives
    no edit, so one block gives none. *)
Lemma blank_block_gives_no_edit :
  ∃ es,
    forallb item_ok blank_block = true
    ∧ well_formed_document blank_block [] = true
    ∧ file_edits (document blank_block []) = Some es
    ∧ length es ≠ length blank_block.
Proof.
  exists []. split; [by vm_compute|]. split; [by vm_compute|].
  split; [by vm_compute|]. simpl. lia.
Qed.

(** C5 on a tracked child that the termination command does not find. *)
Lemma kill_failure_leaves_registry_witness :
  ∃ st',
    Terminal.kill (Some 4242) tracked (start taskkill_fails)
    = Some ((Terminal.KillFailed
               (T "Could not kill process: ERROR: The process 4242 not found."),
             tracked), st').
Proof.
  eexists.
  apply (kill_failure_leaves_registry 4241 tracked (start taskkill_fails)
           (ExecResult (Some (T "Command failed: taskkill /F /PID 4242")) []
                       (T "ERROR: The process 4242 not found."))
           (World [] [] [])
           (T "Command failed: taskkill /F /PID 4242")); reflexivity.
Defined.

(** C6, counterexample: a regular command that fails with both streams
    written is answered with its stderr, not with its stdout. *)
Lemma failed_command_shows_stderr :
  ∃ out st',
    Terminal.run (Some (T "node build.js")) (T "demo") Terminal.initial
      (start build_fails)
    = Some ((Terminal.Output out true, Terminal.initial), st')
    ∧ out = T "SyntaxError: unexpected token"
    ∧ out ≠ T "compiled 3 of 4 files".
Proof.
  eexists _, _. split; [by vm_compute|]. split; [done|]. by vm_compute.
Qed.

(** C6 on a build that fails after writing to both streams. *)
Lemma regular_failure_reported_witness :
  ∃ st',
    Terminal.run (Some (T "node build.js")) (T "demo") Terminal.initial
      (start build_fails)
    = Some ((Terminal.Output (T "SyntaxError: unexpected token") true,
             Terminal.initial), st').
Proof.
  destruct (regular_failure_reported (T "node build.js") (T "demo")
              Terminal.initial (start build_fails))
    as [Hrun _].
  destruct (Hrun eq_refl) as [Hfail _].
  eexists.
  exact (Hfail (ExecResult (Some (T "Command failed: node build.js"))
                           (T "compiled 3 of 4 files")
                           (T "SyntaxError: unexpected token"))
               (World [] [] [])
               (T "Command failed: node build.js") eq_refl eq_refl).
Defined.

(** C6 on a command that [exec] refuses: the answer has status 500. *)
Lemma refused_command_is_status_500 :
  ∃ st',
    Terminal.run (Some refused_command) (T "demo") Terminal.initial
      (start refused)
    = Some ((Terminal.Status500 refused_message, Terminal.initial), st').
Proof. eexists. by vm_compute. Qed.

(** C7, counterexample: with no project selected, the instruction is
    answered with the request to select a project, not with the delete
    intent, although it matches the delete phrasing. *)
Lemma delete_without_project_is_refused :
  ∃ x st',
    match_ true deleteRegex (T "delete the file foo.txt") = Some x
    ∧ group 1 x = T "foo.txt"
    ∧ Chat.chat no_template (T "delete the file foo.txt") [] [] [] []
        (start notes)
      = Some (Chat.Reply Chat.no_project_message None, st').
Proof. eexists _, _. split; [by vm_compute|]. split; by vm_compute. Qed.

(** C7 on the instruction of the scenario, with a project selected. *)
Lemma delete_intent_witness :
  Chat.chat no_template (T "delete the file foo.txt") [] [] (T "demo") []
    (start notes)
  = Some (Chat.Reply (T "🗑️ Deleted `foo.txt`.")
            (Some (Chat.DeleteFile (T "foo.txt"))), start notes).
Proof.
  apply (proj1 (delete_intent no_template (T "delete the file foo.txt") [] []
                  (T "demo") [] (start notes)
                  (Match 0 23 [(1, T "foo.txt")]) eq_refl)).
  left. reflexivity.
Defined.

(** C9 on a match whose body is two spaces. *)
Lemma parsed_edits_sound_witness :
  edit_of_match (Match 0 22 [(2, T "  "); (1, T "a.txt")]) = None.
Proof.
  apply (proj1 (proj2 (proj2
    (parsed_edits_sound [] false (Match 0 22 [(2, T "  "); (1, T "a.txt")])
       [] [] (start notes))))).
  left. reflexivity.
Defined.

(** C10, counterexample: a stop request that carries no project is
    answered with status 400 and no [success] field, not with [success]
    false and the message that no preview server is running. *)
Lemma stop_without_project_is_refused :
  ∃ r st',
    Terminal.stop [] Terminal.initial (start notes)
    = Some ((r, Terminal.initial), st')
    ∧ r = Terminal.Status400 (T "Project required")
    ∧ r ≠ Terminal.Outcome false Terminal.no_preview_running.
Proof. eexists _, _. split; [by vm_compute|]. split; [done|]. by intros [=]. Qed.

(** C10 on the state reached by starting a server command. *)
Lemma preview_servers_always_empty_witness :
  Terminal.stop (T "demo") tracked (start notes)
  = Some ((Terminal.Outcome false Terminal.no_preview_running, tracked),
          start notes).
Proof.
  assert (Hreach : Terminal.reachable (W:=world) tracked).
  { eapply (Terminal.reach_request
              (Terminal.RunReq (Some (T "python -m http.server 8080")) (T "demo"))
              Terminal.initial (start notes)).
    - apply Terminal.reach_initial.
    - vm_compute. reflexivity. }
  exact (proj1 (proj2 (proj2 (preview_servers_always_empty tracked Hreach)))
           (T "demo") (start notes) eq_refl).
Defined.

(** The scenario of fifty files of ten thousand characters: one prompt is
    submitted, of ten sections of three thousand characters and the frame. *)
Lemma large_project_prompt :
  N.of_nat (length (files large_project)) = 50%N
  ∧ forallb (λ f, (N.of_nat (length f.2) =? 10000)%N) (files large_project) = true
  ∧ prompt_sizes (AutoFix.auto_fix (T "big") [] (start large_project)) = [30812%N].
Proof. split; [by vm_compute|]. split; by vm_compute. Qed.

End Witnesses.

(** ** Instances of the further properties *)

Module Instances.
Import Protocol Phrases Scripted Scenarios Cases Language Registry Commands Intents.
Import HistoryFacts RegistryFacts CommandFacts ChatEffects PathFacts ExplanationFacts.
Import TemplateFacts.

(** A failing program, one fix and a run that succeeds: three entries, two
    runs and one call to the provider. *)
Lemma one_fix_then_success :
  ∃ st',
    AutoFix.auto_fix (T "demo") [] (start fixable)
    = Some (AutoFix.Report true (T "✅ **Success!** Your code runs without errors after 1 fix(es).")
              [AutoFix.ErrorDetected 1 (T "SyntaxError");
               AutoFix.AppliedFix 1 (T "Closed the call.") [T "app.py"];
               AutoFix.Success 2 (T "1")]
              (Some (T "1")), st')
    ∧ runs (log st') = 2 ∧ provider_calls (log st') = 1
    ∧ Scripted.lookup_file (T "app.py") (files (Effects.world st')) = Some (T "print(1)").
Proof. eexists. split; [by vm_compute|]. split; [by vm_compute|]. by vm_compute. Qed.

(** X4 on a Python project whose request gives no run command. *)
Lemma run_command_chosen_witness :
  ∃ resp st' command rest f,
    AutoFix.auto_fix (T "demo") [] (start healthy) = Some (resp, st')
    ∧ log st' = EGetAllProjectFiles (T "demo") :: EExec command :: rest
    ∧ f ∈ [T "app.py"; T "requirements.txt"]
    ∧ command = T "py " ++ f.
Proof.
  destruct (run_command_chosen (T "demo") (start healthy)
              [T "app.py"; T "requirements.txt"] healthy)
    as (resp & st' & new & He & Hlog & _ & Hrun); [reflexivity..|].
  destruct (Hrun eq_refl) as (command & rest & -> & _ & Hpy).
  destruct (Hpy eq_refl) as (f & Hin & ->).
  exists resp, st', (T "py " ++ f), rest, f.
  split; [exact He|]. split; [exact Hlog|]. split; [exact Hin|reflexivity].
Defined.

(** X5 on the state reached by starting a server command. *)
Lemma registry_invariant_witness :
  Terminal.processes tracked
  = Terminal.Processes [(Some 4242, T "Background process (demo)")].
Proof.
  assert (Hreach : Terminal.reachable (W:=world) tracked).
  { eapply (Terminal.reach_request
              (Terminal.RunReq (Some (T "python -m http.server 8080")) (T "demo"))
              Terminal.initial (start notes)).
    - apply Terminal.reach_initial.
    - vm_compute. reflexivity. }
  exact (proj2 (proj2 (registry_invariant tracked Hreach))).
Defined.

(** X6 on a tracked child and a termination command that succeeds. *)
Lemma kill_success_removes_witness :
  ∃ st',
    Terminal.kill (Some 4242) tracked (start taskkill_ok)
    = Some ((Terminal.Outcome true (T "Process 4242 killed"), Terminal.Server [] []), st')
    ∧ log st' = [EExec (T "taskkill /F /PID 4242"); EChildKill 4242].
Proof.
  assert (Hreach : Terminal.reachable (W:=world) tracked).
  { eapply (Terminal.reach_request
              (Terminal.RunReq (Some (T "python -m http.server 8080")) (T "demo"))
              Terminal.initial (start notes)).
    - apply Terminal.reach_initial.
    - vm_compute. reflexivity. }
  apply (kill_success_removes 4241 tracked (start taskkill_ok)
           (ExecResult None (T "SUCCESS: The process with PID 4242 has been terminated.") [])
           (World [] [] []) Hreach); reflexivity.
Defined.

(** X7 on the first server command of a project. *)
Lemma server_tracked_until_exit_witness :
  ∃ r sv',
    Terminal.run (Some (T "python -m http.server 8080")) (T "demo") Terminal.initial
      (start notes)
    = Some ((r, sv'), State notes [ESpawn (T "py -m http.server 8080")])
    ∧ JsMap.get (T "demo") (Terminal.runningProcesses sv')
      = Some (Terminal.Child (Some 4242))
    ∧ JsMap.get (T "demo")
        (Terminal.runningProcesses (Terminal.child_exit (T "demo") sv')) = None.
Proof.
  destruct (server_tracked_until_exit (T "python -m http.server 8080") (T "demo")
              Terminal.initial (start notes) 4241 [] false notes)
    as (r & sv' & Hrun & Hget & _ & Hexit & _).
  - apply Terminal.reach_initial.
  - reflexivity.
  - reflexivity.
  - exists r, sv'. split; [exact Hrun|]. split; [exact Hget|exact Hexit].
Defined.

(** X9 on a command that ends with a port of four digits. *)
Lemma port_of_command_witness :
  Terminal.port_of (T "python -m http.server 8080") = T "8080".
Proof.
  apply (proj1 (proj2 (port_of_command (T "python -m http.server ") (T "8080") eq_refl)));
    reflexivity.
Defined.

(** X11 on a question about a picture. *)
Lemma image_request_fails_witness :
  ∃ resp st' new,
    Chat.chat no_template (T "what is in this picture") [] [] (T "demo")
      (T "data:image/png;base64,AAAA") (start chatty)
    = Some (resp, st')
    ∧ log st' = new ∧ provider_calls new = 0.
Proof.
  destruct (image_request_fails no_template (T "what is in this picture") [] []
              (T "demo") (T "data:image/png;base64,AAAA") (start chatty) eq_refl)
    as (resp & st' & new & He & Hlog & Hcalls & _).
  exists resp, st', new. split; [exact He|]. split; [exact Hlog|exact Hcalls].
Defined.

(** X14 on the instruction to delete a file. *)
Lemma intent_paths_name_files_witness : names_file (T "foo.txt").
Proof.
  eapply (intent_paths_name_files no_template (T "delete the file foo.txt") [] []
            (T "demo") [] (start notes)).
  - vm_compute. reflexivity.
  - left. reflexivity.
Defined.

(** X18 on a request for a new page that the provider answers with prose:
    the starter template is written. *)
Lemma chat_intents_well_formed_witness :
  ∃ content,
    well_formed_action (Chat.WriteFile (T "index.html") content)
    ∧ content = Templates.html_template (T "Index").
Proof.
  eexists. split.
  - eapply (chat_intents_well_formed (T "create a file called index.html") [] []
              (T "demo") [] (start chatty)).
    vm_compute. reflexivity.
  - vm_compute. reflexivity.
Defined.

End Instances.
